(** * TauriVoiceToText: the streaming session, the PCM encoder and the
      recording hook, embedded in Rocq

    The development follows four source files:
    - [src/services/transcription.ts]  (class [TranscriptionService]),
    - [src/services/nativeProbe.ts]    ([probeDeepgramNative]),
    - [src/services/audioCapture.ts]   (class [AudioCaptureService]),
    - [src/hooks/useVoiceToText.ts]    (the React hook [useVoiceToText]).

    Conventions of the embedding.
    - A JavaScript string is a [string] (its UTF-8 bytes).  All literal
      patterns the code searches for are ASCII, so searching bytes and
      searching UTF-16 code units find the same occurrences; the class
      [\s] is matched character by character on the bytes.
    - A nullable field is an [option], or a [bool] when only its presence
      matters.  A callback slot of the service ([onTranscriptCallback],
      [onErrorCallback]) is such a [bool]; calling a registered callback
      is recorded as an [effect], and the hook gives the effect its
      meaning on the hook's state.
    - A function that may throw returns a [completion].
    - Asynchronous code is a state machine stepped by what the runtime
      delivers (endpoint events and timers).  What the environment
      decides (whether the platform grants the microphone, what a probe
      answers, whether a call of the SDK throws) is an argument. *)

From Stdlib Require Import ZArith QArith Qround Qpower Lqa List String Ascii Bool Lia.
From Stdlib Require Import DecimalString.
From Stdlib Require Import PrimFloat SpecFloat FloatOps.
Import ListNotations.

Local Open Scope string_scope.
Local Open Scope Z_scope.

(** ** JavaScript strings *)

Module JSString.

(** [s.includes(needle)]. *)
Fixpoint includes (needle s : string) : bool :=
  String.prefix needle s
  || match s with
     | EmptyString => false
     | String _ s' => includes needle s'
     end.

(** Case folding of one byte, as the [i] flag of a regular expression
    compares characters: the letters A to Z fold to a to z.  The patterns
    of the code carry no [u] flag, so a character outside ASCII is never
    folded onto an ASCII letter, and its bytes are left as they are. *)
Definition lower (c : ascii) : ascii :=
  let n := nat_of_ascii c in
  if ((65 <=? n)%nat && (n <=? 90)%nat)%bool then ascii_of_nat (n + 32) else c.

Fixpoint lowercase (s : string) : string :=
  match s with
  | EmptyString => EmptyString
  | String c s' => String (lower c) (lowercase s')
  end.

(** [/lit/i.test(s)] for a literal pattern [lit]. *)
Definition test_ci (lit s : string) : bool :=
  includes (lowercase lit) (lowercase s).

(** The class [\s] of a regular expression, read off the UTF-8 bytes of
    a string.  Its characters of one byte: space, tab, line feed,
    vertical tab, form feed, carriage return. *)
Definition space_byte (c : ascii) : bool :=
  let n := nat_of_ascii c in
  ((n =? 32) || ((9 <=? n) && (n <=? 13)))%nat.

(** Its character of two bytes: U+00A0, the bytes C2 A0. *)
Definition space_2bytes (c1 c2 : ascii) : bool :=
  ((nat_of_ascii c1 =? 194) && (nat_of_ascii c2 =? 160))%nat.

(** Its characters of three bytes: U+1680 (E1 9A 80), U+2000 to U+200A
    (E2 80 80 to E2 80 8A), U+2028 and U+2029 (E2 80 A8, E2 80 A9),
    U+202F (E2 80 AF), U+205F (E2 81 9F), U+3000 (E3 80 80) and U+FEFF
    (EF BB BF). *)
Definition space_3bytes (c1 c2 c3 : ascii) : bool :=
  let a := nat_of_ascii c1 in
  let b := nat_of_ascii c2 in
  let c := nat_of_ascii c3 in
  (((a =? 225) && (b =? 154) && (c =? 128))
   || ((a =? 226) && (b =? 128)
       && (((128 <=? c) && (c <=? 138)) || (c =? 168) || (c =? 169) || (c =? 175)))
   || ((a =? 226) && (b =? 129) && (c =? 159))
   || ((a =? 227) && (b =? 128) && (c =? 128))
   || ((a =? 239) && (b =? 187) && (c =? 191)))%nat.

(** The string after the white space it starts with.  It is applied at
    the end of an ASCII match, which is a character boundary, and it
    skips whole characters. *)
Fixpoint skip_spaces (s : string) : string :=
  match s with
  | String c1 s1 =>
      if space_byte c1 then skip_spaces s1
      else
        match s1 with
        | String c2 s2 =>
            if space_2bytes c1 c2 then skip_spaces s2
            else
              match s2 with
              | String c3 s3 =>
                  if space_3bytes c1 c2 c3 then skip_spaces s3 else s
              | EmptyString => s
              end
        | EmptyString => s
        end
  | EmptyString => EmptyString
  end.

(** [/head\s*tail/i.test(s)]: [head], any run of white space, [tail].
    [\s*] is greedy, and no [tail] used by the code starts with white
    space, so skipping the whole run loses no match. *)
Fixpoint test_ci_spaced_from (head tail s : string) : bool :=
  (if String.prefix head s
   then String.prefix tail
          (skip_spaces (substring (String.length head) (String.length s) s))
   else false)
  || match s with
     | EmptyString => false
     | String _ s' => test_ci_spaced_from head tail s'
     end.

Definition test_ci_spaced (head tail s : string) : bool :=
  test_ci_spaced_from (lowercase head) (lowercase tail) (lowercase s).

(** [String(n)] and [`${n}`] for an integer [n]. *)
Definition of_Z (n : Z) : string := NilZero.string_of_int (Z.to_int n).

(** A string is truthy when it is not empty. *)
Definition truthy (s : string) : bool :=
  match s with EmptyString => false | _ => true end.

(** [a || b] on optional strings ([None] is [undefined]). *)
Definition or_else (a : option string) (b : string) : string :=
  match a with
  | Some s => if truthy s then s else b
  | None => b
  end.

End JSString.

(** ** JavaScript numbers held by a [Float32Array]

    An element of a [Float32Array] is [NaN], an infinity, or a finite
    binary fraction [m * 2^e] with [|m| < 2^24].  JavaScript computes on it
    in binary64.  The encoder multiplies a clamped sample by [32767] or
    [32768]: the product has a significand below [2^24 * 2^15 = 2^39] and
    an exponent far from the binary64 limits, so binary64 returns it
    without rounding ([scaled_significand_fits] below).  The embedding
    therefore computes on [m * 2^e] exactly.  The zero [-0] behaves as [0]
    in every operation of the encoder ([-0 < 0] is false, and [-0] is
    stored as [0]), so one zero is kept. *)

Module JSNumber.

Inductive number : Type :=
  | NaN
  | Infinity (negative : bool)
  | Finite (m e : Z).          (* the value m * 2^e *)

Definition of_Z (n : Z) : number := Finite n 0.

(** Significands of two finite numbers over their smaller exponent. *)
Definition align (m1 e1 m2 e2 : Z) : Z * Z :=
  let e := Z.min e1 e2 in (m1 * 2 ^ (e1 - e), m2 * 2 ^ (e2 - e)).

(** [x < y]; false when either side is [NaN]. *)
Definition lt (x y : number) : bool :=
  match x, y with
  | NaN, _ | _, NaN => false
  | Infinity nx, Infinity ny => nx && negb ny
  | Infinity nx, Finite _ _ => nx
  | Finite _ _, Infinity ny => negb ny
  | Finite m1 e1, Finite m2 e2 =>
      let (a, b) := align m1 e1 m2 e2 in a <? b
  end.

(** [Math.min(x, y)] and [Math.max(x, y)]: [NaN] when either is [NaN]. *)
Definition min (x y : number) : number :=
  match x, y with
  | NaN, _ | _, NaN => NaN
  | _, _ => if lt y x then y else x
  end.

Definition max (x y : number) : number :=
  match x, y with
  | NaN, _ | _, NaN => NaN
  | _, _ => if lt x y then y else x
  end.

(** [x * y]. *)
Definition mul (x y : number) : number :=
  match x, y with
  | NaN, _ | _, NaN => NaN
  | Infinity nx, Infinity ny => Infinity (xorb nx ny)
  | Infinity n, Finite m _ | Finite m _, Infinity n =>
      if m =? 0 then NaN else Infinity (xorb n (m <? 0))
  | Finite m1 e1, Finite m2 e2 => Finite (m1 * m2) (e1 + e2)
  end.

(** The integer part of a finite number, rounding toward zero. *)
Definition truncate (m e : Z) : Z :=
  if 0 <=? e then m * 2 ^ e else Z.quot m (2 ^ (- e)).

(** [ToInt16], the conversion applied by a store into an [Int16Array]:
    [NaN] and the infinities become [0]; a finite number is truncated,
    reduced modulo [2^16] and read as a signed 16-bit integer. *)
Definition ToInt16 (x : number) : Z :=
  match x with
  | NaN | Infinity _ => 0
  | Finite m e =>
      let int16bit := truncate m e mod 65536 in
      if int16bit >=? 32768 then int16bit - 65536 else int16bit
  end.

(** The rational value of a finite number. *)
Definition value (m e : Z) : Q := (inject_Z m * 2 ^ e)%Q.

End JSNumber.

(** ** The PCM encoder, [TranscriptionService.float32ToLinear16] *)

Module Encoder.
Import JSNumber.

(** The loop body: the 16-bit integer stored for one sample. *)
Definition sample16 (x : number) : Z :=
  let sample := max (of_Z (-1)) (min (of_Z 1) x) in
  ToInt16 (if lt sample (of_Z 0)
           then mul sample (of_Z 32768)
           else mul sample (of_Z 32767)).

(** The contents of [int16Array] after the loop. *)
Definition int16Array (float32Array : list number) : list Z :=
  map sample16 float32Array.

(** The two bytes of a 16-bit element in the buffer, low byte first (the
    byte order of typed arrays on little-endian hosts). *)
Definition bytes_of_int16 (v : Z) : list Z :=
  let u := v mod 65536 in [u mod 256; u / 256].

(** [int16Array.buffer], as a list of bytes. *)
Definition float32ToLinear16 (float32Array : list number) : list Z :=
  flat_map bytes_of_int16 (int16Array float32Array).

(** Reading a little-endian signed 16-bit value back from two bytes. *)
Definition int16_of_bytes (lo hi : Z) : Z :=
  let u := lo + 256 * hi in if u >=? 32768 then u - 65536 else u.

(** *** The encoding as the specification words it

    Clamp to [[-1, 1]]; scale by [32767] when non-negative and by [32768]
    when negative; truncate to an integer. *)

Definition clamp_spec (f : Q) : Q :=
  if Qlt_le_dec f (-1) then (-1)%Q else if Qlt_le_dec 1 f then 1%Q else f.

Definition scale_spec (f : Q) : Q :=
  if Qlt_le_dec f 0 then (f * 32768)%Q else (f * 32767)%Q.

Definition truncate_spec (f : Q) : Z :=
  if Qlt_le_dec f 0 then Qceiling f else Qfloor f.

Definition encode_spec (f : Q) : Z := truncate_spec (scale_spec (clamp_spec f)).

(** The receiver's reading of a linear16 buffer: consecutive pairs of
    bytes as little-endian signed 16-bit values. *)
Fixpoint linear16ToInt16 (bytes : list Z) : list Z :=
  match bytes with
  | lo :: hi :: rest => int16_of_bytes lo hi :: linear16ToInt16 rest
  | _ => []
  end.

End Encoder.

(** ** The loop body on binary64 values

    The same loop body with the arithmetic of the processor, on the
    primitive binary64 numbers of Rocq.  It is used to test the exact
    embedding above on float32 values ([binary64_agrees]). *)

Module Binary64.
Import JSNumber.

(** A binary64 value as a number of the embedding. *)
Definition of_binary64 (f : float) : number :=
  match Prim2SF f with
  | S754_zero _ => Finite 0 0
  | S754_infinity s => Infinity s
  | S754_nan => NaN
  | S754_finite s m e => Finite (if s then Z.neg m else Z.pos m) e
  end.

(** A number of the embedding as a binary64 value. *)
Definition to_binary64 (x : number) : float :=
  match x with
  | NaN => nan
  | Infinity s => if s then neg_infinity else infinity
  | Finite m e =>
      SF2Prim (match m with
               | Z0 => S754_zero false
               | Zpos p => S754_finite false p e
               | Zneg p => S754_finite true p e
               end)
  end.

Definition Math_min (x y : float) : float :=
  if (is_nan x || is_nan y)%bool then nan
  else if (y <? x)%float then y else x.

Definition Math_max (x y : float) : float :=
  if (is_nan x || is_nan y)%bool then nan
  else if (x <? y)%float then y else x.

Definition sample16_binary64 (f : float) : Z :=
  let sample := Math_max (-1) (Math_min 1 f) in
  ToInt16 (of_binary64 (if (sample <? 0)%float
                        then (sample * 32768)%float
                        else (sample * 32767)%float)).

(** Float32 values: the integers of the clamp, fractions, the nearest
    float32 to 0.1 and to 1/3, the neighbours of 1 and -1, the smallest
    and the largest float32, and the values that are not finite. *)
Definition float32_samples : list number :=
  [of_Z 1; of_Z (-1); of_Z 0;
   Finite 1 (-1); Finite 3 (-1); Finite (-3) (-2);
   Finite 13421773 (-27); Finite (-13421773) (-27);
   Finite 11184811 (-25); Finite (-11184811) (-25);
   Finite 16777215 (-24); Finite (-16777215) (-24);
   Finite 8388609 (-23); Finite (-8388609) (-23);
   Finite 1 (-149); Finite (-1) (-149);
   Finite 16777215 104; Finite (-16777215) 104;
   NaN; Infinity true; Infinity false].

End Binary64.


(** ** The streaming session, class [TranscriptionService] *)

Module Transcription.
Import JSString.

(** A value thrown, or passed to an [Error] listener: what the code reads
    of it, [error?.message] and [String(error)]. *)
Record js_error : Type := {
  message : option string;
  as_string : string
}.

(** [new Error(msg)]. *)
Definition new_Error (msg : string) : js_error :=
  {| message := Some msg;
     as_string := if truthy msg then "Error: " ++ msg else "Error" |}.

Record TranscriptionResult : Type := {
  transcript : string;
  isFinal : bool;
  confidence : Q
}.

(** The payload of a [Transcript] event, as the listener reads it:
    [data.channel?.alternatives?.[0]?.transcript], [data.is_final] (by
    its truth value) and [data.channel?.alternatives?.[0]?.confidence]. *)
Record transcript_data : Type := {
  alt_transcript : option string;
  is_final : bool;
  alt_confidence : option Q
}.

(** [LiveTranscriptionEvents], with what each listener receives.  For
    [Close], [event?.code] and [event?.reason]; [None] is [undefined]. *)
Inductive LiveTranscriptionEvents : Type :=
  | Open
  | Transcript (data : transcript_data)
  | Metadata
  | Error (error : js_error)
  | Close (code : option Z) (reason : option string).

(** What the service does to the world around it. *)
Inductive effect : Type :=
  | ListenLive (connection : option nat)
      (* a call of this.deepgram.listen.live(...): the connection it
         returned, or None when it threw *)
  | SetTimeout (ms : Z)
  | Send (connection : nat) (audioBuffer : list Z)
  | Finish (connection : nat)
  | TranscriptCallback (result : TranscriptionResult)
  | ErrorCallback (msg : string)
  | ConsoleLog (text : string)
  | ConsoleWarn (text : string)
  | ConsoleError (text : string).

(** The fields of the class.  Connection objects are named by the order
    of their creation; [created] counts them (a ghost field: it names the
    next object and tells which objects carry listeners). *)
Record TranscriptionService : Type := {
  connection : option nat;
  isConnected : bool;
  onTranscriptCallback : bool;
  onErrorCallback : bool;
  created : nat
}.

Definition set_connection (v : option nat) (s : TranscriptionService) :=
  {| connection := v; isConnected := isConnected s;
     onTranscriptCallback := onTranscriptCallback s;
     onErrorCallback := onErrorCallback s; created := created s |}.

Definition set_isConnected (v : bool) (s : TranscriptionService) :=
  {| connection := connection s; isConnected := v;
     onTranscriptCallback := onTranscriptCallback s;
     onErrorCallback := onErrorCallback s; created := created s |}.

Definition set_callbacks (t e : bool) (s : TranscriptionService) :=
  {| connection := connection s; isConnected := isConnected s;
     onTranscriptCallback := t; onErrorCallback := e; created := created s |}.

Definition set_created (n : nat) (s : TranscriptionService) :=
  {| connection := connection s; isConnected := isConnected s;
     onTranscriptCallback := onTranscriptCallback s;
     onErrorCallback := onErrorCallback s; created := n |}.

(** The result of a call that returns or throws. *)
Inductive completion (A : Type) : Type :=
  | Returns (a : A)
  | Throws (msg : string).
Arguments Returns {A} a.
Arguments Throws {A} msg.

(** The constructor. *)
Definition constructor (apiKey : string) : completion TranscriptionService :=
  if negb (truthy apiKey) then Throws "Deepgram API key is required"
  else Returns {| connection := None; isConnected := false;
                  onTranscriptCallback := false; onErrorCallback := false;
                  created := 0 |}.

Definition onTranscript (s : TranscriptionService) : TranscriptionService :=
  set_callbacks true (onErrorCallback s) s.

Definition onError (s : TranscriptionService) : TranscriptionService :=
  set_callbacks (onTranscriptCallback s) true s.

(** *** [setupEventListeners] *)

(** The [Transcript] listener. *)
Definition on_Transcript (s : TranscriptionService) (data : transcript_data)
  : list effect :=
  match alt_transcript data with
  | Some text =>
      if truthy text && onTranscriptCallback s
      then [TranscriptCallback
              {| transcript := text;
                 isFinal := is_final data;
                 confidence := match alt_confidence data with
                               | Some c => c
                               | None => 0%Q
                               end |}]
      else []
  | None => []
  end.

(** The message the [Error] listener passes on. *)
Definition userMessage (error : js_error) : string :=
  let userMessage := or_else (message error) "Transcription error" in
  if test_ci_spaced "Status:" "401" userMessage
     || test_ci "401 Unauthorized" userMessage
     || test_ci "No key or access token provided" userMessage
     || test_ci "access token" userMessage
  then "Authentication failed — check your Deepgram API key"
  else if test_ci_spaced "Status:" "403" userMessage
          || test_ci "403 Forbidden" userMessage
  then "Permission denied — check your Deepgram account and plan"
  else if test_ci "Connection timeout" userMessage
          || test_ci "timeout" userMessage
          || test_ci "Ready State: CLOSING" userMessage
          || test_ci "Ready State: CLOSED" userMessage
  then "Network error — WebSocket connection failed (check network/firewall)"
  else userMessage.

Definition on_Error (s : TranscriptionService) (error : js_error)
  : list effect :=
  ConsoleError "Deepgram error:"
  :: (if onErrorCallback s then [ErrorCallback (userMessage error)] else []).

(** A close code is truthy when it is present and not zero. *)
Definition truthy_code (code : option Z) : option Z :=
  match code with
  | Some c => if c =? 0 then None else Some c
  | None => None
  end.

(** The message of the [Close] listener for a code other than 1000. *)
Definition close_message (code : Z) (reason : option string) : string :=
  if code =? 1006
  then "Connection closed abnormally (1006) — possible network/firewall/TLS/proxy issue blocking WebSocket connections"
  else "Connection closed (code " ++ of_Z code ++ ")"
       ++ match reason with
          | Some r => if truthy r then ": " ++ r else ""
          | None => ""
          end.

Definition on_Close (s : TranscriptionService)
  (code : option Z) (reason : option string)
  : TranscriptionService * list effect :=
  (set_isConnected false s,
   ConsoleLog "Deepgram connection closed"
   :: match truthy_code code with
      | Some c =>
          if negb (c =? 1000)
          then if onErrorCallback s
               then [ErrorCallback (close_message c reason)]
               else []
          else []
      | None => []
      end).

(** The listeners that [setupEventListeners] registers on a connection. *)
Definition listeners (s : TranscriptionService) (ev : LiveTranscriptionEvents)
  : TranscriptionService * list effect :=
  match ev with
  | Transcript data => (s, on_Transcript s data)
  | Metadata => (s, [ConsoleLog "Metadata:"])
  | Error error => (s, on_Error s error)
  | Close code reason => on_Close s code reason
  | Open => (s, [])
  end.

(** *** [connect]

    [connect] suspends at [await]: at the promise that waits for the
    connection to open, and at the 500 ms pause of the [catch] block.
    While it is suspended the runtime delivers endpoint events and
    timers; each delivery is one [step]. *)

Inductive event : Type :=
  | Endpoint (c : nat) (ev : LiveTranscriptionEvents)
      (* the endpoint event ev, delivered to the listeners of connection c *)
  | ConnectionTimeout (c : nat)
      (* the 10 s timer set while waiting for connection c to open *)
  | PauseElapsed.
      (* the 500 ms timer of the catch block *)

Inductive phase : Type :=
  | Awaiting (c : nat)      (* at the open promise of connection c *)
  | Pausing                 (* in the 500 ms pause before `continue` *)
  | Resolved                (* connect() returned *)
  | Rejected (msg : string). (* connect() threw *)

(** A call of [connect]: the object, the locals of the call, where the
    call stands, and the effects so far (oldest first). *)
Record connecting : Type := {
  service : TranscriptionService;
  attempts : nat;
  lastError : option js_error;
  at_phase : phase;
  effects : list effect
}.

Definition maxAttempts : nat := 2.

(** [listen.live] may throw instead of returning a connection: [live k]
    is what the call made with [attempts = k] throws, if it throws. *)
Definition live_oracle : Type := nat -> option js_error.

Definition emit (es : list effect) (st : connecting) : connecting :=
  {| service := service st; attempts := attempts st;
     lastError := lastError st; at_phase := at_phase st;
     effects := effects st ++ es |}.

Definition set_phase (p : phase) (st : connecting) : connecting :=
  {| service := service st; attempts := attempts st;
     lastError := lastError st; at_phase := p; effects := effects st |}.

Definition set_service (s : TranscriptionService) (st : connecting) : connecting :=
  {| service := s; attempts := attempts st;
     lastError := lastError st; at_phase := at_phase st;
     effects := effects st |}.

(** [lastError?.message]. *)
Definition lastError_message (st : connecting) : option string :=
  match lastError st with
  | Some e => message e
  | None => None
  end.

(** [String(lastError)]. *)
Definition lastError_string (st : connecting) : string :=
  match lastError st with
  | Some e => as_string e
  | None => "null"
  end.

(** The code after the loop: notify the error callback, then throw. *)
Definition surface_failure (st : connecting) : connecting :=
  let st :=
    if onErrorCallback (service st)
    then emit [ErrorCallback
                 (or_else (lastError_message st) "Failed to connect to Deepgram")] st
    else st in
  set_phase
    (Rejected ("Failed to connect to transcription service: "
               ++ or_else (lastError_message st) (lastError_string st)))
    st.

(** The retry test of the [catch] block. *)
Definition retryable (error : js_error) : bool :=
  match message error with
  | Some m => includes "1006" m || includes "Network error" m
  | None => false
  end.

(** The [catch] block. *)
Definition catch (error : js_error) (st : connecting) : connecting :=
  let st := {| service := service st; attempts := S (attempts st);
               lastError := Some error; at_phase := at_phase st;
               effects := effects st |} in
  if retryable error
  then set_phase Pausing
         (emit [ConsoleWarn "Deepgram connection failed, retrying...";
                SetTimeout 500] st)
  else surface_failure st.

(** The loop, from its test: one more attempt, up to the first [await],
    or the code after the loop. *)
Definition loop (live : live_oracle) (st : connecting) : connecting :=
  if (attempts st <? maxAttempts)%nat then
    match live (attempts st) with
    | Some error => catch error (emit [ListenLive None] st)
    | None =>
        let c := created (service st) in
        set_phase (Awaiting c)
          (emit [ListenLive (Some c); SetTimeout 10000]
             (set_service
                (set_created (S c) (set_connection (Some c) (service st)))
                st))
    end
  else surface_failure st.

(** The call [connect()], up to its first [await]. *)
Definition connect (live : live_oracle) (s : TranscriptionService) : connecting :=
  if isConnected s
  then {| service := s; attempts := 0; lastError := None;
          at_phase := Resolved;
          effects := [ConsoleWarn "Already connected to Deepgram"] |}
  else loop live {| service := s; attempts := 0; lastError := None;
                    at_phase := Pausing; effects := [] |}.

Definition awaiting (c : nat) (st : connecting) : bool :=
  match at_phase st with
  | Awaiting c' => (c =? c')%nat
  | _ => false
  end.

(** The listeners of one connection made by [connect]: those of
    [setupEventListeners] and, registered after them, the [Open] and
    [Error] listeners of the promise.  Here the part of them that does
    not depend on the promise: the [Open] listener assigns
    [this.isConnected = true] whether or not the promise is settled. *)
Definition handlers (s : TranscriptionService) (ev : LiveTranscriptionEvents)
  : TranscriptionService * list effect :=
  let (s, es) := listeners s ev in
  match ev with
  | Open => (set_isConnected true s, (es ++ [ConsoleLog "Connected to Deepgram"])%list)
  | _ => (s, es)
  end.

(** One delivery.  An event of a connection that was never made reaches
    no listener.  [resolve] and [reject] act only on the promise [connect]
    is waiting at. *)
Definition step (live : live_oracle) (st : connecting) (ev : event) : connecting :=
  match ev with
  | Endpoint c ev =>
      if (c <? created (service st))%nat then
        let (s, es) := handlers (service st) ev in
        let st1 := emit es (set_service s st) in
        if awaiting c st then
          match ev with
          | Open => set_phase Resolved st1
          | Error error => catch error st1
          | _ => st1
          end
        else st1
      else st
  | ConnectionTimeout c =>
      if awaiting c st then catch (new_Error "Connection timeout") st else st
  | PauseElapsed =>
      match at_phase st with
      | Pausing => loop live st
      | _ => st
      end
  end.

Definition run (live : live_oracle) (st : connecting) (evs : list event)
  : connecting :=
  fold_left (step live) evs st.

(** The timer a suspended [connect] is waiting for, if no event comes. *)
Definition timer_due (st : connecting) : option event :=
  match at_phase st with
  | Awaiting c => Some (ConnectionTimeout c)
  | Pausing => Some PauseElapsed
  | Resolved | Rejected _ => None
  end.

(** Let the timers fire until [connect] has returned or thrown. *)
Fixpoint settle (live : live_oracle) (fuel : nat) (st : connecting) : connecting :=
  match fuel with
  | O => st
  | S fuel' =>
      match timer_due st with
      | Some ev => settle live fuel' (step live st ev)
      | None => st
      end
  end.

(** The deliveries made while the call is suspended: those of [evs] up
    to the one at which the call returns or throws. *)
Fixpoint run_suspended (live : live_oracle) (st : connecting)
  (evs : list event) : connecting :=
  match evs with
  | [] => st
  | ev :: evs' =>
      match timer_due st with
      | Some _ => run_suspended live (step live st ev) evs'
      | None => st
      end
  end.

(** A whole call of [connect]: the deliveries made while it is
    suspended, then, if it is still suspended, its timers.  Five timers
    always suffice ([connect_settles]). *)
Definition connect_call (live : live_oracle) (s : TranscriptionService)
  (evs : list event) : connecting :=
  settle live 5 (run_suspended live (connect live s) evs).

(** The number of calls of [listen.live] among some effects. *)
Fixpoint connection_attempts (es : list effect) : nat :=
  match es with
  | [] => 0
  | ListenLive _ :: es' => S (connection_attempts es')
  | _ :: es' => connection_attempts es'
  end.

(** *** [sendAudio], [finish], [disconnect], [getConnectionState] *)

(** The argument of [sendAudio]: raw samples, or a [Blob] (its bytes). *)
Inductive audio : Type :=
  | Float32Array (samples : list JSNumber.number)
  | Blob (bytes : list Z).

(** [sendAudio].  [send_throws] tells whether an operation of the [try]
    block ([arrayBuffer()] or [connection.send]) throws. *)
Definition sendAudio (s : TranscriptionService) (audioData : audio)
  (send_throws : bool) : completion unit * list effect :=
  match isConnected s, connection s with
  | true, Some c =>
      if send_throws
      then (Throws "Failed to send audio for transcription",
            [ConsoleError "Failed to send audio:"])
      else
        let audioBuffer :=
          match audioData with
          | Float32Array samples => Encoder.float32ToLinear16 samples
          | Blob bytes => bytes
          end in
        (Returns tt, [Send c audioBuffer])
  | _, _ => (Throws "Not connected to transcription service", [])
  end.

(** [finish]; a throw of [connection.finish()] is logged. *)
Definition finish (s : TranscriptionService) (finish_throws : bool)
  : list effect :=
  match connection s with
  | None => []
  | Some c =>
      if finish_throws then [ConsoleError "Error finishing transcription:"]
      else [Finish c; SetTimeout 500]
  end.

Definition disconnect (s : TranscriptionService)
  : TranscriptionService * list effect :=
  (set_callbacks false false (set_isConnected false (set_connection None s)),
   match connection s with
   | Some c => [Finish c]
   | None => []
   end).

Definition getConnectionState (s : TranscriptionService) : bool :=
  isConnected s.

(** *** The probes and [validateApiKey] *)

(** The result of a probe, [{ success, message, code?, reason? }]. *)
Record ProbeResult : Type := {
  success : bool;
  probe_message : string;
  probe_code : option Z;
  probe_reason : option string
}.

(** What can happen to the connection of a probe. *)
Inductive probe_event : Type :=
  | ProbeOpen
  | ProbeError (err : js_error)
  | ProbeClose (code : option Z) (reason : option string)
  | ProbeTimeout.

(** [`${code}`] for a close code that may be [undefined]. *)
Definition show_code (code : option Z) : string :=
  match code with
  | Some c => of_Z c
  | None => "undefined"
  end.

(** The result a listener of the probe passes to [finish]. *)
Definition probe_result (ev : probe_event) : ProbeResult :=
  match ev with
  | ProbeOpen =>
      {| success := true; probe_message := "WebSocket opened successfully";
         probe_code := None; probe_reason := None |}
  | ProbeError err =>
      {| success := false;
         probe_message := "Error: " ++ or_else (message err) (as_string err);
         probe_code := None; probe_reason := None |}
  | ProbeClose code reason =>
      {| success := false;
         probe_message := "Closed (code " ++ show_code code ++ ")"
                          ++ match reason with
                             | Some r => if truthy r then ": " ++ r else ""
                             | None => ""
                             end;
         probe_code := code; probe_reason := reason |}
  | ProbeTimeout =>
      {| success := false; probe_message := "WebSocket probe timed out";
         probe_code := None; probe_reason := None |}
  end.

(** The inner [finish] of [probeConnection]: the first result wins
    ([finished] is [Some] once a result is in). *)
Definition probe_finish (finished : option ProbeResult) (result : ProbeResult)
  : option ProbeResult :=
  match finished with
  | Some r => Some r
  | None => Some result
  end.

(** [probeConnection].  [live_throws] is what [listen.live] throws, if it
    throws; [evs] are the events of the probe connection in order.  The
    timer is cleared only by a listener that also finishes, so a probe
    that saw no event ends by its timer. *)
Definition probeConnection (live_throws : option js_error)
  (evs : list probe_event) : ProbeResult :=
  match live_throws with
  | Some err =>
      {| success := false;
         probe_message := "Probe failed: " ++ or_else (message err) (as_string err);
         probe_code := None; probe_reason := None |}
  | None =>
      match fold_left (fun fin ev => probe_finish fin (probe_result ev)) evs None with
      | Some r => r
      | None => probe_result ProbeTimeout
      end
  end.

(** [probeDeepgramNative]: the result of the native command, or the
    failure it is turned into when [invoke] rejects. *)
Definition probeDeepgramNative (invoked : ProbeResult + js_error) : ProbeResult :=
  match invoked with
  | inl result => result
  | inr error =>
      {| success := false;
         probe_message := "Native probe failed: "
                          ++ or_else (message error) (as_string error);
         probe_code := None; probe_reason := None |}
  end.

(** [nativeProbe.message || probe.message || ''] *)
Definition both_failed_msg (probe nativeProbe : ProbeResult) : string :=
  if truthy (probe_message nativeProbe) then probe_message nativeProbe
  else if truthy (probe_message probe) then probe_message probe
  else "".

Definition is_auth_msg (msg : string) : bool :=
  test_ci "Authentication failed" msg || test_ci "401" msg
  || test_ci "Unauthorized" msg || test_ci "access token" msg.

Definition is_timeout_msg (msg : string) : bool :=
  test_ci "timed out" msg || test_ci "WebSocket probe timed out" msg
  || test_ci "timeout" msg || test_ci "Timeout" msg.

(** [validateApiKey], given the result of the browser probe and the
    result the native probe gives when it is run. *)
Definition validateApiKey (probe nativeProbe : ProbeResult) : completion unit :=
  if success probe then Returns tt
  else if success nativeProbe then Returns tt
  else
    let msg := both_failed_msg probe nativeProbe in
    if is_auth_msg msg
    then Throws "Authentication failed — check your Deepgram API key"
    else if is_timeout_msg msg
            || match probe_code probe with
               | Some c => c =? 1006
               | None => false
               end
    then Throws ("WebSocket connection failed (possible network/firewall/proxy issue): " ++ msg)
    else Throws ("Deepgram API key validation failed: " ++ msg).

(** The inner [finish] of [probeConnection] once more, now counting the
    calls of [probeConn.finish()] it makes: the pair is the result
    passed to [resolve], if any yet, and the count. *)
Definition probe_finish_counting (st : option ProbeResult * nat)
  (result : ProbeResult) : option ProbeResult * nat :=
  match fst st with
  | Some _ => st
  | None => (Some result, S (snd st))
  end.

(** [probeConnection] with the count: the result, and how often the
    probe connection was finished.  As in [probeConnection], a probe
    that saw no event ends by its timer. *)
Definition probeConnection_counting (live_throws : option js_error)
  (evs : list probe_event) : ProbeResult * nat :=
  match live_throws with
  | Some err => (probeConnection (Some err) evs, 0%nat)
  | None =>
      let st := fold_left
                  (fun st ev => probe_finish_counting st (probe_result ev))
                  evs (None, 0%nat) in
      match fst st with
      | Some r => (r, snd st)
      | None => (probe_result ProbeTimeout, S (snd st))
      end
  end.

(** The endpoint events delivered one after the other to the listeners
    of a service, outside a call of [connect]. *)
Fixpoint deliver (s : TranscriptionService) (evs : list LiveTranscriptionEvents)
  : TranscriptionService * list effect :=
  match evs with
  | [] => (s, [])
  | ev :: evs' =>
      let (s1, es1) := handlers s ev in
      let (s2, es2) := deliver s1 evs' in
      (s2, (es1 ++ es2)%list)
  end.

End Transcription.

(** ** The session as the specification describes it

    The specification gives a session five connection states and names
    what moves it from one to the next.  The class keeps no such state,
    only [isConnected] and [connection].  The states and transitions are
    written down here in the specification's words, to be compared with
    what the class does. *)

Module SessionSpec.

Inductive state : Type :=
  | Idle
  | Connecting
  | Open
  | Closing
  | Closed.

Inductive transition : Type :=
  | connect_called       (* connect(): Idle or Closed to Connecting *)
  | open_acknowledged    (* the open acknowledgment: Connecting to Open *)
  | connect_failed       (* a failure while connecting: Connecting to Closed *)
  | finish_called        (* finish(): Open or Closing to Closing *)
  | disconnect_called.   (* disconnect(): any state to Closed *)

Definition next (st : state) (t : transition) : state :=
  match t, st with
  | connect_called, (Idle | Closed) => Connecting
  | open_acknowledged, Connecting => Open
  | connect_failed, Connecting => Closed
  | finish_called, (Open | Closing) => Closing
  | disconnect_called, _ => Closed
  | _, _ => st
  end.

(** The state of a session, new in [Idle], after some transitions. *)
Definition state_after (ts : list transition) : state :=
  fold_left next ts Idle.

End SessionSpec.

(** ** The capture source, class [AudioCaptureService] *)

Module AudioCapture.
Import Transcription.

(** The fields of the class; a nullable field is [true] when it is set. *)
Record AudioCaptureService : Type := {
  mediaStream : bool;
  audioContext : bool;
  scriptProcessor : bool;
  isRecording : bool;
  onDataAvailableCallback : bool
}.

Definition new_AudioCaptureService : AudioCaptureService :=
  {| mediaStream := false; audioContext := false; scriptProcessor := false;
     isRecording := false; onDataAvailableCallback := false |}.

(** [requestMicrophoneAccess]; [granted] is the answer of the platform. *)
Definition requestMicrophoneAccess (a : AudioCaptureService) (granted : bool)
  : completion AudioCaptureService :=
  if granted
  then Returns {| mediaStream := true; audioContext := audioContext a;
                  scriptProcessor := scriptProcessor a;
                  isRecording := isRecording a;
                  onDataAvailableCallback := onDataAvailableCallback a |}
  else Throws "Microphone access denied. Please grant permission to use the microphone.".

Definition startRecording (a : AudioCaptureService)
  : completion AudioCaptureService :=
  if negb (mediaStream a)
  then Throws "Media stream not initialized. Call requestMicrophoneAccess() first."
  else if isRecording a then Returns a
  else Returns {| mediaStream := mediaStream a; audioContext := true;
                  scriptProcessor := true; isRecording := true;
                  onDataAvailableCallback := true |}.

Definition stopRecording (a : AudioCaptureService) : AudioCaptureService :=
  if negb (isRecording a) then a
  else {| mediaStream := mediaStream a; audioContext := audioContext a;
          scriptProcessor := scriptProcessor a; isRecording := false;
          onDataAvailableCallback := onDataAvailableCallback a |}.

Definition getRecordingState (a : AudioCaptureService) : bool := isRecording a.

(** [cleanup], statement by statement. *)
Definition cleanup (a : AudioCaptureService) : AudioCaptureService :=
  let a := if isRecording a then stopRecording a else a in
  let a := if scriptProcessor a
           then {| mediaStream := mediaStream a; audioContext := audioContext a;
                   scriptProcessor := false; isRecording := isRecording a;
                   onDataAvailableCallback := onDataAvailableCallback a |}
           else a in
  let a := if audioContext a
           then {| mediaStream := mediaStream a; audioContext := false;
                   scriptProcessor := scriptProcessor a;
                   isRecording := isRecording a;
                   onDataAvailableCallback := onDataAvailableCallback a |}
           else a in
  let a := if mediaStream a
           then {| mediaStream := false; audioContext := audioContext a;
                   scriptProcessor := scriptProcessor a;
                   isRecording := isRecording a;
                   onDataAvailableCallback := onDataAvailableCallback a |}
           else a in
  {| mediaStream := mediaStream a; audioContext := audioContext a;
     scriptProcessor := scriptProcessor a; isRecording := isRecording a;
     onDataAvailableCallback := false |}.

(** A call on a capture service.  A call that throws leaves the fields
    as they were. *)
Inductive capture_call : Type :=
  | CallRequestAccess (granted : bool)
  | CallStart
  | CallStop
  | CallCleanup.

Definition capture_act (a : AudioCaptureService) (call : capture_call)
  : AudioCaptureService :=
  match call with
  | CallRequestAccess granted =>
      match requestMicrophoneAccess a granted with
      | Returns a' => a'
      | Throws _ => a
      end
  | CallStart =>
      match startRecording a with
      | Returns a' => a'
      | Throws _ => a
      end
  | CallStop => stopRecording a
  | CallCleanup => cleanup a
  end.

(** The service after a sequence of calls, from its construction. *)
Definition capture_after (calls : list capture_call) : AudioCaptureService :=
  fold_left capture_act calls new_AudioCaptureService.

End AudioCapture.

(** ** The orchestrator, hook [useVoiceToText] *)

Module UseVoiceToText.
Import JSString Transcription.

Record VoiceToTextState : Type := {
  isRecording : bool;
  isProcessing : bool;
  transcript : string;
  interimTranscript : string;
  error : option string;
  isReady : bool
}.

(** The hook: its state and its two reference cells. *)
Record Hook : Type := {
  state : VoiceToTextState;
  audioServiceRef : option AudioCapture.AudioCaptureService;
  transcriptionServiceRef : option TranscriptionService
}.

(** The first render. *)
Definition initial : Hook :=
  {| state := {| isRecording := false; isProcessing := false;
                 transcript := ""; interimTranscript := "";
                 error := None; isReady := false |};
     audioServiceRef := None;
     transcriptionServiceRef := None |}.

Definition setState (f : VoiceToTextState -> VoiceToTextState) (h : Hook) : Hook :=
  {| state := f (state h); audioServiceRef := audioServiceRef h;
     transcriptionServiceRef := transcriptionServiceRef h |}.

(** *** The callbacks registered by [initialize] *)

(** The updater of the transcript callback. *)
Definition transcript_updater (result : TranscriptionResult)
  (prev : VoiceToTextState) : VoiceToTextState :=
  if isFinal result
  then {| isRecording := isRecording prev; isProcessing := isProcessing prev;
          transcript := transcript prev ++ " " ++ Transcription.transcript result;
          interimTranscript := "";
          error := error prev; isReady := isReady prev |}
  else {| isRecording := isRecording prev; isProcessing := isProcessing prev;
          transcript := transcript prev;
          interimTranscript := Transcription.transcript result;
          error := error prev; isReady := isReady prev |}.

(** The updater of the error callback. *)
Definition error_updater (msg : string) (prev : VoiceToTextState)
  : VoiceToTextState :=
  {| isRecording := false; isProcessing := false;
     transcript := transcript prev; interimTranscript := interimTranscript prev;
     error := Some msg; isReady := isReady prev |}.

(** What an effect of the service does to the state of the hook: the two
    callbacks are the hook's, every other effect leaves the state alone. *)
Definition reduce (prev : VoiceToTextState) (e : effect) : VoiceToTextState :=
  match e with
  | TranscriptCallback result => transcript_updater result prev
  | ErrorCallback msg => error_updater msg prev
  | _ => prev
  end.

Definition reduce_all (es : list effect) (prev : VoiceToTextState)
  : VoiceToTextState :=
  fold_left reduce es prev.

(** An endpoint event delivered to the service of the hook outside a
    call of [connect]. *)
Definition endpoint_event (h : Hook) (c : nat) (ev : LiveTranscriptionEvents)
  : Hook :=
  match transcriptionServiceRef h with
  | Some s =>
      if (c <? created s)%nat then
        let (s', es) := handlers s ev in
        {| state := reduce_all es (state h);
           audioServiceRef := audioServiceRef h;
           transcriptionServiceRef := Some s' |}
      else h
  | None => h
  end.

(** *** [initialize] *)

(** The [catch] block of [initialize]. *)
Definition initialize_failed (msg : string) (prev : VoiceToTextState)
  : VoiceToTextState :=
  {| isRecording := isRecording prev; isProcessing := false;
     transcript := transcript prev; interimTranscript := interimTranscript prev;
     error := Some msg; isReady := false |}.

Definition begin_processing (prev : VoiceToTextState) : VoiceToTextState :=
  {| isRecording := isRecording prev; isProcessing := true;
     transcript := transcript prev; interimTranscript := interimTranscript prev;
     error := None; isReady := isReady prev |}.

Definition initialize_done (prev : VoiceToTextState) : VoiceToTextState :=
  {| isRecording := isRecording prev; isProcessing := false;
     transcript := transcript prev; interimTranscript := interimTranscript prev;
     error := error prev; isReady := true |}.

(** [initialize].  [granted] answers the microphone request, [probe] and
    [nativeProbe] are the results of the two probes of [validateApiKey]
    (each is consulted only if the code reaches it). *)
Definition initialize (h : Hook) (deepgramApiKey : string) (granted : bool)
  (probe nativeProbe : ProbeResult) : Hook :=
  let h := setState begin_processing h in
  (* Initialize audio capture service *)
  let audio_step : completion AudioCapture.AudioCaptureService
                   * option AudioCapture.AudioCaptureService :=
    match audioServiceRef h with
    | Some a => (Returns a, Some a)
    | None =>
        match AudioCapture.requestMicrophoneAccess
                AudioCapture.new_AudioCaptureService granted with
        | Returns a => (Returns a, Some a)
        | Throws msg => (Throws msg, Some AudioCapture.new_AudioCaptureService)
        end
    end in
  match audio_step with
  | (Throws msg, ref) =>
      {| state := initialize_failed msg (state h);
         audioServiceRef := ref;
         transcriptionServiceRef := transcriptionServiceRef h |}
  | (Returns _, ref) =>
      (* Initialize transcription service *)
      match transcriptionServiceRef h with
      | Some s =>
          {| state := initialize_done (state h);
             audioServiceRef := ref; transcriptionServiceRef := Some s |}
      | None =>
          match constructor deepgramApiKey with
          | Throws msg =>
              {| state := initialize_failed msg (state h);
                 audioServiceRef := ref; transcriptionServiceRef := None |}
          | Returns s =>
              let s := onError (onTranscript s) in
              match validateApiKey probe nativeProbe with
              | Throws msg =>
                  {| state := initialize_failed msg (state h);
                     audioServiceRef := ref; transcriptionServiceRef := Some s |}
              | Returns _ =>
                  {| state := initialize_done (state h);
                     audioServiceRef := ref; transcriptionServiceRef := Some s |}
              end
          end
      end
  end.

(** *** [startRecording] *)

(** The first update of [startRecording]: it empties the transcript. *)
Definition recording_requested (prev : VoiceToTextState) : VoiceToTextState :=
  {| isRecording := isRecording prev; isProcessing := true;
     transcript := ""; interimTranscript := "";
     error := None; isReady := isReady prev |}.

Definition recording_started (prev : VoiceToTextState) : VoiceToTextState :=
  {| isRecording := true; isProcessing := false;
     transcript := transcript prev; interimTranscript := interimTranscript prev;
     error := error prev; isReady := isReady prev |}.

(** The update of the [catch] blocks of [startRecording] and
    [stopRecording]. *)
Definition recording_failed (msg : string) (prev : VoiceToTextState)
  : VoiceToTextState :=
  {| isRecording := false; isProcessing := false;
     transcript := transcript prev; interimTranscript := interimTranscript prev;
     error := Some msg; isReady := isReady prev |}.

Definition set_error (msg : option string) (prev : VoiceToTextState)
  : VoiceToTextState :=
  {| isRecording := isRecording prev; isProcessing := isProcessing prev;
     transcript := transcript prev; interimTranscript := interimTranscript prev;
     error := msg; isReady := isReady prev |}.

(** [startRecording].  [live] and [evs] are the environment of the call
    of [connect]: what [listen.live] does, and the deliveries made while
    [connect] is suspended (what comes after it has settled is not part
    of the call).  The result is the hook after the call and the effects
    of the service during it. *)
Definition startRecording (h : Hook) (live : live_oracle) (evs : list event)
  : Hook * list effect :=
  match audioServiceRef h, transcriptionServiceRef h with
  | Some a, Some s =>
      let h := setState recording_requested h in
      (* Connect to Deepgram *)
      let c := connect_call live s evs in
      let st := reduce_all (effects c) (state h) in
      match at_phase c with
      | Resolved =>
          (* Start recording with callback to send audio to Deepgram *)
          match AudioCapture.startRecording a with
          | Returns a' =>
              ({| state := recording_started st;
                  audioServiceRef := Some a';
                  transcriptionServiceRef := Some (service c) |},
               effects c)
          | Throws msg =>
              ({| state := recording_failed msg st;
                  audioServiceRef := Some a;
                  transcriptionServiceRef := Some (service c) |},
               effects c)
          end
      | Rejected msg =>
          ({| state := recording_failed msg st;
              audioServiceRef := Some a;
              transcriptionServiceRef := Some (service c) |},
           effects c)
      | Awaiting _ | Pausing =>
          (* not reached: connect_call has settled *)
          ({| state := st; audioServiceRef := Some a;
              transcriptionServiceRef := Some (service c) |},
           effects c)
      end
  | _, _ =>
      (setState (set_error (Some "Services not initialized")) h, [])
  end.

(** The callback [startRecording] hands to the capture source: a frame
    is sent, a failure to send is logged and dropped. *)
Definition audio_chunk (h : Hook) (audioChunk : list JSNumber.number)
  (send_throws : bool) : list effect :=
  match transcriptionServiceRef h with
  | Some s =>
      match sendAudio s (Float32Array audioChunk) send_throws with
      | (Returns _, es) => es
      | (Throws _, es) => (es ++ [ConsoleError "Failed to send audio:"])%list
      end
  | None => []
  end.

(** *** [stopRecording], [clearTranscript] and the diagnostics *)

Definition recording_stopped (prev : VoiceToTextState) : VoiceToTextState :=
  {| isRecording := false; isProcessing := false;
     transcript := transcript prev; interimTranscript := "";
     error := error prev; isReady := isReady prev |}.

Definition set_processing (b : bool) (prev : VoiceToTextState) : VoiceToTextState :=
  {| isRecording := isRecording prev; isProcessing := b;
     transcript := transcript prev; interimTranscript := interimTranscript prev;
     error := error prev; isReady := isReady prev |}.

Fixpoint endpoint_events (h : Hook) (evs : list (nat * LiveTranscriptionEvents))
  : Hook :=
  match evs with
  | [] => h
  | (c, ev) :: evs' => endpoint_events (endpoint_event h c ev) evs'
  end.

(** [stopRecording].  [trailing] are the endpoint events delivered during
    the wait of [finish] (which itself never throws); [disconnect_throws]
    is the message of what [connection.finish()] throws inside
    [disconnect], if it throws. *)
Definition stopRecording (h : Hook)
  (trailing : list (nat * LiveTranscriptionEvents))
  (disconnect_throws : option string) : Hook :=
  match audioServiceRef h, transcriptionServiceRef h with
  | Some a, Some _ =>
      let h := setState (set_processing true) h in
      let a := AudioCapture.stopRecording a in
      let h := {| state := state h; audioServiceRef := Some a;
                  transcriptionServiceRef := transcriptionServiceRef h |} in
      let h := endpoint_events h trailing in
      match transcriptionServiceRef h, disconnect_throws with
      | Some s, Some msg =>
          if match connection s with Some _ => true | None => false end
          then setState (recording_failed msg) h
          else {| state := recording_stopped (state h);
                  audioServiceRef := audioServiceRef h;
                  transcriptionServiceRef := Some (fst (disconnect s)) |}
      | Some s, None =>
          {| state := recording_stopped (state h);
             audioServiceRef := audioServiceRef h;
             transcriptionServiceRef := Some (fst (disconnect s)) |}
      | None, _ => h
      end
  | _, _ => h
  end.

Definition cleared (prev : VoiceToTextState) : VoiceToTextState :=
  {| isRecording := isRecording prev; isProcessing := isProcessing prev;
     transcript := ""; interimTranscript := "";
     error := None; isReady := isReady prev |}.

Definition clearTranscript (h : Hook) : Hook := setState cleared h.

(** The hook's [validateApiKey]: its effect on the hook. *)
Definition validateApiKey_hook (h : Hook) (probe nativeProbe : ProbeResult) : Hook :=
  match transcriptionServiceRef h with
  | None => setState (set_error (Some "Services not initialized")) h
  | Some _ =>
      let h := setState begin_processing h in
      match validateApiKey probe nativeProbe with
      | Returns _ => setState (set_processing false) h
      | Throws msg => setState (fun prev => set_error (Some msg) (set_processing false prev)) h
      end
  end.

(** [runDiagnostics]: its effect on the hook. *)
Definition runDiagnostics (h : Hook) : Hook :=
  match transcriptionServiceRef h with
  | None => setState (set_error (Some "Services not initialized")) h
  | Some _ => setState (set_processing false) (setState begin_processing h)
  end.

(** [copyToClipboard]; [write_fails] tells whether the clipboard refuses. *)
Definition copyToClipboard (h : Hook) (write_fails : bool) : Hook :=
  if negb (truthy (transcript (state h))) then h
  else if write_fails
       then setState (set_error (Some "Failed to copy to clipboard")) h
       else h.

(** *** The hook in use *)

(** What can happen to a mounted hook. *)
Inductive action : Type :=
  | Initialize (deepgramApiKey : string) (granted : bool)
      (probe nativeProbe : ProbeResult)
  | ValidateApiKey (probe nativeProbe : ProbeResult)
  | RunDiagnostics
  | StartRecording (live : live_oracle) (evs : list event)
  | StopRecording
      (trailing : list (nat * LiveTranscriptionEvents))
      (disconnect_throws : option string)
  | ClearTranscript
  | CopyToClipboard (write_fails : bool)
  | EndpointEvent (c : nat) (ev : LiveTranscriptionEvents).

Definition act (h : Hook) (a : action) : Hook :=
  match a with
  | Initialize k granted probe nativeProbe => initialize h k granted probe nativeProbe
  | ValidateApiKey probe nativeProbe => validateApiKey_hook h probe nativeProbe
  | RunDiagnostics => runDiagnostics h
  | StartRecording live evs => fst (startRecording h live evs)
  | StopRecording trailing d => stopRecording h trailing d
  | ClearTranscript => clearTranscript h
  | CopyToClipboard write_fails => copyToClipboard h write_fails
  | EndpointEvent c ev => endpoint_event h c ev
  end.

(** The hook after a history of actions, from the first render. *)
Definition after (history : list action) : Hook := fold_left act history initial.

(** The texts of the final results among some endpoint events: those
    the [Transcript] listener passes on ([is_final] set, a text that is
    not empty), in order. *)
Fixpoint final_texts (evs : list (nat * LiveTranscriptionEvents)) : list string :=
  match evs with
  | [] => []
  | (_, Transcript data) :: evs' =>
      match alt_transcript data with
      | Some text =>
          if truthy text && is_final data
          then text :: final_texts evs'
          else final_texts evs'
      | None => final_texts evs'
      end
  | _ :: evs' => final_texts evs'
  end.

(** What the hook appends to [transcript] for these texts. *)
Fixpoint appended (texts : list string) : string :=
  match texts with
  | [] => ""
  | text :: texts' => " " ++ text ++ appended texts'
  end.

End UseVoiceToText.

(** ** Concrete sessions used to exercise the statements below *)

Module Scenarios.
Import Transcription UseVoiceToText.

Local Open Scope list_scope.

(** The string with these UTF-8 bytes. *)
Definition utf8 (bytes : list nat) : string :=
  string_of_list_ascii (map ascii_of_nat bytes).

(** The characters of the class [\s], each by its UTF-8 bytes: U+0009 to
    U+000D, U+0020, U+00A0, U+1680, U+2000 to U+200A, U+2028, U+2029,
    U+202F, U+205F, U+3000, U+FEFF. *)
Definition white_space : list string :=
  map utf8
    [[9]; [10]; [11]; [12]; [13]; [32]; [194; 160]; [225; 154; 128];
     [226; 128; 128]; [226; 128; 129]; [226; 128; 130]; [226; 128; 131];
     [226; 128; 132]; [226; 128; 133]; [226; 128; 134]; [226; 128; 135];
     [226; 128; 136]; [226; 128; 137]; [226; 128; 138];
     [226; 128; 168]; [226; 128; 169]; [226; 128; 175];
     [226; 129; 159]; [227; 128; 128]; [239; 187; 191]]%nat.

(** A service that was constructed and given its callbacks, as
    [initialize] leaves it. *)
Definition registered_service : TranscriptionService :=
  {| connection := None; isConnected := false;
     onTranscriptCallback := true; onErrorCallback := true; created := 0 |}.

(** [listen.live] never throws. *)
Definition live_returns : live_oracle := fun _ => None.

(** A call whose first connection fails with an abnormal close and whose
    second connection is acknowledged. *)
Definition retried_call : list event :=
  [Endpoint 0 (Error (new_Error "socket closed (1006)"));
   Endpoint 0 (Close (Some 1006) None);
   PauseElapsed;
   Endpoint 1 Open].

Definition interim (text : string) : TranscriptionResult :=
  {| Transcription.transcript := text; isFinal := false; confidence := 0 |}.

Definition final (text : string) : TranscriptionResult :=
  {| Transcription.transcript := text; isFinal := true; confidence := 0 |}.

(** A probe that succeeded, and a probe that saw an abnormal close. *)
Definition probe_ok : ProbeResult :=
  {| success := true; probe_message := "WebSocket opened successfully";
     probe_code := None; probe_reason := None |}.

Definition probe_closed : ProbeResult :=
  {| success := false; probe_message := "Closed (code 1006)";
     probe_code := Some 1006%Z; probe_reason := None |}.

(** The hook after an [initialize] whose two probes failed: both
    services exist, [isReady] is false. *)
Definition not_ready : Hook :=
  initialize initial "key" true probe_closed probe_closed.

(** A recording during which the interim text "he" has arrived. *)
Definition hearing : list action :=
  [Initialize "key" true probe_ok probe_ok;
   StartRecording live_returns [Endpoint 0 Open];
   EndpointEvent 0
     (Transcript {| alt_transcript := Some "he"; is_final := false;
                    alt_confidence := None |})].

(** A final result without text, as the endpoint sends for silence. *)
Definition empty_final : LiveTranscriptionEvents :=
  Transcript {| alt_transcript := Some ""; is_final := true;
                alt_confidence := None |}.

(** Two connections in a row that fail with an abnormal close. *)
Definition twice_abnormal : list event :=
  [Endpoint 0 (Error (new_Error "socket closed (1006)")); PauseElapsed;
   Endpoint 1 (Error (new_Error "socket closed (1006)")); PauseElapsed].

(** [listen.live] throws a network error at every call. *)
Definition live_throws : live_oracle :=
  fun _ => Some (new_Error "Network error").

(** A call of [connect] that the endpoint acknowledges at once. *)
Definition opened : connecting :=
  connect_call live_returns registered_service [Endpoint 0 Open].


(** Two recordings in a row, a final result in each. *)
Definition two_recordings : list action :=
  [Initialize "key" true probe_ok probe_ok;
   StartRecording live_returns [Endpoint 0 Open];
   EndpointEvent 0
     (Transcript {| alt_transcript := Some "one"; is_final := true;
                    alt_confidence := None |});
   StopRecording [] None;
   StartRecording live_returns [Endpoint 1 Open];
   EndpointEvent 1
     (Transcript {| alt_transcript := Some "two"; is_final := true;
                    alt_confidence := None |})].

End Scenarios.

(** ** Predicates used by the proofs *)

Module Invariants.
Import JSString Transcription UseVoiceToText.

Local Open Scope nat_scope.
Local Open Scope list_scope.

(** The deliveries that are timers. *)
Definition is_timer (ev : event) : Prop :=
  match ev with
  | Endpoint _ _ => False
  | ConnectionTimeout _ | PauseElapsed => True
  end.

(** The call has returned or thrown. *)
Definition settled (st : connecting) : Prop :=
  at_phase st = Resolved \/ exists msg, at_phase st = Rejected msg.

(** How many timers a suspended call can still need. *)
Definition timers_left (st : connecting) : nat :=
  match at_phase st with
  | Awaiting _ => 1
  | Pausing => 2 * (maxAttempts - attempts st) + 1
  | Resolved | Rejected _ => 0
  end.

(** The calls of [listen.live] so far, against the counter [attempts]. *)
Definition attempts_inv (st : connecting) : Prop :=
  match at_phase st with
  | Awaiting _ =>
      connection_attempts (effects st) = S (attempts st)
      /\ attempts st < maxAttempts
  | Pausing | Rejected _ =>
      connection_attempts (effects st) = attempts st
      /\ 1 <= attempts st <= maxAttempts
  | Resolved => connection_attempts (effects st) <= maxAttempts
  end.

(** What a call that threw has thrown and told. *)
Definition thrown_inv (s0 : TranscriptionService) (st : connecting) : Prop :=
  onErrorCallback (service st) = onErrorCallback s0
  /\ (1 <= attempts st -> lastError st <> None)
  /\ forall msg, at_phase st = Rejected msg ->
       exists error,
         lastError st = Some error
         /\ msg = ("Failed to connect to transcription service: "
                   ++ or_else (message error) (as_string error))%string
         /\ (onErrorCallback s0 = true ->
             In (ErrorCallback
                   (or_else (message error) "Failed to connect to Deepgram"))
                (effects st)).

(** The invariant of a call of [connect] on the service [s0]. *)
Definition call_inv (s0 : TranscriptionService) (st : connecting) : Prop :=
  attempts_inv st /\ thrown_inv s0 st.

(** While [connect] waits for a connection, that connection is the last
    one made. *)
Definition awaiting_inv (st : connecting) : Prop :=
  forall c, at_phase st = Awaiting c -> created (service st) = S c.

(** The wording by which the service marks a failure as a network
    failure: the [Error] listener, [validateApiKey] and the [Close]
    listener all name "network/firewall" in such a message. *)
Definition names_network_failure (msg : string) : bool :=
  includes "network/firewall" msg.

(** The transcription service is made after the capture service; text
    can only arrive through the transcription service; [isReady] is set
    only once both services exist. *)
Definition hook_inv (h : Hook) : Prop :=
  (audioServiceRef h = None -> transcriptionServiceRef h = None)
  /\ (transcriptionServiceRef h = None ->
      transcript (state h) = "" /\ interimTranscript (state h) = "")
  /\ (isReady (state h) = true ->
      audioServiceRef h <> None /\ transcriptionServiceRef h <> None).

(** While [connect] waits for a connection, that connection is the one
    the service holds, and [listen.live] returned it during this call. *)
Definition held_inv (st : connecting) : Prop :=
  forall c, at_phase st = Awaiting c ->
            connection (service st) = Some c
            /\ In (ListenLive (Some c)) (effects st).

(** The deliveries that settle no promise and fire no timer: transcript,
    metadata and close events. *)
Definition quiet (ev : event) : Prop :=
  match ev with
  | Endpoint _ (Transcript _) | Endpoint _ Metadata | Endpoint _ (Close _ _) => True
  | _ => False
  end.

(** What a call of [connect] may emit: no audio, no finish signal, and
    no empty message to the error callback. *)
Definition connect_emits (e : effect) : Prop :=
  match e with
  | Send _ _ | Finish _ => False
  | ErrorCallback msg => truthy msg = true
  | _ => True
  end.

(** *** What the deliveries of a call of [connect] say about its attempts *)

(** How the wait for a connection ends. *)
Inductive wait_end : Type :=
  | Acknowledged
  | Failed (error : js_error).

(** What the deliveries [evs] do to the promise that waits for connection
    [c]: the first [Open] event of [c] resolves it, the first [Error]
    event of [c] rejects it with the error, the 10 s timer of [c] rejects
    it with "Connection timeout"; whichever is delivered first decides.
    When none of them is delivered the timer fires in the end.  With
    the outcome, the deliveries after the one that decided. *)
Fixpoint awaited (c : nat) (evs : list event) : wait_end * list event :=
  match evs with
  | [] => (Failed (new_Error "Connection timeout"), [])
  | Endpoint c' Open :: rest =>
      if c' =? c then (Acknowledged, rest) else awaited c rest
  | Endpoint c' (Error error) :: rest =>
      if c' =? c then (Failed error, rest) else awaited c rest
  | ConnectionTimeout c' :: rest =>
      if c' =? c then (Failed (new_Error "Connection timeout"), rest)
      else awaited c rest
  | _ :: rest => awaited c rest
  end.

(** The deliveries after the 500 ms timer of the [catch] block. *)
Fixpoint paused (evs : list event) : list event :=
  match evs with
  | [] => []
  | PauseElapsed :: rest => rest
  | _ :: rest => paused rest
  end.

(** One attempt: the call of [listen.live] made with [attempts = k],
    which throws or returns the connection [c], and then the wait. *)
Definition attempt (live : live_oracle) (k c : nat) (evs : list event)
  : wait_end * list event :=
  match live k with
  | Some error => (Failed error, evs)
  | None => awaited c evs
  end.

(** The connection a second call of [listen.live] returns: the first
    call made one unless it threw. *)
Definition second_connection (live : live_oracle) (s : TranscriptionService)
  : nat :=
  match live 0 with
  | Some _ => created s
  | None => S (created s)
  end.

(** The calls of [listen.live] and the 500 ms timers among some effects,
    in their order. *)
Inductive retry_mark : Type :=
  | Attempt
  | Pause.

Fixpoint retry_trace (es : list effect) : list retry_mark :=
  match es with
  | [] => []
  | ListenLive _ :: es' => Attempt :: retry_trace es'
  | SetTimeout ms :: es' =>
      if (ms =? 500)%Z then Pause :: retry_trace es' else retry_trace es'
  | _ :: es' => retry_trace es'
  end.

(** The call [call] of [connect] on the service [s0] has surfaced the
    failure [error]: it threw the descriptive message, which contains
    the message of [error], and the last thing it did before was to call
    the error callback, if one is registered, with that message. *)
Definition surfaced (s0 : TranscriptionService) (error : js_error)
  (call : connecting) : Prop :=
  at_phase call
  = Rejected ("Failed to connect to transcription service: "
              ++ or_else (message error) (as_string error))%string
  /\ (forall m, message error = Some m ->
                includes m ("Failed to connect to transcription service: "
                            ++ or_else (message error) (as_string error))%string
                = true)
  /\ (onErrorCallback s0 = true ->
      exists es,
        effects call
        = es ++ [ErrorCallback
                   (or_else (message error) "Failed to connect to Deepgram")]).

(** A call resumed at [st]: the deliveries made while it is suspended,
    then its timers ([connect_call] is [resumed] at [connect]). *)
Definition resumed (live : live_oracle) (st : connecting) (evs : list event)
  : connecting :=
  settle live 5 (run_suspended live st evs).

(** [st'] is [st] after deliveries that reached listeners only. *)
Definition listened (st st' : connecting) : Prop :=
  attempts st' = attempts st
  /\ lastError st' = lastError st
  /\ at_phase st' = at_phase st
  /\ onErrorCallback (service st') = onErrorCallback (service st)
  /\ created (service st') = created (service st)
  /\ retry_trace (effects st') = retry_trace (effects st).

(** A capture service that is recording holds everything it records
    with. *)
Definition capture_inv (a : AudioCapture.AudioCaptureService) : Prop :=
  AudioCapture.isRecording a = true ->
  AudioCapture.mediaStream a = true
  /\ AudioCapture.audioContext a = true
  /\ AudioCapture.scriptProcessor a = true
  /\ AudioCapture.onDataAvailableCallback a = true.

(** Between two calls the hook is not processing, and it reports a
    recording only while the capture service records. *)
Definition idle_inv (h : Hook) : Prop :=
  isProcessing (state h) = false
  /\ (isRecording (state h) = true ->
      exists a, audioServiceRef h = Some a
                /\ AudioCapture.isRecording a = true).

(** The calls by which the platform grants the microphone. *)
Definition grants (call : AudioCapture.capture_call) : Prop :=
  match call with
  | AudioCapture.CallRequestAccess true => True
  | _ => False
  end.

(** The actions on a hook that deliver an [Open] event. *)
Definition delivers_open (a : action) : Prop :=
  match a with
  | StartRecording _ evs => exists c, In (Endpoint c Open) evs
  | StopRecording trailing _ => exists c, In (c, Open) trailing
  | EndpointEvent _ Open => True
  | _ => False
  end.

End Invariants.

(** * Properties *)

(** ** Strings *)

Module JSStringFacts.
Import JSString Scenarios.

Lemma prefix_refl (s : string) : String.prefix s s = true.
Proof.
  induction s as [|c s IH]; simpl; [reflexivity|].
  destruct (ascii_dec c c) as [_|ne]; [exact IH | now elim ne].
Qed.

Lemma prefix_app (s t : string) : String.prefix s (s ++ t) = true.
Proof.
  induction s as [|c s IH]; simpl.
  - now destruct t.
  - destruct (ascii_dec c c) as [_|ne]; [exact IH | now elim ne].
Qed.

Lemma includes_here (needle s : string) :
  String.prefix needle s = true -> includes needle s = true.
Proof. intros H. destruct s; simpl in *; rewrite H; reflexivity. Qed.

Lemma includes_app_l (needle a s : string) :
  includes needle s = true -> includes needle (a ++ s) = true.
Proof.
  intros H. induction a as [|c a IH]; simpl; [exact H|].
  rewrite IH. apply orb_true_r.
Qed.

(** A string occurs in every string built around it. *)
Lemma includes_middle (a s b : string) : includes s (a ++ s ++ b) = true.
Proof. apply includes_app_l, includes_here, prefix_app. Qed.

Lemma includes_suffix (a s : string) : includes s (a ++ s) = true.
Proof. apply includes_app_l, includes_here, prefix_refl. Qed.

Lemma includes_empty (s : string) : includes "" s = true.
Proof. destruct s; reflexivity. Qed.

(** The class [\s]: each of its characters is skipped, alone and in a
    run; a zero-width space (U+200B) and a next-line control (U+0085)
    are not part of it. *)
Example skip_spaces_class :
  forallb (fun w => String.eqb (skip_spaces (w ++ "401")) "401") white_space = true
  /\ skip_spaces (String.concat "" white_space ++ "401") = "401"
  /\ skip_spaces (utf8 [226; 128; 139]%nat ++ "401") = utf8 [226; 128; 139]%nat ++ "401"
  /\ skip_spaces (utf8 [194; 133]%nat ++ "401") = utf8 [194; 133]%nat ++ "401".
Proof. repeat split. Qed.

(** [/Status:\s*401/i] across a no-break space and an ideographic space. *)
Example test_ci_spaced_no_break_space :
  test_ci_spaced "Status:" "401" ("status:" ++ utf8 [194; 160]%nat ++ "401") = true
  /\ test_ci_spaced "Status:" "401"
       ("STATUS:" ++ utf8 [227; 128; 128]%nat ++ " " ++ utf8 [194; 160]%nat ++ "401") = true
  /\ test_ci_spaced "Status:" "401" "Status:401" = true
  /\ test_ci_spaced "Status:" "401" ("Status:" ++ utf8 [226; 128; 139]%nat ++ "401") = false.
Proof. repeat split. Qed.

End JSStringFacts.

(** ** The PCM encoder *)

Module EncoderFacts.
Import JSNumber Encoder.

Local Open Scope Q_scope.

Lemma two_pow_pos (e : Z) : 0 < 2 ^ e.
Proof. apply Qpower_0_lt. reflexivity. Qed.

Lemma value_align (m e e0 : Z) :
  (e0 <= e)%Z -> value m e == value (m * 2 ^ (e - e0))%Z e0.
Proof.
  intros H. unfold value.
  rewrite inject_Z_mult, Zpower_Qpower by lia.
  rewrite <- Qmult_assoc, <- Qpower_plus by discriminate.
  replace (e - e0 + e0)%Z with e by lia. reflexivity.
Qed.

Lemma value_lt_same (a b e : Z) : value a e < value b e <-> (a < b)%Z.
Proof.
  unfold value. rewrite Qmult_lt_r by apply two_pow_pos.
  rewrite Zlt_Qlt. reflexivity.
Qed.

(** [lt] on finite numbers is the order of their values. *)
Lemma lt_value (m1 e1 m2 e2 : Z) :
  lt (Finite m1 e1) (Finite m2 e2) = true <-> value m1 e1 < value m2 e2.
Proof.
  unfold lt, align.
  rewrite (value_align m1 e1 (Z.min e1 e2)), (value_align m2 e2 (Z.min e1 e2)) by lia.
  rewrite value_lt_same. apply Z.ltb_lt.
Qed.

Lemma lt_value_false (m1 e1 m2 e2 : Z) :
  lt (Finite m1 e1) (Finite m2 e2) = false <-> value m2 e2 <= value m1 e1.
Proof.
  rewrite <- Bool.not_true_iff_false, lt_value. split.
  - apply Qnot_lt_le.
  - apply Qle_not_lt.
Qed.

Lemma value_of_Z (n : Z) : value n 0 == inject_Z n.
Proof. unfold value. simpl. apply Qmult_1_r. Qed.

Lemma value_mul (m e k : Z) : value (m * k) (e + 0) == value m e * inject_Z k.
Proof.
  unfold value. rewrite Z.add_0_r, inject_Z_mult. ring.
Qed.


Lemma truncate_spec_comp (f g : Q) : f == g -> truncate_spec f = truncate_spec g.
Proof.
  intros E. unfold truncate_spec.
  destruct (Qlt_le_dec f 0) as [Hf|Hf], (Qlt_le_dec g 0) as [Hg|Hg].
  - now rewrite E.
  - rewrite E in Hf. elim (Qlt_not_le _ _ Hf Hg).
  - rewrite E in Hf. elim (Qlt_not_le _ _ Hg Hf).
  - now rewrite E.
Qed.

Lemma truncate_spec_Z (n : Z) : truncate_spec (inject_Z n) = n.
Proof.
  unfold truncate_spec. destruct (Qlt_le_dec (inject_Z n) 0).
  - apply Qceiling_Z.
  - apply Qfloor_Z.
Qed.

Lemma truncate_spec_make (m : Z) (p : positive) :
  truncate_spec (m # p) = Z.quot m (Z.pos p).
Proof.
  unfold truncate_spec. destruct (Qlt_le_dec (m # p) 0) as [H|H].
  - assert (Hm : (m < 0)%Z) by (unfold Qlt in H; simpl in H; lia).
    unfold Qceiling, Qfloor. simpl.
    replace m with (- - m)%Z at 2 by lia.
    rewrite Z.quot_opp_l by lia.
    rewrite Z.quot_div_nonneg by lia. reflexivity.
  - assert (Hm : (0 <= m)%Z) by (unfold Qle in H; simpl in H; lia).
    unfold Qfloor. rewrite Z.quot_div_nonneg by lia. reflexivity.
Qed.

Lemma value_neg_exp (m e : Z) :
  (e < 0)%Z -> value m e == m # Z.to_pos (2 ^ (- e)).
Proof.
  intros H. unfold value.
  assert (Hp : (0 < 2 ^ (- e))%Z) by (apply Z.pow_pos_nonneg; lia).
  rewrite (Qmake_Qdiv m), Z2Pos.id by exact Hp.
  rewrite Zpower_Qpower by lia.
  replace e with (- - e)%Z at 1 by lia.
  rewrite Qpower_opp. reflexivity.
Qed.

(** Truncation of [m * 2^e] by integer arithmetic is truncation of its
    value toward zero. *)
Lemma truncate_value (m e : Z) : truncate m e = truncate_spec (value m e).
Proof.
  unfold truncate. destruct (Z.leb_spec 0 e) as [H|H].
  - rewrite (truncate_spec_comp (value m e) (inject_Z (m * 2 ^ e))).
    + now rewrite truncate_spec_Z.
    + unfold value. rewrite inject_Z_mult, Zpower_Qpower by lia. reflexivity.
  - rewrite (truncate_spec_comp _ _ (value_neg_exp m e H)).
    rewrite truncate_spec_make, Z2Pos.id; [reflexivity|].
    apply Z.pow_pos_nonneg; lia.
Qed.


Lemma truncate_spec_bounds (a b : Z) (f : Q) :
  inject_Z a <= f -> f <= inject_Z b -> (a <= truncate_spec f <= b)%Z.
Proof.
  intros Ha Hb. unfold truncate_spec. destruct (Qlt_le_dec f 0).
  - rewrite <- (Qceiling_Z a), <- (Qceiling_Z b).
    split; apply Qceiling_resp_le; assumption.
  - rewrite <- (Qfloor_Z a), <- (Qfloor_Z b).
    split; apply Qfloor_resp_le; assumption.
Qed.

Lemma clamp_spec_bounds (f : Q) : -1 <= clamp_spec f <= 1.
Proof.
  unfold clamp_spec.
  destruct (Qlt_le_dec f (-1)); [lra|]. destruct (Qlt_le_dec 1 f); lra.
Qed.

Lemma scale_spec_bounds (c : Q) :
  -1 <= c <= 1 -> inject_Z (-32768) <= scale_spec c <= inject_Z 32767.
Proof.
  intros [H1 H2]. unfold scale_spec, inject_Z.
  destruct (Qlt_le_dec c 0); lra.
Qed.

Lemma scale_spec_comp (f g : Q) : f == g -> scale_spec f == scale_spec g.
Proof.
  intros E. unfold scale_spec.
  destruct (Qlt_le_dec f 0), (Qlt_le_dec g 0); lra.
Qed.

Lemma clamp_spec_comp (f g : Q) : f == g -> clamp_spec f == clamp_spec g.
Proof.
  intros E. unfold clamp_spec.
  destruct (Qlt_le_dec f (-1)), (Qlt_le_dec g (-1)); try lra.
  destruct (Qlt_le_dec 1 f), (Qlt_le_dec 1 g); lra.
Qed.

(** The encoding the specification describes never leaves the signed
    16-bit range. *)
Lemma encode_spec_range (f : Q) : (-32768 <= encode_spec f <= 32767)%Z.
Proof.
  unfold encode_spec.
  destruct (scale_spec_bounds _ (clamp_spec_bounds f)).
  apply truncate_spec_bounds; assumption.
Qed.

(** The clamp of the loop body, on a finite sample. *)
Lemma clamp_value (m e : Z) :
  exists m' e',
    max (of_Z (-1)) (min (of_Z 1) (Finite m e)) = Finite m' e'
    /\ value m' e' == clamp_spec (value m e).
Proof.
  unfold clamp_spec, min, max, of_Z.
  destruct (lt (Finite m e) (Finite 1 0)) eqn:L1.
  - apply lt_value in L1. rewrite value_of_Z in L1.
    destruct (lt (Finite (-1) 0) (Finite m e)) eqn:L2.
    + apply lt_value in L2. rewrite value_of_Z in L2.
      exists m, e. split; [reflexivity|].
      destruct (Qlt_le_dec (value m e) (-1)); [unfold inject_Z in *; lra|].
      destruct (Qlt_le_dec 1 (value m e)); [unfold inject_Z in *; lra|reflexivity].
    + apply lt_value_false in L2. rewrite value_of_Z in L2.
      exists (-1)%Z, 0%Z. split; [reflexivity|]. rewrite value_of_Z.
      destruct (Qlt_le_dec (value m e) (-1)); [reflexivity|].
      destruct (Qlt_le_dec 1 (value m e)); unfold inject_Z in *; lra.
  - apply lt_value_false in L1. rewrite value_of_Z in L1.
    exists 1%Z, 0%Z. split; [reflexivity|]. rewrite value_of_Z.
    destruct (Qlt_le_dec (value m e) (-1)); [unfold inject_Z in *; lra|].
    destruct (Qlt_le_dec 1 (value m e)); unfold inject_Z in *; lra.
Qed.

(** The asymmetric scaling of the loop body, on a finite sample. *)
Lemma scale_value (m e : Z) :
  exists a b,
    (if lt (Finite m e) (of_Z 0)
     then mul (Finite m e) (of_Z 32768)
     else mul (Finite m e) (of_Z 32767)) = Finite a b
    /\ value a b == scale_spec (value m e).
Proof.
  unfold scale_spec, of_Z, mul.
  destruct (lt (Finite m e) (Finite 0 0)) eqn:L.
  - apply lt_value in L. rewrite value_of_Z in L.
    exists (m * 32768)%Z, (e + 0)%Z. split; [reflexivity|].
    rewrite value_mul.
    destruct (Qlt_le_dec (value m e) 0); [reflexivity|unfold inject_Z in *; lra].
  - apply lt_value_false in L. rewrite value_of_Z in L.
    exists (m * 32767)%Z, (e + 0)%Z. split; [reflexivity|].
    rewrite value_mul.
    destruct (Qlt_le_dec (value m e) 0); [unfold inject_Z in *; lra|reflexivity].
Qed.

(** A store into the [Int16Array] of a number whose integer part is a
    signed 16-bit integer keeps that integer: no wrap-around. *)
Lemma ToInt16_in_range (m e : Z) :
  (-32768 <= truncate m e <= 32767)%Z -> ToInt16 (Finite m e) = truncate m e.
Proof.
  intros H. unfold ToInt16. cbv zeta.
  destruct (Z.leb_spec 0 (truncate m e)) as [P|N].
  - rewrite Z.mod_small by lia.
    destruct (Z.geb_spec (truncate m e) 32768); lia.
  - replace (truncate m e mod 65536)%Z with (truncate m e + 65536)%Z.
    + destruct (Z.geb_spec (truncate m e + 65536) 32768); lia.
    + symmetry. rewrite <- (Z.mod_add _ 1 65536) by lia.
      rewrite Z.mul_1_l. apply Z.mod_small. lia.
Qed.

(** The loop body computes, on every finite sample, the encoding the
    specification describes. *)
Lemma sample16_finite (m e : Z) :
  sample16 (Finite m e) = encode_spec (value m e).
Proof.
  unfold sample16, encode_spec.
  destruct (clamp_value m e) as (m' & e' & -> & Hc).
  destruct (scale_value m' e') as (a & b & -> & Hs).
  assert (E : truncate a b = truncate_spec (scale_spec (clamp_spec (value m e)))).
  { rewrite truncate_value. apply truncate_spec_comp.
    rewrite Hs. apply scale_spec_comp, Hc. }
  rewrite ToInt16_in_range; [exact E|].
  rewrite E. apply (encode_spec_range (value m e)).
Qed.


(** The samples that are not finite: the infinities saturate, [NaN] is
    stored as [0]. *)
Lemma sample16_not_finite :
  sample16 (Infinity false) = 32767%Z
  /\ sample16 (Infinity true) = (-32768)%Z
  /\ sample16 NaN = 0%Z.
Proof. repeat split. Qed.

Lemma sample16_range (x : number) : (-32768 <= sample16 x <= 32767)%Z.
Proof.
  destruct x as [|[|]|m e].
  - cbv. split; discriminate.
  - cbv. split; discriminate.
  - cbv. split; discriminate.
  - rewrite sample16_finite. apply encode_spec_range.
Qed.

(** A float32 significand scaled by either factor stays below [2^53]:
    binary64 holds the product exactly. *)
Lemma scaled_significand_fits (m : Z) :
  (Z.abs m < 2 ^ 24 ->
   Z.abs (m * 32768) < 2 ^ 53 /\ Z.abs (m * 32767) < 2 ^ 53)%Z.
Proof. intros H. rewrite !Z.abs_mul. simpl Z.abs. lia. Qed.

Local Close Scope Q_scope.

Lemma bytes_of_int16_decode (v : Z) :
  -32768 <= v <= 32767 ->
  exists lo hi,
    bytes_of_int16 v = [lo; hi]
    /\ 0 <= lo < 256 /\ 0 <= hi < 256
    /\ int16_of_bytes lo hi = v.
Proof.
  intros H. unfold bytes_of_int16. cbv zeta.
  exists ((v mod 65536) mod 256), ((v mod 65536) / 256).
  assert (U : 0 <= v mod 65536 < 65536) by (apply Z.mod_pos_bound; lia).
  split; [reflexivity|]. split; [apply Z.mod_pos_bound; lia|].
  split; [split; [apply Z.div_pos; lia | apply Z.div_lt_upper_bound; lia]|].
  unfold int16_of_bytes.
  rewrite Z.add_comm, <- Z.div_mod by lia.
  destruct (Z.leb_spec 0 v) as [P|N].
  - rewrite Z.mod_small by lia. destruct (Z.geb_spec v 32768); lia.
  - replace (v mod 65536) with (v + 65536).
    + destruct (Z.geb_spec (v + 65536) 32768); lia.
    + symmetry. rewrite <- (Z.mod_add _ 1 65536) by lia.
      rewrite Z.mul_1_l. apply Z.mod_small. lia.
Qed.

Lemma float32ToLinear16_length (xs : list number) :
  List.length (float32ToLinear16 xs) = (2 * List.length xs)%nat.
Proof.
  unfold float32ToLinear16, int16Array.
  induction xs as [|x xs IH]; simpl; [reflexivity|]. rewrite IH. lia.
Qed.

(** Element [i] of the [Int16Array] occupies bytes [2i] and [2i+1] of the
    buffer. *)
Lemma float32ToLinear16_bytes (xs : list number) (i : nat) (x : number) :
  nth_error xs i = Some x ->
  exists lo hi,
    nth_error (float32ToLinear16 xs) (2 * i) = Some lo
    /\ nth_error (float32ToLinear16 xs) (2 * i + 1) = Some hi
    /\ bytes_of_int16 (sample16 x) = [lo; hi].
Proof.
  unfold float32ToLinear16, int16Array.
  revert i. induction xs as [|y xs IH]; intros [|i] H; simpl in H; try discriminate.
  - injection H as ->. simpl. eauto.
  - destruct (IH i H) as (lo & hi & H1 & H2 & H3).
    exists lo, hi. simpl map. simpl flat_map.
    replace (2 * S i)%nat with (S (S (2 * i))) by lia.
    simpl. replace (i + (i + 0))%nat with (2 * i)%nat by lia. auto.
Qed.

(** The exact embedding and the binary64 arithmetic of the processor
    store the same 16-bit value for each of the float32 test values, and
    for the negative zero. *)
Lemma binary64_agrees :
  map (fun x => Binary64.sample16_binary64 (Binary64.to_binary64 x))
    Binary64.float32_samples
  = map sample16 Binary64.float32_samples
  /\ Binary64.sample16_binary64 (-0)%float = sample16 (of_Z 0).
Proof. split; vm_compute; reflexivity. Qed.

Example float32ToLinear16_bytes_of_three :
  float32ToLinear16 [of_Z 1; of_Z (-1); Finite 1 (-1)]
  = [255; 127; 0; 128; 255; 63].
Proof. reflexivity. Qed.

(** C2.  [float32ToLinear16] is a function of its argument alone, defined
    on every sample array.  The buffer it returns has two bytes per
    sample.  For the sample at index [i]: the 16-bit value stored lies in
    [[-32768, 32767]]; when the sample is finite, that value is the
    sample clamped to [[-1, 1]], scaled by 32768 if negative and by
    32767 otherwise, and truncated toward zero; bytes [2i] and [2i+1] of
    the buffer are the low and the high byte of its two's-complement
    representation.  1.0 gives 32767, -1.0 gives -32768, 0 gives 0. *)
Theorem float32ToLinear16_encoding (float32Array : list number) :
  List.length (float32ToLinear16 float32Array)
  = (2 * List.length float32Array)%nat
  /\ (forall i x,
        nth_error float32Array i = Some x ->
        -32768 <= sample16 x <= 32767
        /\ (forall m e, x = Finite m e -> sample16 x = encode_spec (value m e))
        /\ exists lo hi,
             nth_error (float32ToLinear16 float32Array) (2 * i) = Some lo
             /\ nth_error (float32ToLinear16 float32Array) (2 * i + 1) = Some hi
             /\ 0 <= lo < 256 /\ 0 <= hi < 256
             /\ int16_of_bytes lo hi = sample16 x)
  /\ sample16 (of_Z 1) = 32767
  /\ sample16 (of_Z (-1)) = -32768
  /\ sample16 (of_Z 0) = 0.
Proof.
  split; [apply float32ToLinear16_length|].
  split; [|repeat split].
  intros i x H. split; [apply sample16_range|]. split.
  - intros m e ->. apply sample16_finite.
  - destruct (float32ToLinear16_bytes _ _ _ H) as (lo & hi & H1 & H2 & H3).
    destruct (bytes_of_int16_decode _ (sample16_range x))
      as (lo' & hi' & E & B1 & B2 & D).
    rewrite E in H3. injection H3 as <- <-.
    exists lo', hi'. auto.
Qed.

End EncoderFacts.

(** ** The call [connect] *)

Module ConnectFacts.
Import JSString Transcription Scenarios Invariants.

Local Open Scope nat_scope.
Local Open Scope list_scope.

(** *** What each part of [connect] leaves alone *)

Lemma surface_failure_service (st : connecting) : service (surface_failure st) = service st.
Proof. unfold surface_failure. destruct (onErrorCallback (service st)); reflexivity. Qed.

Lemma surface_failure_phase (st : connecting) :
  at_phase (surface_failure st)
  = Rejected ("Failed to connect to transcription service: "
              ++ or_else (lastError_message st) (lastError_string st))%string.
Proof. unfold surface_failure. destruct (onErrorCallback (service st)); reflexivity. Qed.

Lemma catch_service (error : js_error) (st : connecting) :
  service (catch error st) = service st.
Proof.
  unfold catch. destruct (retryable error); [reflexivity|].
  now rewrite surface_failure_service.
Qed.

Lemma catch_phase (error : js_error) (st : connecting) :
  at_phase (catch error st) = Pausing
  \/ exists msg, at_phase (catch error st) = Rejected msg.
Proof.
  unfold catch. destruct (retryable error); [now left|].
  right. rewrite surface_failure_phase. eauto.
Qed.

Lemma loop_isConnected (live : live_oracle) (st : connecting) :
  isConnected (service (loop live st)) = isConnected (service st).
Proof.
  unfold loop. destruct (attempts st <? maxAttempts)%nat.
  - destruct (live (attempts st)).
    + now rewrite catch_service.
    + reflexivity.
  - now rewrite surface_failure_service.
Qed.

Lemma loop_phase (live : live_oracle) (st : connecting) :
  at_phase (loop live st) <> Resolved.
Proof.
  unfold loop. destruct (attempts st <? maxAttempts)%nat.
  - destruct (live (attempts st)) as [e|].
    + destruct (catch_phase e (emit [ListenLive None] st)) as [->|[msg ->]];
        discriminate.
    + discriminate.
  - rewrite surface_failure_phase. discriminate.
Qed.

Lemma listeners_isConnected (s : TranscriptionService) (ev : LiveTranscriptionEvents) :
  isConnected (fst (listeners s ev)) = true -> isConnected s = true.
Proof. destruct ev; simpl; auto. discriminate. Qed.

Lemma handlers_isConnected (s : TranscriptionService) (ev : LiveTranscriptionEvents) :
  isConnected (fst (handlers s ev)) = true -> isConnected s = true \/ ev = Open.
Proof.
  unfold handlers.
  pose proof (listeners_isConnected s ev) as K.
  destruct (listeners s ev) as [s' es].
  destruct ev; simpl in *; auto.
Qed.

(** *** One delivery *)

(** A delivery sets [isConnected] only if it is an [Open] event. *)
Lemma step_isConnected (live : live_oracle) (st : connecting) (ev : event) :
  isConnected (service (step live st ev)) = true ->
  isConnected (service st) = true \/ exists c, ev = Endpoint c Open.
Proof.
  destruct ev as [c ev| c |]; simpl.
  - destruct (c <? created (service st))%nat; [|auto].
    destruct (handlers (service st) ev) as [s es] eqn:Hh.
    assert (Hs : isConnected s = true ->
                 isConnected (service st) = true \/ ev = Open).
    { intros H. apply handlers_isConnected. now rewrite Hh. }
    destruct (awaiting c st).
    + destruct ev; simpl; intros H;
        try rewrite catch_service in H; simpl in H;
        try (destruct (Hs H) as [K|K]; [auto | discriminate]); eauto.
    + simpl. intros H. destruct (Hs H) as [K|K]; [auto | subst ev; eauto].
  - destruct (awaiting c st); [|auto]. rewrite catch_service. auto.
  - destruct (at_phase st); auto. rewrite loop_isConnected. auto.
Qed.

(** A delivery makes [connect] return only if it is the [Open] event of
    the connection [connect] is waiting for. *)
Lemma step_resolved (live : live_oracle) (st : connecting) (ev : event) :
  at_phase (step live st ev) = Resolved ->
  at_phase st = Resolved
  \/ exists c, ev = Endpoint c Open /\ at_phase st = Awaiting c.
Proof.
  destruct ev as [c ev| c |]; simpl.
  - destruct (c <? created (service st))%nat; [|auto].
    destruct (handlers (service st) ev) as [s es].
    destruct (awaiting c st) eqn:A.
    + unfold awaiting in A. destruct (at_phase st) as [c'| | |] eqn:P;
        try discriminate.
      apply Nat.eqb_eq in A. subst c'.
      destruct ev; simpl; try (intros H; rewrite P in H; discriminate).
      * eauto.
      * intros H.
        destruct (catch_phase error (emit es (set_service s st))) as [E|[msg E]];
          rewrite E in H; discriminate.
    + simpl. auto.
  - destruct (awaiting c st); [|auto].
    intros H.
    destruct (catch_phase (new_Error "Connection timeout") st) as [E|[msg E]];
      rewrite E in H; discriminate.
  - destruct (at_phase st) eqn:P; intros H;
      try (rewrite P in H; discriminate); [|now left].
    elim (loop_phase live st H).
Qed.

(** *** Sequences of deliveries *)

Lemma run_app (live : live_oracle) (st : connecting) (evs1 evs2 : list event) :
  run live st (evs1 ++ evs2) = run live (run live st evs1) evs2.
Proof. apply fold_left_app. Qed.

Lemma run_isConnected (live : live_oracle) (evs : list event) (st : connecting) :
  isConnected (service (run live st evs)) = true ->
  isConnected (service st) = true \/ exists c, In (Endpoint c Open) evs.
Proof.
  revert st. induction evs as [|ev evs IH]; intros st H; simpl in *; [auto|].
  destruct (IH _ H) as [K|[c K]]; [|eauto].
  destruct (step_isConnected _ _ _ K) as [K'|[c ->]]; eauto.
Qed.

Lemma run_resolved (live : live_oracle) (evs : list event) (st : connecting) :
  at_phase (run live st evs) = Resolved ->
  at_phase st = Resolved
  \/ exists before c after,
       evs = before ++ Endpoint c Open :: after
       /\ at_phase (run live st before) = Awaiting c.
Proof.
  revert st. induction evs as [|ev evs IH]; intros st H; simpl in *; [auto|].
  destruct (IH _ H) as [K|(before & c & after & -> & K)].
  - destruct (step_resolved _ _ _ K) as [K'|(c & -> & K')]; [auto|].
    right. exists [], c, evs. auto.
  - right. exists (ev :: before), c, after. auto.
Qed.

Lemma connect_not_connected (live : live_oracle) (s : TranscriptionService) :
  isConnected s = false ->
  isConnected (service (connect live s)) = false
  /\ at_phase (connect live s) <> Resolved.
Proof.
  intros H. unfold connect. rewrite H. split.
  - now rewrite loop_isConnected.
  - apply loop_phase.
Qed.

(** *** The timers *)

(** Letting the timers fire is a sequence of deliveries of timers. *)
Lemma settle_run (live : live_oracle) (fuel : nat) (st : connecting) :
  exists timers, settle live fuel st = run live st timers
                 /\ Forall is_timer timers.
Proof.
  revert st. induction fuel as [|fuel IH]; intros st; simpl.
  - exists []. auto.
  - destruct (timer_due st) as [ev|] eqn:T; [|exists []; auto].
    destruct (IH (step live st ev)) as (timers & -> & F).
    exists (ev :: timers). split; [reflexivity|].
    constructor; [|exact F].
    unfold timer_due in T. destruct (at_phase st); inversion T; exact I.
Qed.

(** The deliveries made while the call is suspended are a prefix of the
    deliveries offered. *)
Lemma run_suspended_run (live : live_oracle) (evs : list event) (st : connecting) :
  exists before after,
    evs = before ++ after /\ run_suspended live st evs = run live st before.
Proof.
  revert st. induction evs as [|ev evs IH]; intros st; simpl.
  - exists [], []. auto.
  - destruct (timer_due st).
    + destruct (IH (step live st ev)) as (before & after & -> & E).
      exists (ev :: before), after. auto.
    + exists [], (ev :: evs). auto.
Qed.

Lemma timeout_not_retryable : retryable (new_Error "Connection timeout") = false.
Proof. reflexivity. Qed.

Lemma catch_timers_left (error : js_error) (st : connecting) :
  timers_left (catch error st) <= 2 * (maxAttempts - S (attempts st)) + 1.
Proof.
  unfold catch. destruct (retryable error).
  - unfold timers_left. simpl. lia.
  - unfold timers_left. rewrite surface_failure_phase. lia.
Qed.

Lemma timer_step_decreases (live : live_oracle) (st : connecting) (ev : event) :
  timer_due st = Some ev -> timers_left (step live st ev) < timers_left st.
Proof.
  unfold timer_due, timers_left at 2.
  destruct (at_phase st) as [c| | |] eqn:P; intros T; inversion T; subst ev;
    cbn [step].
  - unfold awaiting. rewrite P, Nat.eqb_refl.
    unfold catch. rewrite timeout_not_retryable.
    unfold timers_left. rewrite surface_failure_phase. lia.
  - rewrite P. unfold loop.
    destruct (Nat.ltb_spec (attempts st) maxAttempts) as [L|L].
    + destruct (live (attempts st)) as [e|].
      * pose proof (catch_timers_left e (emit [ListenLive None] st)) as K.
        change (attempts (emit [ListenLive None] st)) with (attempts st) in K.
        unfold maxAttempts in *. lia.
      * unfold timers_left. cbn [at_phase set_phase]. unfold maxAttempts in *. lia.
    + unfold timers_left. rewrite surface_failure_phase. lia.
Qed.

Lemma settle_settles (live : live_oracle) (fuel : nat) (st : connecting) :
  timers_left st <= fuel -> settled (settle live fuel st).
Proof.
  revert st. induction fuel as [|fuel IH]; intros st H.
  - simpl. unfold timers_left, settled in *.
    destruct (at_phase st); eauto; unfold maxAttempts in *; lia.
  - simpl. destruct (timer_due st) as [ev|] eqn:T.
    + apply IH. pose proof (timer_step_decreases live st ev T). lia.
    + unfold timer_due, settled in *. destruct (at_phase st); eauto; discriminate.
Qed.

(** Every call of [connect] returns or throws. *)
Lemma connect_settles (live : live_oracle) (s : TranscriptionService)
  (evs : list event) : settled (connect_call live s evs).
Proof.
  apply settle_settles. unfold timers_left.
  destruct (at_phase _); unfold maxAttempts; lia.
Qed.

(** *** The session opens only on acknowledgment *)

(** C3.  Take any service that is not connected, any behaviour of
    [listen.live] and any sequence of deliveries (endpoint events of any
    connection, in any order, and timers) made while [connect()] runs.
    (1) At every point of the sequence, if [isConnected] is true or
    [connect()] has returned, an [Open] event was delivered before that
    point.  (2) If [connect()] has returned, it returned at an [Open]
    event of the very connection it was waiting for.  (3) If no [Open]
    event is delivered at all, [connect()] ends by throwing and
    [isConnected] is false at the end: the failure never passes through
    the open state. *)
Theorem connect_opens_only_on_acknowledgment
  (live : live_oracle) (s : TranscriptionService) (evs : list event) :
  isConnected s = false ->
  (forall before after, evs = before ++ after ->
     isConnected (service (run live (connect live s) before)) = true
     \/ at_phase (run live (connect live s) before) = Resolved ->
     exists c, In (Endpoint c Open) before)
  /\ (at_phase (run live (connect live s) evs) = Resolved ->
      exists before c after,
        evs = before ++ Endpoint c Open :: after
        /\ at_phase (run live (connect live s) before) = Awaiting c)
  /\ ((forall c, ~ In (Endpoint c Open) evs) ->
      isConnected (service (connect_call live s evs)) = false
      /\ exists msg, at_phase (connect_call live s evs) = Rejected msg).
Proof.
  intros Hs. destruct (connect_not_connected live s Hs) as [C0 P0].
  assert (A : forall l,
             isConnected (service (run live (connect live s) l)) = true
             \/ at_phase (run live (connect live s) l) = Resolved ->
             exists c, In (Endpoint c Open) l).
  { intros l [H|H].
    - destruct (run_isConnected _ _ _ H) as [K|K]; [congruence|exact K].
    - destruct (run_resolved _ _ _ H) as [K|(b & c & a & -> & _)];
        [contradiction|].
      exists c. apply in_or_app. right. now left. }
  split; [|split].
  - intros before after _. apply A.
  - intros H. destruct (run_resolved _ _ _ H) as [K|K]; [contradiction|exact K].
  - intros NoOpen. unfold connect_call.
    destruct (run_suspended_run live evs (connect live s))
      as (delivered & rest & Eevs & Er).
    destruct (settle_run live 5 (run_suspended live (connect live s) evs))
      as (timers & E & F).
    assert (N : ~ exists c, In (Endpoint c Open) (delivered ++ timers)).
    { intros [c H]. apply in_app_or in H. destruct H as [H|H].
      - apply (NoOpen c). rewrite Eevs. apply in_or_app. now left.
      - rewrite Forall_forall in F. exact (F _ H). }
    pose proof (connect_settles live s evs) as S.
    unfold connect_call in S. rewrite E in *. rewrite Er in *.
    rewrite <- run_app in *.
    split.
    + destruct (isConnected
                  (service (run live (connect live s) (delivered ++ timers))))
        eqn:K; [|reflexivity].
      elim N. apply A. now left.
    + destruct S as [S|S]; [|exact S].
      elim N. apply A. now right.
Qed.

(** The theorem at a retried call: the first connection fails and
    closes, the second is acknowledged. *)
Lemma connect_opens_only_on_acknowledgment_witness :
  isConnected registered_service = false
  /\ exists before c after,
       retried_call = before ++ Endpoint c Open :: after
       /\ at_phase (run live_returns (connect live_returns registered_service) before)
          = Awaiting c.
Proof.
  split; [reflexivity|].
  exact (proj1 (proj2 (connect_opens_only_on_acknowledgment
                         live_returns registered_service retried_call eq_refl))
           eq_refl).
Defined.

End ConnectFacts.

(** ** The bounded retry of [connect] *)

Module RetryFacts.
Import JSString Transcription Scenarios ConnectFacts Invariants.

Local Open Scope nat_scope.
Local Open Scope list_scope.

Lemma connection_attempts_app (es1 es2 : list effect) :
  connection_attempts (es1 ++ es2)
  = connection_attempts es1 + connection_attempts es2.
Proof.
  induction es1 as [|e es1 IH]; simpl; [reflexivity|].
  destruct e; simpl; rewrite IH; reflexivity.
Qed.

Lemma listeners_facts (s : TranscriptionService) (ev : LiveTranscriptionEvents) :
  connection_attempts (snd (listeners s ev)) = 0
  /\ onErrorCallback (fst (listeners s ev)) = onErrorCallback s
  /\ created (fst (listeners s ev)) = created s.
Proof.
  destruct ev as [|data| |error|code reason]; simpl; auto.
  - unfold on_Transcript. destruct (alt_transcript data); auto.
    destruct (truthy s0 && onTranscriptCallback s); auto.
  - unfold on_Error. destruct (onErrorCallback s); auto.
  - destruct (truthy_code code); auto.
    destruct (negb (z =? 1000)%Z); auto. destruct (onErrorCallback s); auto.
Qed.

(** The listeners never call [listen.live] and never touch the callback
    slots. *)
Lemma handlers_facts (s : TranscriptionService) (ev : LiveTranscriptionEvents) :
  connection_attempts (snd (handlers s ev)) = 0
  /\ onErrorCallback (fst (handlers s ev)) = onErrorCallback s
  /\ created (fst (handlers s ev)) = created s.
Proof.
  unfold handlers. pose proof (listeners_facts s ev) as K.
  destruct (listeners s ev) as [s' es]. simpl in K.
  destruct K as (K1 & K2 & K3).
  destruct ev; simpl; auto.
  rewrite connection_attempts_app, K1. auto.
Qed.

(** The code after the loop, as one record. *)
Lemma surface_failure_eq (st : connecting) :
  surface_failure st
  = {| service := service st; attempts := attempts st;
       lastError := lastError st;
       at_phase :=
         Rejected ("Failed to connect to transcription service: "
                   ++ or_else (lastError_message st) (lastError_string st))%string;
       effects :=
         effects st
         ++ (if onErrorCallback (service st)
             then [ErrorCallback
                     (or_else (lastError_message st) "Failed to connect to Deepgram")]
             else []) |}.
Proof.
  unfold surface_failure. destruct (onErrorCallback (service st)); simpl.
  - reflexivity.
  - rewrite app_nil_r. destruct st; reflexivity.
Qed.

Lemma catch_retry (error : js_error) (st : connecting) :
  retryable error = true ->
  catch error st
  = {| service := service st; attempts := S (attempts st);
       lastError := Some error; at_phase := Pausing;
       effects := effects st
                  ++ [ConsoleWarn "Deepgram connection failed, retrying...";
                      SetTimeout 500] |}.
Proof. intros H. unfold catch. rewrite H. reflexivity. Qed.

Lemma catch_final (error : js_error) (st : connecting) :
  retryable error = false ->
  catch error st
  = {| service := service st; attempts := S (attempts st);
       lastError := Some error;
       at_phase :=
         Rejected ("Failed to connect to transcription service: "
                   ++ or_else (message error) (as_string error))%string;
       effects :=
         effects st
         ++ (if onErrorCallback (service st)
             then [ErrorCallback
                     (or_else (message error) "Failed to connect to Deepgram")]
             else []) |}.
Proof. intros H. unfold catch. rewrite H, surface_failure_eq. reflexivity. Qed.

(** *** The invariant of a call *)

Lemma catch_inv (s0 : TranscriptionService) (error : js_error) (st : connecting) :
  connection_attempts (effects st) = S (attempts st) ->
  attempts st < maxAttempts ->
  onErrorCallback (service st) = onErrorCallback s0 ->
  call_inv s0 (catch error st).
Proof.
  intros C A O. unfold call_inv, attempts_inv, thrown_inv.
  destruct (retryable error) eqn:R.
  - rewrite (catch_retry _ _ R). simpl.
    rewrite connection_attempts_app. simpl. unfold maxAttempts in *.
    repeat split; try lia; try assumption; try discriminate.
  - rewrite (catch_final _ _ R). simpl.
    rewrite connection_attempts_app.
    assert (Z0 : connection_attempts
                   (if onErrorCallback (service st)
                    then [ErrorCallback
                            (or_else (message error) "Failed to connect to Deepgram")]
                    else []) = 0)
      by (destruct (onErrorCallback (service st)); reflexivity).
    rewrite Z0. unfold maxAttempts in *.
    repeat split; try lia; try assumption; try discriminate.
    intros msg E. injection E as <-. exists error.
    repeat split. intros Hcb. rewrite O, Hcb.
    apply in_or_app. right. now left.
Qed.

Lemma loop_inv (s0 : TranscriptionService) (live : live_oracle) (st : connecting) :
  connection_attempts (effects st) = attempts st ->
  attempts st <= maxAttempts ->
  onErrorCallback (service st) = onErrorCallback s0 ->
  (1 <= attempts st -> lastError st <> None) ->
  call_inv s0 (loop live st).
Proof.
  intros C A O L. unfold loop.
  destruct (Nat.ltb_spec (attempts st) maxAttempts) as [Lt|Ge].
  - destruct (live (attempts st)) as [error|].
    + apply catch_inv; simpl; [|assumption|assumption].
      rewrite connection_attempts_app, C. simpl. lia.
    + unfold call_inv, attempts_inv, thrown_inv. simpl.
      rewrite connection_attempts_app, C. simpl.
      repeat split; try lia; try assumption; try discriminate.
  - rewrite surface_failure_eq. unfold call_inv, attempts_inv, thrown_inv. simpl.
    rewrite connection_attempts_app.
    assert (Z0 : connection_attempts
                   (if onErrorCallback (service st)
                    then [ErrorCallback
                            (or_else (lastError_message st) "Failed to connect to Deepgram")]
                    else []) = 0)
      by (destruct (onErrorCallback (service st)); reflexivity).
    rewrite Z0. unfold maxAttempts in *.
    repeat split; try lia; try assumption.
    intros msg E. injection E as <-.
    unfold lastError_message, lastError_string.
    destruct (lastError st) as [error|] eqn:LE.
    + exists error. repeat split. intros Hcb. rewrite O, Hcb.
      apply in_or_app. right. now left.
    + elim L; [lia|reflexivity].
Qed.

Lemma connect_inv (live : live_oracle) (s : TranscriptionService) :
  call_inv s (connect live s).
Proof.
  unfold connect. destruct (isConnected s).
  - unfold call_inv, attempts_inv, thrown_inv, maxAttempts. simpl.
    repeat split; try lia; try discriminate.
  - apply loop_inv; simpl; unfold maxAttempts; try lia; auto.
Qed.

Lemma emit_inv (s0 s' : TranscriptionService) (es : list effect)
  (st : connecting) :
  call_inv s0 st ->
  connection_attempts es = 0 ->
  onErrorCallback s' = onErrorCallback (service st) ->
  call_inv s0 (emit es (set_service s' st)).
Proof.
  intros [A (O & L & T)] Z0 O'. split; [|split; [|split]].
  - unfold attempts_inv in *. simpl.
    rewrite connection_attempts_app, Z0, Nat.add_0_r. exact A.
  - simpl. congruence.
  - exact L.
  - simpl. intros msg E. destruct (T msg E) as (error & E1 & E2 & E3).
    exists error. repeat split; auto.
    intros Hcb. apply in_or_app. left. auto.
Qed.

Lemma step_inv (s0 : TranscriptionService) (live : live_oracle)
  (st : connecting) (ev : event) :
  call_inv s0 st -> call_inv s0 (step live st ev).
Proof.
  intros I. destruct ev as [c ev|c|]; cbn [step].
  - destruct (c <? created (service st)); [|exact I].
    pose proof (handlers_facts (service st) ev) as (H1 & H2 & _).
    destruct (handlers (service st) ev) as [s es]. simpl in H1, H2.
    pose proof (emit_inv s0 s es st I H1 H2) as I1.
    destruct (awaiting c st) eqn:A; [|exact I1].
    unfold awaiting in A.
    destruct (at_phase st) as [c'| | |] eqn:P; try discriminate.
    destruct I1 as [A1 T1]. unfold attempts_inv in A1. simpl in A1.
    rewrite P in A1. destruct A1 as [A1 A2].
    destruct ev; try (split; [unfold attempts_inv; simpl; rewrite P; auto | exact T1]).
    + (* Open *)
      destruct T1 as (O & L & T). split; [|split; [|split]].
      * unfold attempts_inv. simpl. unfold maxAttempts in *. simpl in A1. lia.
      * exact O.
      * exact L.
      * simpl. discriminate.
    + (* Error *)
      apply catch_inv; [exact A1 | exact A2 | apply T1].
  - destruct (awaiting c st) eqn:A; [|exact I].
    unfold awaiting in A.
    destruct (at_phase st) as [c'| | |] eqn:P; try discriminate.
    destruct I as [A1 T1]. unfold attempts_inv in A1. rewrite P in A1.
    apply catch_inv; [apply A1 | apply A1 | apply T1].
  - destruct (at_phase st) eqn:P; try exact I.
    destruct I as [A1 (O & L & T)]. unfold attempts_inv in A1. rewrite P in A1.
    apply loop_inv; [apply A1 | apply A1 | exact O | exact L].
Qed.

Lemma run_inv (s0 : TranscriptionService) (live : live_oracle)
  (evs : list event) (st : connecting) :
  call_inv s0 st -> call_inv s0 (run live st evs).
Proof.
  revert st. induction evs as [|ev evs IH]; intros st I; simpl; [exact I|].
  apply IH, step_inv, I.
Qed.

Lemma settle_inv (s0 : TranscriptionService) (live : live_oracle)
  (fuel : nat) (st : connecting) :
  call_inv s0 st -> call_inv s0 (settle live fuel st).
Proof.
  intros I. destruct (settle_run live fuel st) as (timers & -> & _).
  apply run_inv, I.
Qed.

Lemma attempts_inv_bound (st : connecting) :
  attempts_inv st -> connection_attempts (effects st) <= 2.
Proof.
  unfold attempts_inv, maxAttempts. destruct (at_phase st); lia.
Qed.

Lemma catch_not_awaiting (error : js_error) (st : connecting) (c : nat) :
  at_phase (catch error st) <> Awaiting c.
Proof.
  destruct (catch_phase error st) as [E|[msg E]]; rewrite E; discriminate.
Qed.

Lemma step_awaiting_inv (live : live_oracle) (st : connecting) (ev : event) :
  awaiting_inv st -> awaiting_inv (step live st ev).
Proof.
  intros I. destruct ev as [c ev|c|]; cbn [step].
  - destruct (c <? created (service st)); [|exact I].
    pose proof (handlers_facts (service st) ev) as (_ & _ & H3).
    destruct (handlers (service st) ev) as [s es]. simpl in H3.
    assert (I1 : awaiting_inv (emit es (set_service s st))).
    { intros c' P. simpl in *. rewrite H3. auto. }
    destruct (awaiting c st); [|exact I1].
    destruct ev; try exact I1.
    + intros c' P. discriminate.
    + intros c' P. elim (catch_not_awaiting _ _ _ P).
  - destruct (awaiting c st); [|exact I].
    intros c' P. elim (catch_not_awaiting _ _ _ P).
  - destruct (at_phase st) eqn:P; try exact I.
    unfold loop. destruct (attempts st <? maxAttempts).
    + destruct (live (attempts st)).
      * intros c' P'. elim (catch_not_awaiting _ _ _ P').
      * intros c' P'. simpl in *. congruence.
    + intros c' P'. rewrite surface_failure_phase in P'. discriminate.
Qed.

Lemma connect_awaiting_inv (live : live_oracle) (s : TranscriptionService)
  (evs : list event) : awaiting_inv (run live (connect live s) evs).
Proof.
  assert (I0 : awaiting_inv (connect live s)).
  { unfold connect. destruct (isConnected s); [intros c P; discriminate|].
    unfold loop. simpl. destruct (live 0).
    - intros c P. elim (catch_not_awaiting _ _ _ P).
    - intros c P. simpl in *. congruence. }
  revert I0. generalize (connect live s).
  induction evs as [|ev evs IH]; intros st I; simpl; [exact I|].
  apply IH, step_awaiting_inv, I.
Qed.

Lemma loop_attempts (live : live_oracle) (st : connecting) :
  attempts st < maxAttempts ->
  connection_attempts (effects (loop live st))
  = S (connection_attempts (effects st)).
Proof.
  intros Lt. unfold loop.
  destruct (Nat.ltb_spec (attempts st) maxAttempts) as [_|Ge]; [|lia].
  destruct (live (attempts st)) as [error|].
  - destruct (retryable error) eqn:R.
    + rewrite (catch_retry _ _ R). simpl.
      rewrite !connection_attempts_app. simpl. lia.
    + rewrite (catch_final _ _ R). simpl.
      rewrite !connection_attempts_app. simpl.
      destruct (onErrorCallback (service st)); simpl; lia.
  - simpl. rewrite connection_attempts_app. simpl. lia.
Qed.

(** A call that has thrown stays as it is: later events reach the
    listeners, none of them calls [listen.live]. *)
Lemma rejected_stays (live : live_oracle) (evs : list event) (st : connecting)
  (msg : string) :
  at_phase st = Rejected msg ->
  at_phase (run live st evs) = Rejected msg
  /\ connection_attempts (effects (run live st evs))
     = connection_attempts (effects st).
Proof.
  revert st. induction evs as [|ev evs IH]; intros st P; simpl; [auto|].
  assert (K : at_phase (step live st ev) = Rejected msg
              /\ connection_attempts (effects (step live st ev))
                 = connection_attempts (effects st)).
  { destruct ev as [c ev|c|]; cbn [step]; unfold awaiting; rewrite P; auto.
    destruct (c <? created (service st)); [|auto].
    pose proof (handlers_facts (service st) ev) as (H1 & _).
    destruct (handlers (service st) ev) as [s es]. simpl in *.
    rewrite connection_attempts_app, H1. auto. }
  destruct K as [K1 K2]. destruct (IH _ K1) as [J1 J2].
  split; [exact J1 | congruence].
Qed.

(** Two abnormal closes in a row: two attempts, two pauses, then the
    failure is surfaced with the last message. *)
Example retried_once_then_thrown :
  let abnormal := new_Error "socket closed (1006)" in
  let st := run live_returns (connect live_returns registered_service)
              [Endpoint 0 (Error abnormal); PauseElapsed;
               Endpoint 1 (Error abnormal); PauseElapsed] in
  at_phase st
  = Rejected "Failed to connect to transcription service: socket closed (1006)"
  /\ connection_attempts (effects st) = 2
  /\ effects st
     = [ListenLive (Some 0); SetTimeout 10000;
        ConsoleError "Deepgram error:"; ErrorCallback "socket closed (1006)";
        ConsoleWarn "Deepgram connection failed, retrying..."; SetTimeout 500;
        ListenLive (Some 1); SetTimeout 10000;
        ConsoleError "Deepgram error:"; ErrorCallback "socket closed (1006)";
        ConsoleWarn "Deepgram connection failed, retrying..."; SetTimeout 500;
        ErrorCallback "socket closed (1006)"].
Proof. repeat split. Qed.

(** An authentication error: one attempt, no pause. *)
Example unauthorized_not_retried :
  let st := run live_returns (connect live_returns registered_service)
              [Endpoint 0 (Error (new_Error "Status: 401"))] in
  at_phase st = Rejected "Failed to connect to transcription service: Status: 401"
  /\ effects st
     = [ListenLive (Some 0); SetTimeout 10000;
        ConsoleError "Deepgram error:";
        ErrorCallback "Authentication failed — check your Deepgram API key";
        ErrorCallback "Status: 401"].
Proof. repeat split. Qed.

(** *** The attempts of a call, read off its deliveries *)

Lemma retry_trace_app (es1 es2 : list effect) :
  retry_trace (es1 ++ es2) = retry_trace es1 ++ retry_trace es2.
Proof.
  induction es1 as [|e es1 IH]; simpl; [reflexivity|].
  destruct e; simpl; try exact IH.
  - now rewrite IH.
  - destruct (ms =? 500)%Z; simpl; now rewrite IH.
Qed.

Lemma connection_attempts_trace (es : list effect) :
  connection_attempts es
  = List.length (filter (fun m => match m with Attempt => true | Pause => false end)
                   (retry_trace es)).
Proof.
  induction es as [|e es IH]; simpl; [reflexivity|].
  destruct e; simpl; try exact IH.
  - now rewrite IH.
  - destruct (ms =? 500)%Z; simpl; exact IH.
Qed.

Lemma handlers_trace (s : TranscriptionService) (ev : LiveTranscriptionEvents) :
  retry_trace (snd (handlers s ev)) = [].
Proof.
  destruct ev as [|data| |err|code reason]; unfold handlers; simpl; try reflexivity.
  - unfold on_Transcript. destruct (alt_transcript data) as [text|]; [|reflexivity].
    destruct (truthy text && onTranscriptCallback s); reflexivity.
  - unfold on_Error. destruct (onErrorCallback s); reflexivity.
  - destruct (truthy_code code) as [c|]; [|reflexivity].
    destruct (negb (c =? 1000)%Z); [|reflexivity].
    destruct (onErrorCallback s); reflexivity.
Qed.

Lemma listened_refl (st : connecting) : listened st st.
Proof. repeat split. Qed.

Lemma listened_trans (st1 st2 st3 : connecting) :
  listened st1 st2 -> listened st2 st3 -> listened st1 st3.
Proof.
  intros (A1 & A2 & A3 & A4 & A5 & A6) (B1 & B2 & B3 & B4 & B5 & B6).
  repeat split; congruence.
Qed.

Lemma listened_handlers (st : connecting) (ev : LiveTranscriptionEvents) :
  listened st (emit (snd (handlers (service st) ev))
                 (set_service (fst (handlers (service st) ev)) st)).
Proof.
  pose proof (handlers_facts (service st) ev) as (_ & H2 & H3).
  pose proof (handlers_trace (service st) ev) as H4.
  repeat split; simpl; auto.
  rewrite retry_trace_app, H4. apply app_nil_r.
Qed.

Lemma timers_left_bound (st : connecting) : timers_left st <= 5.
Proof. unfold timers_left, maxAttempts. destruct (at_phase st); lia. Qed.

Lemma settle_fuel (live : live_oracle) (n : nat) :
  forall (m : nat) (st : connecting),
    timers_left st <= n -> timers_left st <= m ->
    settle live n st = settle live m st.
Proof.
  induction n as [|n IH]; intros m st Hn Hm.
  - assert (T : timer_due st = None).
    { unfold timers_left, timer_due in *.
      destruct (at_phase st); try reflexivity; unfold maxAttempts in *; lia. }
    simpl. symmetry. destruct m; simpl; [reflexivity|now rewrite T].
  - destruct m as [|m].
    + assert (T : timer_due st = None).
      { unfold timers_left, timer_due in *.
        destruct (at_phase st); try reflexivity; unfold maxAttempts in *; lia. }
      simpl. now rewrite T.
    + simpl. destruct (timer_due st) as [ev|] eqn:T; [|reflexivity].
      pose proof (timer_step_decreases live st ev T).
      apply IH; lia.
Qed.

Lemma resumed_settled (live : live_oracle) (st : connecting) (evs : list event) :
  timer_due st = None -> resumed live st evs = st.
Proof.
  intros T. unfold resumed.
  replace (run_suspended live st evs) with st
    by (destruct evs; simpl; [reflexivity|now rewrite T]).
  simpl. now rewrite T.
Qed.

Lemma resumed_cons (live : live_oracle) (st : connecting) (ev : event)
  (evs : list event) (due : event) :
  timer_due st = Some due ->
  resumed live st (ev :: evs) = resumed live (step live st ev) evs.
Proof. intros T. unfold resumed. simpl. now rewrite T. Qed.

Lemma resumed_nil (live : live_oracle) (st : connecting) (due : event) :
  timer_due st = Some due ->
  resumed live st [] = resumed live (step live st due) [].
Proof.
  intros T. unfold resumed. simpl run_suspended.
  change (settle live 5 st)
    with (match timer_due st with
          | Some ev => settle live 4 (step live st ev)
          | None => st
          end).
  rewrite T. apply settle_fuel.
  - pose proof (timer_step_decreases live st due T).
    pose proof (timers_left_bound st). lia.
  - apply timers_left_bound.
Qed.

Lemma connect_call_resumed (live : live_oracle) (s : TranscriptionService)
  (evs : list event) :
  connect_call live s evs = resumed live (connect live s) evs.
Proof. reflexivity. Qed.

(** The wait for a connection, read off the deliveries. *)
Lemma awaited_resumed (live : live_oracle) (evs : list event) :
  forall (st : connecting) (c : nat),
    at_phase st = Awaiting c -> created (service st) = S c ->
    exists st1,
      listened st st1
      /\ resumed live st evs
         = match awaited c evs with
           | (Acknowledged, _) => set_phase Resolved st1
           | (Failed error, rest) => resumed live (catch error st1) rest
           end.
Proof.
  induction evs as [|ev evs IH]; intros st c P Cr.
  - exists st. split; [apply listened_refl|]. simpl awaited.
    rewrite (resumed_nil live st (ConnectionTimeout c))
      by (unfold timer_due; now rewrite P).
    cbn [step]. unfold awaiting. now rewrite P, Nat.eqb_refl.
  - rewrite (resumed_cons live st ev evs (ConnectionTimeout c))
      by (unfold timer_due; now rewrite P).
    assert (Skip : forall st', listened st st' ->
              exists st1,
                listened st st1
                /\ resumed live st' evs
                   = match awaited c evs with
                     | (Acknowledged, _) => set_phase Resolved st1
                     | (Failed error, rest) => resumed live (catch error st1) rest
                     end).
    { intros st' L. pose proof L as (_ & _ & L3 & _ & L5 & _).
      destruct (IH st' c) as (st1 & L1 & E); [congruence | congruence |].
      exists st1. split; [eapply listened_trans; eassumption | exact E]. }
    destruct ev as [c' lev|c'|]; cbn [step].
    + destruct (Nat.ltb_spec c' (created (service st))) as [Lt|Ge].
      * pose proof (listened_handlers st lev) as L.
        destruct (handlers (service st) lev) as [s1 es]. simpl in L.
        unfold awaiting. rewrite P.
        destruct (Nat.eqb_spec c' c) as [->|Ne].
        -- destruct lev as [|data| |err|code reason]; simpl awaited;
             rewrite ?Nat.eqb_refl; try (apply Skip; exact L).
           ++ exists (emit es (set_service s1 st)). split; [exact L|].
              apply resumed_settled. reflexivity.
           ++ exists (emit es (set_service s1 st)). split; [exact L|reflexivity].
        -- assert (N : (c' =? c) = false) by now apply Nat.eqb_neq.
           destruct lev as [|data| |err|code reason]; simpl awaited;
             rewrite ?N; apply Skip; exact L.
      * assert (N : (c' =? c) = false) by (apply Nat.eqb_neq; lia).
        destruct lev as [|data| |err|code reason]; simpl awaited;
          rewrite ?N; apply Skip, listened_refl.
    + unfold awaiting. rewrite P. simpl awaited.
      destruct (Nat.eqb_spec c' c) as [->|Ne].
      * exists st. split; [apply listened_refl|reflexivity].
      * apply Skip, listened_refl.
    + rewrite P. simpl awaited. apply Skip, listened_refl.
Qed.

(** The 500 ms pause, read off the deliveries. *)
Lemma paused_resumed (live : live_oracle) (evs : list event) :
  forall st : connecting,
    at_phase st = Pausing ->
    exists st1,
      listened st st1
      /\ resumed live st evs = resumed live (loop live st1) (paused evs).
Proof.
  induction evs as [|ev evs IH]; intros st P.
  - exists st. split; [apply listened_refl|]. simpl paused.
    rewrite (resumed_nil live st PauseElapsed)
      by (unfold timer_due; now rewrite P).
    cbn [step]. now rewrite P.
  - rewrite (resumed_cons live st ev evs PauseElapsed)
      by (unfold timer_due; now rewrite P).
    assert (Skip : forall st', listened st st' ->
              exists st1,
                listened st st1
                /\ resumed live st' evs
                   = resumed live (loop live st1) (paused evs)).
    { intros st' L. pose proof L as (_ & _ & L3 & _).
      destruct (IH st') as (st1 & L1 & E); [congruence|].
      exists st1. split; [eapply listened_trans; eassumption | exact E]. }
    destruct ev as [c' lev|c'|]; cbn [step].
    + simpl paused.
      destruct (c' <? created (service st)); [|apply Skip, listened_refl].
      pose proof (listened_handlers st lev) as L.
      destruct (handlers (service st) lev) as [s1 es]. simpl in L.
      unfold awaiting. rewrite P. apply Skip. exact L.
    + simpl paused. unfold awaiting. rewrite P. apply Skip, listened_refl.
    + rewrite P. simpl paused. exists st. split; [apply listened_refl|reflexivity].
Qed.

(** One attempt, read off the deliveries. *)
Lemma attempt_resumed (live : live_oracle) (st : connecting) (evs : list event) :
  attempts st < maxAttempts ->
  exists st1,
    attempts st1 = attempts st
    /\ onErrorCallback (service st1) = onErrorCallback (service st)
    /\ created (service st1)
       = match live (attempts st) with
         | Some _ => created (service st)
         | None => S (created (service st))
         end
    /\ retry_trace (effects st1) = retry_trace (effects st) ++ [Attempt]
    /\ resumed live (loop live st) evs
       = match attempt live (attempts st) (created (service st)) evs with
         | (Acknowledged, _) => set_phase Resolved st1
         | (Failed error, rest) => resumed live (catch error st1) rest
         end.
Proof.
  intros Lt. unfold loop, attempt.
  destruct (Nat.ltb_spec (attempts st) maxAttempts) as [_|Ge]; [|lia].
  destruct (live (attempts st)) as [error|].
  - exists (emit [ListenLive None] st). repeat split.
    simpl. now rewrite retry_trace_app.
  - set (c := created (service st)).
    set (st0 := set_phase (Awaiting c)
                  (emit [ListenLive (Some c); SetTimeout 10000]
                     (set_service
                        (set_created (S c) (set_connection (Some c) (service st)))
                        st))).
    destruct (awaited_resumed live evs st0 c eq_refl eq_refl)
      as (st1 & (L1 & L2 & L3 & L4 & L5 & L6) & E).
    exists st1. repeat split; try assumption.
    rewrite L6. unfold st0. simpl. now rewrite retry_trace_app.
Qed.

Lemma surfaced_intro (s0 : TranscriptionService) (error : js_error)
  (call : connecting) (es : list effect) :
  at_phase call
  = Rejected ("Failed to connect to transcription service: "
              ++ or_else (message error) (as_string error))%string ->
  effects call
  = es ++ (if onErrorCallback s0
           then [ErrorCallback
                   (or_else (message error) "Failed to connect to Deepgram")]
           else []) ->
  surfaced s0 error call.
Proof.
  intros P E. split; [exact P|]. split.
  - intros m Hm. unfold or_else at 1. rewrite Hm.
    destruct (truthy m) eqn:T.
    + apply JSStringFacts.includes_suffix.
    + destruct m; [apply JSStringFacts.includes_empty|discriminate].
  - intros Hcb. rewrite E, Hcb. eauto.
Qed.

(** A failure that is not retried is surfaced at once. *)
Lemma not_retried (live : live_oracle) (s0 : TranscriptionService)
  (error : js_error) (st : connecting) (rest : list event) :
  retryable error = false ->
  onErrorCallback (service st) = onErrorCallback s0 ->
  surfaced s0 error (resumed live (catch error st) rest)
  /\ retry_trace (effects (resumed live (catch error st) rest))
     = retry_trace (effects st).
Proof.
  intros R O. rewrite resumed_settled
    by (unfold timer_due; now rewrite (catch_final _ _ R)).
  rewrite (catch_final _ _ R). split.
  - apply (surfaced_intro _ _ _ (effects st)); [reflexivity|].
    cbn [effects]. now rewrite O.
  - cbn [effects]. rewrite retry_trace_app.
    destruct (onErrorCallback (service st)); apply app_nil_r.
Qed.

(** A second failure that could be retried is surfaced after one more
    pause. *)
Lemma exhausted (live : live_oracle) (s0 : TranscriptionService)
  (error : js_error) (st : connecting) (rest : list event) :
  retryable error = true ->
  attempts st = 1 ->
  onErrorCallback (service st) = onErrorCallback s0 ->
  surfaced s0 error (resumed live (catch error st) rest)
  /\ retry_trace (effects (resumed live (catch error st) rest))
     = retry_trace (effects st) ++ [Pause].
Proof.
  intros R A O. rewrite (catch_retry _ _ R).
  match goal with
  | |- context [resumed live ?x rest] => set (st2 := x)
  end.
  destruct (paused_resumed live rest st2 eq_refl)
    as (st3 & (L1 & L2 & L3 & L4 & L5 & L6) & E).
  rewrite E. unfold st2 in L1, L2, L4, L6. cbn [attempts lastError service effects] in L1, L2, L4, L6.
  assert (F : loop live st3 = surface_failure st3).
  { unfold loop. rewrite L1, A. reflexivity. }
  rewrite F, resumed_settled
    by (unfold timer_due; now rewrite surface_failure_phase).
  rewrite surface_failure_eq. unfold lastError_message, lastError_string.
  rewrite L2. split.
  - apply (surfaced_intro _ _ _ (effects st3)); [reflexivity|].
    cbn [effects]. now rewrite L4, O.
  - cbn [effects]. rewrite retry_trace_app, L6, retry_trace_app.
    change (retry_trace [ConsoleWarn "Deepgram connection failed, retrying...";
                         SetTimeout 500]) with [Pause].
    destruct (onErrorCallback (service st3)); apply app_nil_r.
Qed.

(** The first attempt of a call. *)
Lemma first_attempt (live : live_oracle) (s : TranscriptionService)
  (evs : list event) :
  isConnected s = false ->
  exists st1,
    attempts st1 = 0
    /\ onErrorCallback (service st1) = onErrorCallback s
    /\ created (service st1) = second_connection live s
    /\ retry_trace (effects st1) = [Attempt]
    /\ connect_call live s evs
       = match attempt live 0 (created s) evs with
         | (Acknowledged, _) => set_phase Resolved st1
         | (Failed error, rest) => resumed live (catch error st1) rest
         end.
Proof.
  intros Hs. rewrite connect_call_resumed. unfold connect. rewrite Hs.
  match goal with
  | |- context [loop live ?x] => set (st0 := x)
  end.
  destruct (attempt_resumed live st0 evs) as (st1 & A & O & C & T & E);
    [unfold st0, maxAttempts; simpl; lia|].
  exists st1. repeat split; assumption.
Qed.

(** The pause and the second attempt of a call. *)
Lemma second_attempt (live : live_oracle) (error : js_error) (st1 : connecting)
  (rest : list event) :
  attempts st1 = 0 -> retryable error = true ->
  exists st2,
    attempts st2 = 1
    /\ onErrorCallback (service st2) = onErrorCallback (service st1)
    /\ retry_trace (effects st2)
       = retry_trace (effects st1) ++ [Pause; Attempt]
    /\ resumed live (catch error st1) rest
       = match attempt live 1 (created (service st1)) (paused rest) with
         | (Acknowledged, _) => set_phase Resolved st2
         | (Failed error', rest') => resumed live (catch error' st2) rest'
         end.
Proof.
  intros A R. rewrite (catch_retry _ _ R).
  match goal with
  | |- context [resumed live ?x rest] => set (stp := x)
  end.
  destruct (paused_resumed live rest stp eq_refl)
    as (st3 & (L1 & L2 & L3 & L4 & L5 & L6) & E).
  rewrite E. unfold stp in L1, L4, L5, L6.
  cbn [attempts service effects] in L1, L4, L5, L6. rewrite A in L1.
  destruct (attempt_resumed live st3 (paused rest)) as (st2 & A2 & O2 & C2 & T2 & E2);
    [rewrite L1; unfold maxAttempts; lia|].
  rewrite L1, L5 in E2. exists st2. repeat split.
  - congruence.
  - congruence.
  - rewrite T2, L6, retry_trace_app, <- app_assoc. reflexivity.
  - exact E2.
Qed.

(** C5.  The retry of [connect()] is bounded.  The statement reads the
    fate of each attempt off what the environment does: [attempt live k c
    evs] is [Failed error] when the call of [listen.live] throws [error],
    when an [Error] event with [error] is the first to settle the wait
    for the connection, or when the 10 s timer is ("Connection timeout").
    The service is not connected when [connect()] is called.
    (1) In every execution, at every point of it and at its end,
    [listen.live] has been called at most twice.
    (2) When the first attempt fails with an error whose message contains
    "1006" or "Network error", [connect()] waits 500 ms and makes exactly
    one more attempt: its calls of [listen.live] and its 500 ms timers
    are attempt, pause, attempt, and at most one more pause.
    (3) When the first attempt fails with any other error, there is no
    pause and no second attempt: the failure is surfaced.
    (4) When the second attempt fails too, with whatever error, there is
    no third attempt (only one more pause if that error could be
    retried): the failure is surfaced.
    (5) When an attempt is acknowledged, [connect()] returns.
    A failure is surfaced when [connect()] throws "Failed to connect to
    transcription service: " followed by the message of the last error
    (by [String] of it when it has no message), which the thrown message
    then contains, after calling the error callback, when one is
    registered, with the message of the last error. *)
Theorem connect_bounded_retry :
  (forall live s evs,
      connection_attempts (effects (run live (connect live s) evs)) <= 2
      /\ connection_attempts (effects (connect_call live s evs)) <= 2)
  /\ (forall live s evs error rest,
        isConnected s = false ->
        attempt live 0 (created s) evs = (Failed error, rest) ->
        retryable error = true ->
        connection_attempts (effects (connect_call live s evs)) = 2
        /\ exists more,
             retry_trace (effects (connect_call live s evs))
             = [Attempt; Pause; Attempt] ++ more
             /\ (more = [] \/ more = [Pause]))
  /\ (forall live s evs error rest,
        isConnected s = false ->
        attempt live 0 (created s) evs = (Failed error, rest) ->
        retryable error = false ->
        connection_attempts (effects (connect_call live s evs)) = 1
        /\ retry_trace (effects (connect_call live s evs)) = [Attempt]
        /\ surfaced s error (connect_call live s evs))
  /\ (forall live s evs error rest error' rest',
        isConnected s = false ->
        attempt live 0 (created s) evs = (Failed error, rest) ->
        retryable error = true ->
        attempt live 1 (second_connection live s) (paused rest)
        = (Failed error', rest') ->
        retry_trace (effects (connect_call live s evs))
        = [Attempt; Pause; Attempt] ++ (if retryable error' then [Pause] else [])
        /\ surfaced s error' (connect_call live s evs))
  /\ (forall live s evs rest,
        isConnected s = false ->
        attempt live 0 (created s) evs = (Acknowledged, rest) ->
        at_phase (connect_call live s evs) = Resolved
        /\ retry_trace (effects (connect_call live s evs)) = [Attempt])
  /\ (forall live s evs error rest rest',
        isConnected s = false ->
        attempt live 0 (created s) evs = (Failed error, rest) ->
        retryable error = true ->
        attempt live 1 (second_connection live s) (paused rest)
        = (Acknowledged, rest') ->
        at_phase (connect_call live s evs) = Resolved
        /\ retry_trace (effects (connect_call live s evs))
           = [Attempt; Pause; Attempt]).
Proof.
  assert (Second : forall live s evs error rest,
             isConnected s = false ->
             attempt live 0 (created s) evs = (Failed error, rest) ->
             retryable error = true ->
             match attempt live 1 (second_connection live s) (paused rest) with
             | (Acknowledged, _) =>
                 at_phase (connect_call live s evs) = Resolved
                 /\ retry_trace (effects (connect_call live s evs))
                    = [Attempt; Pause; Attempt]
             | (Failed error', _) =>
                 retry_trace (effects (connect_call live s evs))
                 = [Attempt; Pause; Attempt]
                   ++ (if retryable error' then [Pause] else [])
                 /\ surfaced s error' (connect_call live s evs)
             end).
  { intros live s evs error rest Hs H1 R.
    destruct (first_attempt live s evs Hs) as (st1 & A1 & O1 & C1 & T1 & E1).
    rewrite H1 in E1.
    destruct (second_attempt live error st1 rest A1 R) as (st2 & A2 & O2 & T2 & E2).
    rewrite C1 in E2. rewrite T1 in T2. simpl in T2.
    rewrite E1, E2.
    destruct (attempt live 1 (second_connection live s) (paused rest))
      as [[|error'] rest'].
    - split; [reflexivity | exact T2].
    - destruct (retryable error') eqn:R'.
      + destruct (exhausted live s error' st2 rest' R' A2) as [S1 S2];
          [congruence|].
        rewrite S2, T2. split; [reflexivity | exact S1].
      + destruct (not_retried live s error' st2 rest' R') as [S1 S2];
          [congruence|].
        rewrite S2, T2. split; [reflexivity | exact S1]. }
  split; [|split; [|split; [|split; [|split]]]].
  - intros live s evs. split; apply attempts_inv_bound.
    + apply (run_inv s), connect_inv.
    + unfold connect_call.
      destruct (run_suspended_run live evs (connect live s))
        as (delivered & rest & _ & ->).
      apply (settle_inv s), (run_inv s), connect_inv.
  - intros live s evs error rest Hs H1 R.
    pose proof (Second live s evs error rest Hs H1 R) as K.
    rewrite connection_attempts_trace.
    destruct (attempt live 1 (second_connection live s) (paused rest))
      as [[|error'] rest'].
    + destruct K as [_ K]. rewrite K. split; [reflexivity|].
      exists []. auto.
    + destruct K as [K _]. rewrite K.
      destruct (retryable error'); (split; [reflexivity|]); eauto.
  - intros live s evs error rest Hs H1 R.
    destruct (first_attempt live s evs Hs) as (st1 & A1 & O1 & C1 & T1 & E1).
    rewrite H1 in E1.
    destruct (not_retried live s error st1 rest R O1) as [S1 S2].
    rewrite connection_attempts_trace, E1, S2, T1.
    split; [reflexivity | split; [reflexivity | exact S1]].
  - intros live s evs error rest error' rest' Hs H1 R H2.
    pose proof (Second live s evs error rest Hs H1 R) as K.
    rewrite H2 in K. exact K.
  - intros live s evs rest Hs H1.
    destruct (first_attempt live s evs Hs) as (st1 & A1 & O1 & C1 & T1 & E1).
    rewrite H1 in E1. rewrite E1. split; [reflexivity | exact T1].
  - intros live s evs error rest rest' Hs H1 R H2.
    pose proof (Second live s evs error rest Hs H1 R) as K.
    rewrite H2 in K. exact K.
Qed.

(** The theorem at four calls.  Two abnormal closes in a row: attempt,
    pause, attempt, pause, and the failure is thrown.  A network error
    thrown by [listen.live] itself at both calls: the same.  An
    authentication error: one attempt and the throw.  An abnormal close,
    then an acknowledgment: attempt, pause, attempt, and the call
    returns. *)
Lemma connect_bounded_retry_witness :
  (retry_trace (effects (connect_call live_returns registered_service twice_abnormal))
   = [Attempt; Pause; Attempt; Pause]
   /\ at_phase (connect_call live_returns registered_service twice_abnormal)
      = Rejected "Failed to connect to transcription service: socket closed (1006)")
  /\ (retry_trace (effects (connect_call live_throws registered_service []))
      = [Attempt; Pause; Attempt; Pause]
      /\ at_phase (connect_call live_throws registered_service [])
         = Rejected "Failed to connect to transcription service: Network error")
  /\ (retry_trace
        (effects (connect_call live_returns registered_service
                    [Endpoint 0 (Error (new_Error "Status: 401"))]))
      = [Attempt]
      /\ at_phase (connect_call live_returns registered_service
                      [Endpoint 0 (Error (new_Error "Status: 401"))])
         = Rejected "Failed to connect to transcription service: Status: 401")
  /\ (at_phase (connect_call live_returns registered_service retried_call)
      = Resolved
      /\ retry_trace (effects (connect_call live_returns registered_service retried_call))
         = [Attempt; Pause; Attempt]).
Proof.
  destruct connect_bounded_retry as (_ & _ & Once & Twice & _ & Again).
  split; [|split; [|split]].
  - destruct (Twice live_returns registered_service twice_abnormal
                (new_Error "socket closed (1006)")
                [PauseElapsed;
                 Endpoint 1 (Error (new_Error "socket closed (1006)"));
                 PauseElapsed]
                (new_Error "socket closed (1006)") [PauseElapsed]
                eq_refl eq_refl eq_refl eq_refl) as [T [P _]].
    split; [exact T | exact P].
  - destruct (Twice live_throws registered_service []
                (new_Error "Network error") []
                (new_Error "Network error") []
                eq_refl eq_refl eq_refl eq_refl) as [T [P _]].
    split; [exact T | exact P].
  - destruct (Once live_returns registered_service
                [Endpoint 0 (Error (new_Error "Status: 401"))]
                (new_Error "Status: 401") []
                eq_refl eq_refl eq_refl) as [_ [T [P _]]].
    split; [exact T | exact P].
  - exact (Again live_returns registered_service retried_call
             (new_Error "socket closed (1006)")
             [Endpoint 0 (Close (Some 1006%Z) None); PauseElapsed; Endpoint 1 Open]
             [] eq_refl eq_refl eq_refl eq_refl).
Defined.

End RetryFacts.

(** ** [sendAudio] *)

Module SendFacts.
Import JSString Transcription Scenarios ConnectFacts.

Local Open Scope list_scope.

(** C4, as the code has it.  [sendAudio] on a session that is not
    connected throws "Not connected to transcription service" and does
    nothing else: no bytes are forwarded, nothing is logged, whatever the
    frame.  A session is connected when [isConnected] is true and the
    connection is set.  (1) That is the guard.  The call throws
    (2) on a session that was only constructed, (3) on a session that
    was disconnected, (4) after a [Close] event, and (5) at every point
    of a call of [connect()] that no [Open] event has acknowledged.
    (6) The class keeps no closing state: [finish()] sends the finish
    signal and assigns no field, so a connected session stays connected
    after it, and [sendAudio] forwards the frame to the connection. *)
Theorem sendAudio_not_connected :
  (forall s audioData send_throws,
      isConnected s = false \/ connection s = None ->
      sendAudio s audioData send_throws
      = (Throws "Not connected to transcription service", []))
  /\ (forall apiKey s audioData send_throws,
        constructor apiKey = Returns s ->
        sendAudio s audioData send_throws
        = (Throws "Not connected to transcription service", []))
  /\ (forall s audioData send_throws,
        sendAudio (fst (disconnect s)) audioData send_throws
        = (Throws "Not connected to transcription service", []))
  /\ (forall s code reason audioData send_throws,
        sendAudio (fst (handlers s (Close code reason))) audioData send_throws
        = (Throws "Not connected to transcription service", []))
  /\ (forall live s evs audioData send_throws,
        isConnected s = false ->
        (forall c, ~ In (Endpoint c Open) evs) ->
        sendAudio (service (run live (connect live s) evs)) audioData send_throws
        = (Throws "Not connected to transcription service", []))
  /\ (forall s c audioData,
        isConnected s = true -> connection s = Some c ->
        finish s false = [Finish c; SetTimeout 500]
        /\ sendAudio s audioData false
           = (Returns tt,
              [Send c match audioData with
                      | Float32Array samples => Encoder.float32ToLinear16 samples
                      | Blob bytes => bytes
                      end])).
Proof.
  assert (A : forall s audioData send_throws,
             isConnected s = false \/ connection s = None ->
             sendAudio s audioData send_throws
             = (Throws "Not connected to transcription service", [])).
  { intros s a t [H|H]; unfold sendAudio; rewrite H; [reflexivity|].
    destruct (isConnected s); reflexivity. }
  split; [exact A|]. split; [|split; [|split; [|split]]].
  - intros apiKey s a t H. apply A. left.
    unfold constructor in H. destruct (negb (truthy apiKey)); [discriminate|].
    injection H as <-. reflexivity.
  - intros s a t. apply A. left. reflexivity.
  - intros s code reason a t. apply A. left. reflexivity.
  - intros live s evs a t Hs NoOpen. apply A. left.
    destruct (isConnected (service (run live (connect live s) evs))) eqn:K;
      [|reflexivity].
    destruct (run_isConnected _ _ _ K) as [K'|[c K']].
    + destruct (connect_not_connected live s Hs) as [C0 _]. congruence.
    + elim (NoOpen c K').
  - intros s c a H1 H2. unfold finish, sendAudio. rewrite H1, H2. auto.
Qed.

(** C4 as stated fails in the state the specification calls Closing.
    After [connect()] was acknowledged and [finish()] was called, the
    session of the specification is in [Closing], which is not [Open];
    the class still holds [isConnected = true], and [sendAudio] forwards
    the frame (the sample 1 as the bytes FF 7F) instead of throwing. *)
Lemma sendAudio_not_connected_counterexample :
  at_phase opened = Resolved
  /\ finish (service opened) false = [Finish 0; SetTimeout 500]
  /\ SessionSpec.state_after
       [SessionSpec.connect_called; SessionSpec.open_acknowledged;
        SessionSpec.finish_called]
     = SessionSpec.Closing
  /\ SessionSpec.Closing <> SessionSpec.Open
  /\ sendAudio (service opened) (Float32Array [JSNumber.of_Z 1]) false
     = (Returns tt, [Send 0 [255; 127]%Z]).
Proof. repeat split. discriminate. Qed.

(** An open session forwards the encoded frame. *)
Lemma sendAudio_open (s : TranscriptionService) (c : nat)
  (samples : list JSNumber.number) :
  isConnected s = true -> connection s = Some c ->
  sendAudio s (Float32Array samples) false
  = (Returns tt, [Send c (Encoder.float32ToLinear16 samples)]).
Proof. intros H1 H2. unfold sendAudio. now rewrite H1, H2. Qed.

End SendFacts.

(** ** The probes and [validateApiKey] *)

Module ProbeFacts.
Import JSString Transcription.

Local Open Scope list_scope.

(** A probe that sees no event ends by its timer. *)
Lemma probeConnection_timeout :
  probeConnection None []
  = {| success := false; probe_message := "WebSocket probe timed out";
       probe_code := None; probe_reason := None |}.
Proof. reflexivity. Qed.

(** The first event decides the result of a probe. *)
Lemma probeConnection_first (ev : probe_event) (evs : list probe_event) :
  probeConnection None (ev :: evs) = probe_result ev.
Proof.
  unfold probeConnection. simpl.
  assert (K : forall r l, fold_left
                (fun fin ev => probe_finish fin (probe_result ev)) l (Some r)
              = Some r).
  { intros r l. induction l as [|x l IH]; simpl; auto. }
  now rewrite K.
Qed.

(** C6.  [validateApiKey()] returns exactly when one of the two probes
    succeeds, and throws exactly when both fail; what it throws is one
    of three messages: the authentication message, the network message
    followed by the probe message, or the generic message followed by
    the probe message.  In particular it returns whenever the native
    probe succeeds, whatever happened to the browser probe: [listen.live]
    threw, an error or a close came first, or nothing came before the
    timer. *)
Theorem validateApiKey_two_tier :
  (forall probe nativeProbe,
      validateApiKey probe nativeProbe = Returns tt
      <-> success probe = true \/ success nativeProbe = true)
  /\ (forall probe nativeProbe,
        (exists msg, validateApiKey probe nativeProbe = Throws msg)
        <-> success probe = false /\ success nativeProbe = false)
  /\ (forall probe nativeProbe msg,
        validateApiKey probe nativeProbe = Throws msg ->
        msg = "Authentication failed — check your Deepgram API key"
        \/ msg = ("WebSocket connection failed (possible network/firewall/proxy issue): "
                  ++ both_failed_msg probe nativeProbe)%string
        \/ msg = ("Deepgram API key validation failed: "
                  ++ both_failed_msg probe nativeProbe)%string)
  /\ (forall live_throws evs invoked,
        success (probeDeepgramNative invoked) = true ->
        validateApiKey (probeConnection live_throws evs)
          (probeDeepgramNative invoked) = Returns tt)
  /\ (forall invoked,
        success (probeDeepgramNative invoked) = true ->
        validateApiKey (probeConnection None []) (probeDeepgramNative invoked)
        = Returns tt).
Proof.
  assert (T : forall probe nativeProbe,
             success probe = false -> success nativeProbe = false ->
             exists msg, validateApiKey probe nativeProbe = Throws msg).
  { intros p n Hp Hn. unfold validateApiKey. rewrite Hp, Hn.
    destruct (is_auth_msg _); [eauto|].
    destruct (is_timeout_msg _ || _); eauto. }
  assert (R : forall probe nativeProbe,
             success probe = true \/ success nativeProbe = true ->
             validateApiKey probe nativeProbe = Returns tt).
  { intros p n [H|H]; unfold validateApiKey; rewrite H; [reflexivity|].
    destruct (success p); reflexivity. }
  split; [|split; [|split; [|split]]].
  - intros p n. split; [|apply R].
    intros H. destruct (success p) eqn:Hp; [auto|].
    destruct (success n) eqn:Hn; [auto|].
    destruct (T p n Hp Hn) as [msg E]. congruence.
  - intros p n. split.
    + intros [msg E].
      destruct (success p) eqn:Hp;
        [rewrite (R p n (or_introl Hp)) in E; discriminate|].
      destruct (success n) eqn:Hn;
        [rewrite (R p n (or_intror Hn)) in E; discriminate|].
      auto.
    + intros [Hp Hn]. apply T; assumption.
  - intros p n msg. unfold validateApiKey.
    destruct (success p); [discriminate|].
    destruct (success n); [discriminate|].
    destruct (is_auth_msg _); [intros E; injection E as <-; auto|].
    destruct (is_timeout_msg _ || _); intros E; injection E as <-; auto.
  - intros l evs i H. apply R. auto.
  - intros i H. apply R. auto.
Qed.

End ProbeFacts.

(** ** The [Close] listener *)

Module CloseFacts.
Import JSString Transcription Scenarios Invariants.

Local Open Scope list_scope.

Lemma network_wording :
  names_network_failure (userMessage (new_Error "Connection timeout")) = true
  /\ names_network_failure (close_message 1006 None) = true.
Proof. split; reflexivity. Qed.

Lemma close_message_has_code (code : Z) (reason : option string) :
  includes (of_Z code) (close_message code reason) = true.
Proof.
  unfold close_message. destruct (Z.eqb_spec code 1006) as [->|_].
  - reflexivity.
  - apply JSStringFacts.includes_middle.
Qed.

(** C9, as the code has it.  A [Close] event whose code is present, not
    zero and not 1000 makes the listener call the registered error
    callback once, with a message that contains the code.  For code 1006
    the message is the abnormal-closure message, which names a network
    failure; no earlier [Error] event is needed, the listener looks at
    the close event alone.  For any other code the message is
    "Connection closed (code N)" and the reason, if any.  A [Close] event
    with code 1000, with code 0 or with no code is logged only.  In every
    case [isConnected] becomes false. *)
Theorem close_dispatch :
  (forall s code reason,
      onErrorCallback s = true -> code <> 0 -> code <> 1000 ->
      snd (listeners s (Close (Some code) reason))
      = [ConsoleLog "Deepgram connection closed";
         ErrorCallback (close_message code reason)]
      /\ includes (of_Z code) (close_message code reason) = true)
  /\ (forall reason,
        close_message 1006 reason
        = "Connection closed abnormally (1006) — possible network/firewall/TLS/proxy issue blocking WebSocket connections"
        /\ names_network_failure (close_message 1006 reason) = true)
  /\ (forall code reason,
        code <> 1006 ->
        close_message code reason
        = ("Connection closed (code " ++ of_Z code ++ ")"
           ++ match reason with
              | Some r => if truthy r then ": " ++ r else ""
              | None => ""
              end)%string)
  /\ (forall s code reason,
        code = Some 1000 \/ code = Some 0 \/ code = None ->
        snd (listeners s (Close code reason))
        = [ConsoleLog "Deepgram connection closed"])
  /\ (forall s code reason,
        isConnected (fst (listeners s (Close code reason))) = false).
Proof.
  split; [|split; [|split; [|split]]].
  - intros s code reason Hcb H0 H1000. split; [|apply close_message_has_code].
    simpl. destruct (Z.eqb_spec code 0) as [K|_]; [contradiction|].
    destruct (Z.eqb_spec code 1000) as [K|_]; [contradiction|].
    simpl. now rewrite Hcb.
  - intros reason. split; reflexivity.
  - intros code reason H. unfold close_message.
    destruct (Z.eqb_spec code 1006) as [K|_]; [contradiction|reflexivity].
  - intros s code reason [->|[->| ->]]; reflexivity.
  - reflexivity.
Qed.

(** C9 as stated fails twice.  A [Close] event that carries no code has
    a code that is not 1000, and the error callback is not called.  A
    [Close] event with code 1011 reaches the callback with a message that
    names no network failure. *)
Lemma close_dispatch_counterexample :
  ~ (exists msg,
        In (ErrorCallback msg)
           (snd (listeners registered_service (Close None None))))
  /\ snd (listeners registered_service (Close (Some 1011) None))
     = [ConsoleLog "Deepgram connection closed";
        ErrorCallback "Connection closed (code 1011)"]
  /\ names_network_failure "Connection closed (code 1011)" = false.
Proof.
  split; [|split; reflexivity].
  intros [msg [H|[]]]. discriminate.
Qed.

End CloseFacts.

(** ** The orchestrator *)

Module HookFacts.
Import JSString Transcription UseVoiceToText Scenarios ConnectFacts RetryFacts Invariants.

Local Open Scope nat_scope.
Local Open Scope list_scope.

(** *** The transcript merge *)

(** C1, as the code has it.  In every state, an interim result replaces
    [interimTranscript] and leaves the rest; a final result appends a
    space and its text to [transcript], empties [interimTranscript] and
    leaves the rest.  The space is appended also when [transcript] is
    empty: from the empty transcript, interim "he", interim "hell" and
    final "hello" give [transcript = " hello"] and an empty
    [interimTranscript], and a further final " world" gives
    [transcript = " hello  world"]. *)
Theorem transcript_merge :
  (forall prev result,
      isFinal result = false ->
      transcript_updater result prev
      = {| isRecording := isRecording prev; isProcessing := isProcessing prev;
           transcript := transcript prev;
           interimTranscript := Transcription.transcript result;
           error := error prev; isReady := isReady prev |})
  /\ (forall prev result,
        isFinal result = true ->
        transcript_updater result prev
        = {| isRecording := isRecording prev; isProcessing := isProcessing prev;
             transcript := (transcript prev ++ " "
                            ++ Transcription.transcript result)%string;
             interimTranscript := "";
             error := error prev; isReady := isReady prev |})
  /\ (let heard :=
        reduce_all [TranscriptCallback (interim "he");
                    TranscriptCallback (interim "hell");
                    TranscriptCallback (final "hello")] (state initial) in
      transcript heard = " hello"
      /\ interimTranscript heard = ""
      /\ transcript (reduce_all [TranscriptCallback (final " world")] heard)
         = " hello  world").
Proof.
  split; [|split].
  - intros prev result H. unfold transcript_updater. now rewrite H.
  - intros prev result H. unfold transcript_updater. now rewrite H.
  - repeat split.
Qed.

(** C1 as stated fails on its example: the transcript is not "hello" but
    " hello", and then not "hello world" but " hello  world". *)
Lemma transcript_merge_counterexample :
  let heard :=
    reduce_all [TranscriptCallback (interim "he");
                TranscriptCallback (interim "hell");
                TranscriptCallback (final "hello")] (state initial) in
  transcript heard <> "hello"
  /\ transcript (reduce_all [TranscriptCallback (final " world")] heard)
     <> "hello world".
Proof. split; discriminate. Qed.

(** *** Final events *)




(** [disconnect] empties the two callback slots and [initialize]
    fills them only when it constructs the service: in a second
    recording the final result finds no callback. *)
Example second_recording_hears_nothing :
  transcript (state (after (firstn 4 two_recordings))) = " one"
  /\ option_map onTranscriptCallback
       (transcriptionServiceRef (after (firstn 4 two_recordings)))
     = Some false
  /\ transcript (state (after two_recordings)) = "".
Proof. repeat split. Qed.

(** *** The hook in use: what every history preserves *)

Ltac hook_cases :=
  repeat match goal with
         | |- context [match ?x with _ => _ end] => destruct x eqn:?
         end.

Ltac hook_solve :=
  simpl in *; unfold hook_inv in *; simpl in *;
  repeat split; intros; subst; simpl in *;
  try discriminate; try congruence; intuition (try discriminate; try congruence).

Lemma endpoint_event_inv (h : Hook) (c : nat) (ev : LiveTranscriptionEvents) :
  hook_inv h -> hook_inv (endpoint_event h c ev).
Proof.
  intros I. unfold endpoint_event.
  destruct (transcriptionServiceRef h) as [s|] eqn:T; [|exact I].
  destruct (c <? created s); [|exact I].
  destruct (handlers s ev) as [s' es].
  destruct I as (I1 & I2 & I3).
  unfold hook_inv. simpl.
  split; [intros K; apply I1 in K; congruence|].
  split; [discriminate|].
  intros K. split; [|discriminate].
  intros K'. apply I1 in K'. congruence.
Qed.

Lemma endpoint_events_inv (evs : list (nat * LiveTranscriptionEvents)) (h : Hook) :
  hook_inv h -> hook_inv (endpoint_events h evs).
Proof.
  revert h. induction evs as [|[c ev] evs IH]; intros h I; simpl; [exact I|].
  apply IH, endpoint_event_inv, I.
Qed.

Lemma endpoint_events_refs (evs : list (nat * LiveTranscriptionEvents)) (h : Hook) :
  audioServiceRef (endpoint_events h evs) = audioServiceRef h
  /\ (transcriptionServiceRef h <> None ->
      transcriptionServiceRef (endpoint_events h evs) <> None).
Proof.
  revert h. induction evs as [|[c ev] evs IH]; intros h; simpl; [auto|].
  destruct (IH (endpoint_event h c ev)) as [A B].
  assert (K : audioServiceRef (endpoint_event h c ev) = audioServiceRef h
              /\ (transcriptionServiceRef h <> None ->
                  transcriptionServiceRef (endpoint_event h c ev) <> None)).
  { unfold endpoint_event. destruct (transcriptionServiceRef h) as [s|] eqn:T; [|auto].
    destruct (c <? created s); [|rewrite T; auto].
    destruct (handlers s ev). simpl. split; [reflexivity|discriminate]. }
  destruct K as [K1 K2]. split; [congruence|auto].
Qed.

Lemma act_inv (h : Hook) (a : action) : hook_inv h -> hook_inv (act h a).
Proof.
  intros I. destruct a; cbn [act].
  - (* initialize *)
    destruct I as (I1 & I2 & I3). unfold initialize.
    cbn [setState audioServiceRef transcriptionServiceRef state].
    destruct (audioServiceRef h) as [a|] eqn:A.
    + destruct (transcriptionServiceRef h) as [s|] eqn:T.
      * hook_solve.
      * destruct (constructor deepgramApiKey); [|hook_solve].
        destruct (validateApiKey probe nativeProbe); hook_solve.
    + rewrite (I1 eq_refl) in *.
      destruct granted; simpl.
      * destruct (constructor deepgramApiKey); [|hook_solve].
        destruct (validateApiKey probe nativeProbe); hook_solve.
      * hook_solve.
  - (* validateApiKey *)
    unfold validateApiKey_hook.
    destruct (transcriptionServiceRef h) eqn:T; [|hook_solve].
    destruct (validateApiKey probe nativeProbe); hook_solve.
  - (* runDiagnostics *)
    unfold runDiagnostics.
    destruct (transcriptionServiceRef h) eqn:T; hook_solve.
  - (* startRecording *)
    unfold startRecording.
    destruct (audioServiceRef h) as [a|] eqn:A;
      [destruct (transcriptionServiceRef h) as [s|] eqn:T|].
    + destruct (at_phase (connect_call live s evs)); simpl;
        try destruct (AudioCapture.startRecording a); simpl;
        unfold hook_inv; simpl; repeat split; discriminate.
    + hook_solve.
    + hook_solve.
  - (* stopRecording *)
    unfold stopRecording.
    destruct (audioServiceRef h) as [a|] eqn:A; [|exact I].
    destruct (transcriptionServiceRef h) as [s|] eqn:T; [|exact I].
    cbn [setState audioServiceRef transcriptionServiceRef state]. rewrite T.
    set (h1 := {| state := set_processing true (state h);
                  audioServiceRef := Some (AudioCapture.stopRecording a);
                  transcriptionServiceRef := Some s |}).
    assert (I1 : hook_inv h1) by (unfold h1; hook_solve).
    pose proof (endpoint_events_inv trailing h1 I1) as I2.
    destruct (endpoint_events_refs trailing h1) as [R1 R2].
    destruct (transcriptionServiceRef (endpoint_events h1 trailing)) as [s2|] eqn:T2;
      [|exact I2].
    assert (Au : audioServiceRef (endpoint_events h1 trailing) <> None)
      by (rewrite R1; discriminate).
    destruct disconnect_throws as [msg|].
    + destruct (connection s2).
      * unfold setState, hook_inv. simpl. rewrite T2.
        repeat split; try discriminate; try assumption; intros K; contradiction.
      * unfold hook_inv. simpl.
        repeat split; try discriminate; try assumption; intros K; contradiction.
    + unfold hook_inv. simpl.
      repeat split; try discriminate; try assumption; intros K; contradiction.
  - (* clearTranscript *)
    hook_solve.
  - (* copyToClipboard *)
    unfold copyToClipboard.
    destruct (negb (truthy (transcript (state h)))); [exact I|].
    destruct write_fails; [hook_solve|exact I].
  - apply endpoint_event_inv, I.
Qed.

Lemma after_inv (history : list action) : hook_inv (after history).
Proof.
  unfold after.
  assert (I0 : hook_inv initial) by (unfold hook_inv; simpl; repeat split; discriminate).
  revert I0. generalize initial.
  induction history as [|a history IH]; intros h I; simpl; [exact I|].
  apply IH, act_inv, I.
Qed.

(** *** Effects only accumulate *)

Lemma catch_effects (error : js_error) (st : connecting) :
  exists es, effects (catch error st) = effects st ++ es.
Proof.
  destruct (retryable error) eqn:R.
  - rewrite (catch_retry _ _ R). simpl. eauto.
  - rewrite (catch_final _ _ R). simpl. eauto.
Qed.

Lemma loop_effects (live : live_oracle) (st : connecting) :
  exists es, effects (loop live st) = effects st ++ es.
Proof.
  unfold loop. destruct (attempts st <? maxAttempts).
  - destruct (live (attempts st)) as [err|].
    + destruct (catch_effects err (emit [ListenLive None] st)) as [es E].
      rewrite E. simpl. rewrite <- app_assoc. eauto.
    + simpl. eauto.
  - rewrite surface_failure_eq. simpl. eauto.
Qed.

Lemma step_effects (live : live_oracle) (st : connecting) (ev : event) :
  exists es, effects (step live st ev) = effects st ++ es.
Proof.
  assert (Z0 : exists es, effects st = effects st ++ es)
    by (exists []; now rewrite app_nil_r).
  destruct ev as [c ev|c|]; cbn [step].
  - destruct (c <? created (service st)); [|exact Z0].
    destruct (handlers (service st) ev) as [s es].
    destruct (awaiting c st); [|simpl; eauto].
    destruct ev as [|data| |err|code reason]; try (simpl; eauto; fail).
    destruct (catch_effects err (emit es (set_service s st))) as [es' E].
    rewrite E. simpl. rewrite <- app_assoc. eauto.
  - destruct (awaiting c st); [apply catch_effects|exact Z0].
  - destruct (at_phase st); try exact Z0. apply loop_effects.
Qed.

Lemma run_effects (live : live_oracle) (evs : list event) (st : connecting) :
  exists es, effects (run live st evs) = effects st ++ es.
Proof.
  revert st. induction evs as [|ev evs IH]; intros st; simpl.
  - exists []. now rewrite app_nil_r.
  - destruct (IH (step live st ev)) as [es E].
    destruct (step_effects live st ev) as [es' E'].
    rewrite E, E', <- app_assoc. eauto.
Qed.

(** A call of [connect] on a service that is not connected starts by
    calling [listen.live]. *)
Lemma connect_call_starts (live : live_oracle) (s : TranscriptionService)
  (evs : list event) :
  isConnected s = false ->
  exists rest,
    effects (connect_call live s evs)
    = ListenLive (match live 0 with
                  | Some _ => None
                  | None => Some (created s)
                  end) :: rest.
Proof.
  intros H. unfold connect_call.
  destruct (settle_run live 5 (run_suspended live (connect live s) evs))
    as (timers & -> & _).
  destruct (run_suspended_run live evs (connect live s))
    as (delivered & rest & _ & ->).
  rewrite <- run_app.
  destruct (run_effects live (delivered ++ timers) (connect live s)) as [es ->].
  unfold connect. rewrite H. unfold loop. simpl.
  destruct (live 0) as [err|].
  - destruct (catch_effects err
                (emit [ListenLive None]
                   {| service := s; attempts := 0; lastError := None;
                      at_phase := Pausing; effects := [] |})) as [es' ->].
    simpl. eauto.
  - simpl. eauto.
Qed.

(** *** [startRecording] does not consult [isReady] *)

(** C7, as the code has it.  [startRecording()] neither connects nor
    starts the capture when one of the two services does not exist: it
    records "Services not initialized" and returns.  When both exist it
    goes on, whatever [isReady] is: it calls [listen.live] first (the
    session not being connected yet), and once [connect()] has returned
    it starts the capture (the microphone having been granted).
    [isReady] is only ever true when both services exist, so a ready
    hook always goes on. *)
Theorem startRecording_guard :
  (forall h live evs,
      audioServiceRef h = None \/ transcriptionServiceRef h = None ->
      startRecording h live evs
      = (setState (set_error (Some "Services not initialized")) h, []))
  /\ (forall h a s live evs,
        audioServiceRef h = Some a -> transcriptionServiceRef h = Some s ->
        isConnected s = false ->
        exists rest,
          snd (startRecording h live evs)
          = ListenLive (match live 0 with
                        | Some _ => None
                        | None => Some (created s)
                        end) :: rest)
  /\ (forall h a s live evs,
        audioServiceRef h = Some a -> transcriptionServiceRef h = Some s ->
        AudioCapture.mediaStream a = true ->
        at_phase (connect_call live s evs) = Resolved ->
        exists a',
          audioServiceRef (fst (startRecording h live evs)) = Some a'
          /\ AudioCapture.isRecording a' = true
          /\ isRecording (state (fst (startRecording h live evs))) = true)
  /\ (forall history,
        isReady (state (after history)) = true ->
        audioServiceRef (after history) <> None
        /\ transcriptionServiceRef (after history) <> None).
Proof.
  split; [|split; [|split]].
  - intros h live evs [H|H]; unfold startRecording; rewrite H; [reflexivity|].
    destruct (audioServiceRef h); reflexivity.
  - intros h a s live evs Ha Hs Hc.
    destruct (connect_call_starts live s evs Hc) as [rest E].
    exists rest. unfold startRecording. rewrite Ha, Hs.
    destruct (at_phase (connect_call live s evs));
      try destruct (AudioCapture.startRecording a); exact E.
  - intros h a s live evs Ha Hs Hm Hr.
    unfold startRecording. rewrite Ha, Hs, Hr.
    unfold AudioCapture.startRecording. rewrite Hm. simpl.
    destruct (AudioCapture.isRecording a) eqn:R; simpl; eauto.
  - intros history. apply after_inv.
Qed.

(** C7 as stated fails after an [initialize] whose probes both failed:
    [isReady] is false, both services exist, and [startRecording()]
    connects and starts the capture. *)
Lemma startRecording_guard_counterexample :
  isReady (state not_ready) = false
  /\ snd (startRecording not_ready live_returns [Endpoint 0 Open])
     = [ListenLive (Some 0); SetTimeout 10000;
        ConsoleLog "Connected to Deepgram"]
  /\ option_map AudioCapture.isRecording
       (audioServiceRef (fst (startRecording not_ready live_returns
                                [Endpoint 0 Open])))
     = Some true
  /\ isRecording (state (fst (startRecording not_ready live_returns
                                [Endpoint 0 Open]))) = true.
Proof. repeat split. Qed.

(** *** [startRecording] empties the transcript *)

(** The two text fields after some effects depend on the two text fields
    before, and on nothing else of the state. *)
Lemma reduce_all_texts (es : list effect) (st1 st2 : VoiceToTextState) :
  transcript st1 = transcript st2 ->
  interimTranscript st1 = interimTranscript st2 ->
  transcript (reduce_all es st1) = transcript (reduce_all es st2)
  /\ interimTranscript (reduce_all es st1) = interimTranscript (reduce_all es st2).
Proof.
  revert st1 st2. induction es as [|e es IH]; intros st1 st2 Ht Hi; simpl; [auto|].
  apply IH; destruct e; simpl; auto; unfold transcript_updater;
    destruct (isFinal result); simpl; congruence.
Qed.

Lemma reduce_all_silent (es : list effect) (st : VoiceToTextState) :
  (forall result, ~ In (TranscriptCallback result) es) ->
  transcript (reduce_all es st) = transcript st
  /\ interimTranscript (reduce_all es st) = interimTranscript st.
Proof.
  revert st. induction es as [|e es IH]; intros st H; simpl; [auto|].
  assert (H' : forall result, ~ In (TranscriptCallback result) es)
    by (intros r K; apply (H r); now right).
  destruct (IH (reduce st e) H') as [E1 E2]. rewrite E1, E2.
  destruct e; simpl; auto. elim (H result). now left.
Qed.

(** The text fields of the state after [startRecording], from the text
    fields the first update leaves. *)
Lemma startRecording_texts (h : Hook) (live : live_oracle) (evs : list event)
  (a : AudioCapture.AudioCaptureService) (s : TranscriptionService) :
  audioServiceRef h = Some a -> transcriptionServiceRef h = Some s ->
  let started := startRecording h live evs in
  transcript (state (fst started))
  = transcript (reduce_all (snd started) (recording_requested (state h)))
  /\ interimTranscript (state (fst started))
     = interimTranscript (reduce_all (snd started) (recording_requested (state h))).
Proof.
  intros Ha Hs. unfold startRecording. rewrite Ha, Hs.
  cbn [setState state].
  destruct (at_phase (connect_call live s evs));
    try destruct (AudioCapture.startRecording a); simpl; auto.
Qed.

(** C10.  After any history of the hook, a call of [startRecording()]
    leaves in [transcript] and [interimTranscript] exactly what the
    results delivered during this call make of two empty strings:
    nothing of the text gathered before survives.  If no result is
    delivered during the call both are empty.  The outcome is the one
    the call has after [clearTranscript()], so clearing first changes
    nothing. *)
Theorem startRecording_resets_transcript
  (history : list action) (live : live_oracle) (evs : list event) :
  let h := after history in
  let started := startRecording h live evs in
  transcript (state (fst started))
  = transcript (reduce_all (snd started) (state initial))
  /\ interimTranscript (state (fst started))
     = interimTranscript (reduce_all (snd started) (state initial))
  /\ ((forall result, ~ In (TranscriptCallback result) (snd started)) ->
      transcript (state (fst started)) = ""
      /\ interimTranscript (state (fst started)) = "")
  /\ transcript (state (fst (startRecording (clearTranscript h) live evs)))
     = transcript (state (fst started))
  /\ interimTranscript (state (fst (startRecording (clearTranscript h) live evs)))
     = interimTranscript (state (fst started)).
Proof.
  intros h started.
  assert (M : transcript (state (fst started))
              = transcript (reduce_all (snd started) (state initial))
              /\ interimTranscript (state (fst started))
                 = interimTranscript (reduce_all (snd started) (state initial))).
  { destruct (after_inv history) as (I1 & I2 & _). fold h in I1, I2.
    destruct (audioServiceRef h) as [a|] eqn:Ha;
      [destruct (transcriptionServiceRef h) as [s|] eqn:Hs|].
    - destruct (startRecording_texts h live evs a s Ha Hs) as [E1 E2].
      fold started in E1, E2. rewrite E1, E2.
      apply reduce_all_texts; reflexivity.
    - unfold started, startRecording. rewrite Ha, Hs. simpl. auto.
    - unfold started, startRecording. rewrite Ha. simpl. auto. }
  destruct M as [M1 M2].
  split; [exact M1|]. split; [exact M2|]. split.
  - intros Silent. rewrite M1, M2.
    exact (reduce_all_silent _ (state initial) Silent).
  - assert (S : snd (startRecording (clearTranscript h) live evs) = snd started
                /\ transcript (state (fst (startRecording (clearTranscript h) live evs)))
                   = transcript (reduce_all (snd started) (state initial))
                /\ interimTranscript (state (fst (startRecording (clearTranscript h) live evs)))
                   = interimTranscript (reduce_all (snd started) (state initial))).
    { destruct (after_inv history) as (I1 & I2 & _). fold h in I1, I2.
      unfold started, startRecording, clearTranscript.
      cbn [setState audioServiceRef transcriptionServiceRef state].
      destruct (audioServiceRef h) as [a|] eqn:Ha;
        [destruct (transcriptionServiceRef h) as [s|] eqn:Hs|].
      - destruct (at_phase (connect_call live s evs));
          try destruct (AudioCapture.startRecording a); simpl;
          (split; [reflexivity|]); apply reduce_all_texts; reflexivity.
      - simpl. auto.
      - simpl. auto. }
    destruct S as (_ & S1 & S2). rewrite S1, S2. auto.
Qed.

End HookFacts.

(** * Further properties *)

(** ** The PCM encoder: order, saturation, rounding, round trip *)

Module EncoderOrder.
Import JSNumber Encoder EncoderFacts.

Local Open Scope Q_scope.

Lemma clamp_spec_mono (f g : Q) : f <= g -> clamp_spec f <= clamp_spec g.
Proof.
  intros H. unfold clamp_spec.
  destruct (Qlt_le_dec f (-1)), (Qlt_le_dec g (-1)); try lra;
    destruct (Qlt_le_dec 1 f); try lra; destruct (Qlt_le_dec 1 g); lra.
Qed.

Lemma scale_spec_mono (f g : Q) : f <= g -> scale_spec f <= scale_spec g.
Proof.
  intros H. unfold scale_spec.
  destruct (Qlt_le_dec f 0), (Qlt_le_dec g 0); lra.
Qed.

Lemma truncate_spec_mono (f g : Q) : f <= g -> (truncate_spec f <= truncate_spec g)%Z.
Proof.
  intros H. unfold truncate_spec.
  destruct (Qlt_le_dec f 0) as [Hf|Hf], (Qlt_le_dec g 0) as [Hg|Hg].
  - apply Qceiling_resp_le, H.
  - apply Z.le_trans with 0%Z.
    + rewrite <- (Qceiling_Z 0). apply Qceiling_resp_le.
      apply Qlt_le_weak, Hf.
    + rewrite <- (Qfloor_Z 0). apply Qfloor_resp_le, Hg.
  - lra.
  - apply Qfloor_resp_le, H.
Qed.

Lemma encode_spec_mono (f g : Q) : f <= g -> (encode_spec f <= encode_spec g)%Z.
Proof.
  intros H. apply truncate_spec_mono, scale_spec_mono, clamp_spec_mono, H.
Qed.

Local Close Scope Q_scope.

(** X1.  The encoder preserves order: of two samples that are numbers
    (finite or infinite), the one that is not greater is stored as a
    16-bit value that is not greater. *)
Theorem sample16_monotone (x y : number) :
  x <> NaN -> y <> NaN -> lt y x = false -> sample16 x <= sample16 y.
Proof.
  intros Hx Hy H.
  destruct x as [|[|]|m1 e1]; [contradiction| | |];
    destruct y as [|[|]|m2 e2]; try contradiction; try discriminate H;
    try (apply Z.le_refl);
    try (exact (proj1 (sample16_range _)));
    try (exact (proj2 (sample16_range _))).
  rewrite !sample16_finite. apply encode_spec_mono.
  apply lt_value_false, H.
Qed.

Lemma sample16_monotone_witness :
  sample16 (Finite (-3) (-2)) <= sample16 (Finite 1 (-1)).
Proof.
  apply (sample16_monotone (Finite (-3) (-2)) (Finite 1 (-1)));
    [discriminate | discriminate | reflexivity].
Defined.

(** X2.  The encoder saturates: every sample that is a number not below
    1 is stored as 32767, and every sample that is a number not above
    -1 is stored as -32768. *)
Theorem sample16_saturates (x : number) :
  x <> NaN ->
  (lt x (of_Z 1) = false -> sample16 x = 32767)
  /\ (lt (of_Z (-1)) x = false -> sample16 x = -32768).
Proof.
  intros Hx. split; intros H.
  - pose proof (sample16_monotone (of_Z 1) x) as M.
    pose proof (sample16_range x) as R.
    assert (sample16 (of_Z 1) <= sample16 x)
      by (apply M; [discriminate | exact Hx | exact H]).
    change (sample16 (of_Z 1)) with 32767 in *. lia.
  - pose proof (sample16_monotone x (of_Z (-1))) as M.
    pose proof (sample16_range x) as R.
    assert (sample16 x <= sample16 (of_Z (-1)))
      by (apply M; [exact Hx | discriminate | exact H]).
    change (sample16 (of_Z (-1))) with (-32768) in *. lia.
Qed.

Lemma sample16_saturates_witness :
  sample16 (Finite 3 (-1)) = 32767 /\ sample16 (Infinity true) = -32768.
Proof.
  split.
  - apply (sample16_saturates (Finite 3 (-1))); [discriminate | reflexivity].
  - apply (sample16_saturates (Infinity true)); [discriminate | reflexivity].
Defined.

Local Open Scope Q_scope.

(** X3.  Rounding is toward zero and loses less than one unit: for a
    finite sample, the stored value lies between zero and the exact
    scaled value of the clamped sample, and differs from it by less
    than 1. *)
Theorem sample16_rounds_toward_zero (m e : Z) :
  let exact := scale_spec (clamp_spec (value m e)) in
  let stored := inject_Z (sample16 (Finite m e)) in
  exact - 1 < stored /\ stored < exact + 1
  /\ (0 <= exact -> 0 <= stored /\ stored <= exact)
  /\ (exact < 0 -> exact <= stored /\ stored <= 0).
Proof.
  intros exact stored. unfold stored. rewrite sample16_finite.
  unfold encode_spec. fold exact. unfold truncate_spec.
  destruct (Qlt_le_dec exact 0) as [N|P].
  - pose proof (Qle_ceiling exact) as C1.
    pose proof (Qceiling_lt exact) as C2.
    assert (C3 : (Qceiling exact <= 0)%Z).
    { rewrite <- (Qceiling_Z 0). apply Qceiling_resp_le, Qlt_le_weak, N. }
    rewrite Zle_Qle in C3.
    unfold Z.sub in C2. rewrite inject_Z_plus in C2.
    change (inject_Z (- (1))) with (-1) in C2.
    change (inject_Z 0) with 0 in C3.
    repeat split; try lra.
  - pose proof (Qfloor_le exact) as F1.
    pose proof (Qlt_floor exact) as F2.
    assert (F3 : (0 <= Qfloor exact)%Z).
    { rewrite <- (Qfloor_Z 0). apply Qfloor_resp_le. exact P. }
    rewrite Zle_Qle in F3.
    rewrite inject_Z_plus in F2. change (inject_Z 1) with 1 in F2.
    change (inject_Z 0) with 0 in F3.
    repeat split; try lra.
Qed.

Local Close Scope Q_scope.

Lemma linear16_pair (v : Z) (rest : list Z) :
  -32768 <= v <= 32767 ->
  linear16ToInt16 (bytes_of_int16 v ++ rest) = v :: linear16ToInt16 rest.
Proof.
  intros H.
  destruct (bytes_of_int16_decode v H) as (lo & hi & -> & _ & _ & D).
  simpl. now rewrite D.
Qed.

(** X4.  Round trip through the buffer: reading the buffer returned by
    [float32ToLinear16] as little-endian signed 16-bit values gives
    back, in order, the value the loop stored for each sample. *)
Theorem linear16_round_trip (float32Array : list number) :
  linear16ToInt16 (float32ToLinear16 float32Array) = map sample16 float32Array.
Proof.
  unfold float32ToLinear16, int16Array.
  induction float32Array as [|x xs IH]; [reflexivity|].
  cbn [map flat_map].
  rewrite linear16_pair by apply sample16_range. now rewrite IH.
Qed.

End EncoderOrder.

(** ** The session: disconnect, connect and the probes *)

Module SessionMore.
Import JSString Transcription Scenarios Invariants ConnectFacts RetryFacts.

Local Open Scope nat_scope.
Local Open Scope list_scope.

(** *** [disconnect] *)

(** The listeners leave the connection and the callback slots alone, and
    call no callback that is not registered. *)
Lemma handlers_keep (s : TranscriptionService) (ev : LiveTranscriptionEvents) :
  connection (fst (handlers s ev)) = connection s
  /\ onTranscriptCallback (fst (handlers s ev)) = onTranscriptCallback s
  /\ onErrorCallback (fst (handlers s ev)) = onErrorCallback s
  /\ (onTranscriptCallback s = false ->
      forall r, ~ In (TranscriptCallback r) (snd (handlers s ev)))
  /\ (onErrorCallback s = false ->
      forall m, ~ In (ErrorCallback m) (snd (handlers s ev))).
Proof.
  destruct ev as [|data| |err|code reason]; unfold handlers; simpl.
  - repeat split; auto; intros _ x [K|[]]; discriminate.
  - unfold on_Transcript. destruct (alt_transcript data) as [text|];
      [destruct (truthy text); simpl|].
    + repeat split; auto.
      * intros ->. simpl. auto.
      * intros _ m. destruct (onTranscriptCallback s); simpl; intuition discriminate.
    + repeat split; auto.
    + repeat split; auto.
  - repeat split; auto; intros _ x [K|[]]; discriminate.
  - unfold on_Error. repeat split; auto.
    + intros _ r. destruct (onErrorCallback s); simpl; intuition discriminate.
    + intros ->. simpl. intuition discriminate.
  - repeat split; auto.
    + intros _ r. destruct (truthy_code code) as [c|]; simpl;
        [destruct (negb (c =? 1000)%Z); [destruct (onErrorCallback s)|]|];
        simpl; intuition discriminate.
    + intros -> m. destruct (truthy_code code) as [c|]; simpl;
        [destruct (negb (c =? 1000)%Z)|]; simpl; intuition discriminate.
Qed.

Lemma deliver_keep (evs : list LiveTranscriptionEvents) (s : TranscriptionService) :
  connection (fst (deliver s evs)) = connection s
  /\ (onTranscriptCallback s = false -> onErrorCallback s = false ->
      forall e, In e (snd (deliver s evs)) ->
                match e with
                | TranscriptCallback _ | ErrorCallback _ => False
                | _ => True
                end).
Proof.
  revert s. induction evs as [|ev evs IH]; intros s; simpl.
  - split; [reflexivity|]. intros _ _ e [].
  - pose proof (handlers_keep s ev) as (K1 & K2 & K3 & K4 & K5).
    destruct (handlers s ev) as [s1 es1]. simpl in *.
    destruct (IH s1) as [J1 J2].
    destruct (deliver s1 evs) as [s2 es2]. simpl in *.
    split; [congruence|].
    intros Ht He e Hin. apply in_app_or in Hin. destruct Hin as [Hin|Hin].
    + destruct e; auto.
      * exact (K4 Ht _ Hin).
      * exact (K5 He _ Hin).
    + apply J2; congruence.
Qed.

(** X5.  [disconnect] is final and can be repeated.  A second
    [disconnect] changes nothing and sends nothing.  After a
    [disconnect], whatever endpoint events still arrive on the old
    connections, no callback is called and [sendAudio] keeps throwing
    "Not connected to transcription service" (a late [Open] event sets
    [isConnected] again, but the connection stays unset). *)
Theorem disconnect_is_final (s : TranscriptionService)
  (late : list LiveTranscriptionEvents) (audioData : audio) (send_throws : bool) :
  let closed := fst (disconnect s) in
  disconnect closed = (closed, [])
  /\ (forall e, In e (snd (deliver closed late)) ->
                match e with
                | TranscriptCallback _ | ErrorCallback _ => False
                | _ => True
                end)
  /\ sendAudio (fst (deliver closed late)) audioData send_throws
     = (Throws "Not connected to transcription service", []).
Proof.
  intros closed. split; [reflexivity|].
  destruct (deliver_keep late closed) as [K1 K2]. split.
  - apply K2; reflexivity.
  - unfold sendAudio. rewrite K1. simpl.
    destruct (isConnected (fst (deliver closed late))); reflexivity.
Qed.

(** *** A call of [connect] that returns *)

Lemma catch_at_phase_not_awaiting (err : js_error) (st : connecting) :
  held_inv (catch err st).
Proof. intros c P. elim (catch_not_awaiting _ _ _ P). Qed.

Lemma step_held_inv (live : live_oracle) (st : connecting) (ev : event) :
  held_inv st -> held_inv (step live st ev).
Proof.
  intros I. destruct ev as [c ev|c|]; cbn [step].
  - destruct (c <? created (service st)); [|exact I].
    pose proof (handlers_keep (service st) ev) as (K1 & _).
    destruct (handlers (service st) ev) as [s es]. simpl in K1.
    assert (I1 : held_inv (emit es (set_service s st))).
    { intros c' P. simpl in *. destruct (I c' P) as [A B].
      split; [congruence | apply in_or_app; now left]. }
    destruct (awaiting c st); [|exact I1].
    destruct ev as [|data| |err|code reason]; try exact I1.
    + intros c' P. discriminate.
    + apply catch_at_phase_not_awaiting.
  - destruct (awaiting c st); [apply catch_at_phase_not_awaiting|exact I].
  - destruct (at_phase st) eqn:P; try exact I.
    unfold loop. destruct (attempts st <? maxAttempts).
    + destruct (live (attempts st)).
      * apply catch_at_phase_not_awaiting.
      * intros c' P'. simpl in *. injection P' as <-.
        split; [reflexivity|]. apply in_or_app. right. now left.
    + intros c' P'. rewrite surface_failure_phase in P'. discriminate.
Qed.

Lemma connect_held_inv (live : live_oracle) (s : TranscriptionService) :
  held_inv (connect live s).
Proof.
  unfold connect. destruct (isConnected s); [intros c P; discriminate|].
  unfold loop. simpl. destruct (live 0).
  - apply catch_at_phase_not_awaiting.
  - intros c P. simpl in *. injection P as <-.
    split; [reflexivity|]. now left.
Qed.

Lemma run_suspended_settled (live : live_oracle) (evs : list event)
  (st : connecting) :
  timer_due st = None -> run_suspended live st evs = st.
Proof. intros H. destruct evs; simpl; [reflexivity|now rewrite H]. Qed.

Lemma settle_settled (live : live_oracle) (fuel : nat) (st : connecting) :
  timer_due st = None -> settle live fuel st = st.
Proof. intros H. destruct fuel; simpl; [reflexivity|now rewrite H]. Qed.

(** The deliveries of a suspended call end at the one that resolves it. *)
Lemma run_suspended_resolved (live : live_oracle) (evs : list event)
  (st : connecting) :
  held_inv st -> at_phase st <> Resolved ->
  at_phase (run_suspended live st evs) = Resolved ->
  isConnected (service (run_suspended live st evs)) = true
  /\ exists c, connection (service (run_suspended live st evs)) = Some c
               /\ In (ListenLive (Some c)) (effects (run_suspended live st evs))
               /\ In (Endpoint c Open) evs.
Proof.
  revert st. induction evs as [|ev evs IH]; intros st I N R; simpl in *;
    [contradiction|].
  destruct (timer_due st) eqn:T; [|contradiction].
  destruct (at_phase (step live st ev)) as [c0| | |msg0] eqn:P.
  1, 2, 4: destruct (IH (step live st ev)) as (A & c & B & C & D);
    [apply step_held_inv, I | rewrite P; discriminate | exact R|];
    split; [exact A|]; exists c; auto.
  destruct (step_resolved live st ev P) as [K|(c & -> & K)]; [contradiction|].
  rewrite run_suspended_settled by (unfold timer_due; now rewrite P).
  destruct (I c K) as [Hc Hl].
  revert P. cbn [step].
  destruct (c <? created (service st)); [|intros P; congruence].
  unfold awaiting. rewrite K, Nat.eqb_refl.
  unfold handlers. simpl. intros _. split; [reflexivity|].
  exists c. repeat split; auto.
  - apply in_or_app. now left.
Qed.

Lemma connect_call_resolved (live : live_oracle) (s : TranscriptionService)
  (evs : list event) :
  at_phase (connect_call live s evs) = Resolved ->
  connect_call live s evs = run_suspended live (connect live s) evs.
Proof.
  unfold connect_call. intros R.
  destruct (settle_run live 5 (run_suspended live (connect live s) evs))
    as (timers & E & F).
  rewrite E in R. destruct (run_resolved _ _ _ R) as [K|(b & c & a & -> & _)].
  - apply settle_settled. unfold timer_due. now rewrite K.
  - rewrite Forall_forall in F. elim (F (Endpoint c Open)).
    apply in_or_app. right. now left.
Qed.

(** X6.  A call of [connect()] that returns leaves the session ready to
    send.  If the service was not connected and the call has returned,
    then an [Open] event arrived on a connection that [listen.live]
    returned during this call; the service holds that connection,
    [isConnected] is true, and [sendAudio] forwards to it exactly the
    linear16 encoding of the frame. *)
Theorem connect_then_send (live : live_oracle) (s : TranscriptionService)
  (evs : list event) (samples : list JSNumber.number) :
  isConnected s = false ->
  at_phase (connect_call live s evs) = Resolved ->
  exists c,
    In (Endpoint c Open) evs
    /\ In (ListenLive (Some c)) (effects (connect_call live s evs))
    /\ connection (service (connect_call live s evs)) = Some c
    /\ isConnected (service (connect_call live s evs)) = true
    /\ sendAudio (service (connect_call live s evs)) (Float32Array samples) false
       = (Returns tt, [Send c (Encoder.float32ToLinear16 samples)]).
Proof.
  intros Hs R. pose proof (connect_call_resolved live s evs R) as E.
  rewrite E in R |- *.
  destruct (connect_not_connected live s Hs) as [_ N].
  destruct (run_suspended_resolved live evs _ (connect_held_inv live s) N R)
    as (A & c & B & C & D).
  exists c. repeat split; auto.
  unfold sendAudio. now rewrite A, B.
Qed.

Lemma connect_then_send_witness :
  exists c,
    In (Endpoint c Open) retried_call
    /\ In (ListenLive (Some c))
         (effects (connect_call live_returns registered_service retried_call))
    /\ connection (service (connect_call live_returns registered_service retried_call))
       = Some c
    /\ isConnected (service (connect_call live_returns registered_service retried_call))
       = true
    /\ sendAudio (service (connect_call live_returns registered_service retried_call))
         (Float32Array [JSNumber.of_Z 1]) false
       = (Returns tt, [Send c (Encoder.float32ToLinear16 [JSNumber.of_Z 1])]).
Proof.
  exact (connect_then_send live_returns registered_service retried_call
           [JSNumber.of_Z 1] eq_refl eq_refl).
Defined.

(** *** A call of [connect] that nothing answers *)

Lemma step_quiet (live : live_oracle) (st : connecting) (ev : event) (c : nat) :
  quiet ev ->
  at_phase st = Awaiting c /\ attempts st = 0
  /\ connection_attempts (effects st) = 1
  /\ isConnected (service st) = false ->
  at_phase (step live st ev) = Awaiting c /\ attempts (step live st ev) = 0
  /\ connection_attempts (effects (step live st ev)) = 1
  /\ isConnected (service (step live st ev)) = false.
Proof.
  intros Q (P & A & C & I).
  destruct ev as [c' ev| |]; try contradiction. cbn [step].
  destruct (c' <? created (service st)); [|auto].
  pose proof (handlers_facts (service st) ev) as (H1 & _).
  assert (H2 : isConnected (fst (handlers (service st) ev)) = false).
  { destruct ev; try contradiction; unfold handlers; simpl; auto. }
  destruct (handlers (service st) ev) as [s1 es]. simpl in H1, H2.
  assert (K : at_phase (emit es (set_service s1 st)) = Awaiting c
              /\ attempts (emit es (set_service s1 st)) = 0
              /\ connection_attempts (effects (emit es (set_service s1 st))) = 1
              /\ isConnected (service (emit es (set_service s1 st))) = false).
  { simpl. rewrite connection_attempts_app, H1, C. auto. }
  destruct (awaiting c' st); [|exact K].
  destruct ev; try contradiction; exact K.
Qed.

Lemma run_suspended_quiet (live : live_oracle) (evs : list event)
  (st : connecting) (c : nat) :
  Forall quiet evs ->
  at_phase st = Awaiting c /\ attempts st = 0
  /\ connection_attempts (effects st) = 1
  /\ isConnected (service st) = false ->
  let st' := run_suspended live st evs in
  at_phase st' = Awaiting c /\ attempts st' = 0
  /\ connection_attempts (effects st') = 1
  /\ isConnected (service st') = false.
Proof.
  revert st. induction evs as [|ev evs IH]; intros st F H; simpl; [exact H|].
  inversion F as [|? ? Q F']; subst.
  destruct H as (P & H). unfold timer_due. rewrite P.
  apply IH; [exact F'|]. apply step_quiet; auto.
Qed.

(** X7.  Only an [Open] event, an [Error] event or the 10 s timer ends
    the wait of [connect()].  If the service is not connected,
    [listen.live] returns, and nothing but transcript, metadata and
    close events arrives (a close with code 1006 included), the call
    makes one attempt, does not retry, and throws "Failed to connect to
    transcription service: Connection timeout"; [isConnected] stays
    false. *)
Theorem connect_times_out (live : live_oracle) (s : TranscriptionService)
  (evs : list event) :
  isConnected s = false -> live 0 = None -> Forall quiet evs ->
  at_phase (connect_call live s evs)
  = Rejected "Failed to connect to transcription service: Connection timeout"
  /\ connection_attempts (effects (connect_call live s evs)) = 1
  /\ isConnected (service (connect_call live s evs)) = false.
Proof.
  intros Hs Hl F. unfold connect_call.
  assert (H0 : at_phase (connect live s) = Awaiting (created s)
               /\ attempts (connect live s) = 0
               /\ connection_attempts (effects (connect live s)) = 1
               /\ isConnected (service (connect live s)) = false).
  { unfold connect. rewrite Hs. unfold loop. simpl. rewrite Hl. simpl. auto. }
  destruct (run_suspended_quiet live evs _ _ F H0) as (P & A & C & I).
  set (st := run_suspended live (connect live s) evs) in *.
  assert (E : settle live 5 st = catch (new_Error "Connection timeout") st).
  { change (settle live 5 st)
      with (match timer_due st with
            | Some ev => settle live 4 (step live st ev)
            | None => st
            end).
    unfold timer_due at 1. rewrite P. cbn [step].
    unfold awaiting. rewrite P, Nat.eqb_refl.
    apply settle_settled. unfold timer_due.
    rewrite (catch_final _ _ timeout_not_retryable). reflexivity. }
  rewrite E, (catch_final _ _ timeout_not_retryable). simpl.
  rewrite connection_attempts_app, C.
  destruct (onErrorCallback (service st)); auto.
Qed.

Lemma connect_times_out_witness :
  at_phase (connect_call live_returns registered_service
              [Endpoint 0 (Close (Some 1006%Z) None)])
  = Rejected "Failed to connect to transcription service: Connection timeout"
  /\ connection_attempts
       (effects (connect_call live_returns registered_service
                   [Endpoint 0 (Close (Some 1006%Z) None)])) = 1
  /\ isConnected
       (service (connect_call live_returns registered_service
                   [Endpoint 0 (Close (Some 1006%Z) None)])) = false.
Proof.
  apply (connect_times_out live_returns registered_service
           [Endpoint 0 (Close (Some 1006%Z) None)]);
    [reflexivity | reflexivity | repeat constructor].
Defined.

(** *** An [Error] event that ends a call *)

(** The [Error] listener rewords "Status:" and "401" also across white
    space that is not ASCII (here a no-break space). *)
Example userMessage_no_break_space :
  userMessage (new_Error ("Status:" ++ utf8 [194; 160]%nat ++ "401"))
  = "Authentication failed — check your Deepgram API key"
  /\ retryable (new_Error ("Status:" ++ utf8 [194; 160]%nat ++ "401")) = false.
Proof. split; reflexivity. Qed.

(** X8.  An [Error] event that ends the call reaches the error callback
    twice.  While [connect()] waits for a connection and an error
    callback is registered, an [Error] event on that connection whose
    message contains neither "1006" nor "Network error" has exactly
    these effects, in this order: the error is logged, the callback
    receives the message as the [Error] listener rewords it, and the
    callback receives the message of the error as it is. *)
Theorem connect_error_reported_twice (live : live_oracle)
  (s : TranscriptionService) (evs : list event) (c : nat) (err : js_error) :
  at_phase (run live (connect live s) evs) = Awaiting c ->
  onErrorCallback s = true ->
  retryable err = false ->
  effects (step live (run live (connect live s) evs) (Endpoint c (Error err)))
  = effects (run live (connect live s) evs)
    ++ [ConsoleError "Deepgram error:";
        ErrorCallback (userMessage err);
        ErrorCallback (or_else (message err) "Failed to connect to Deepgram")].
Proof.
  intros P Hcb R.
  pose proof (connect_awaiting_inv live s evs c P) as Cr.
  pose proof (run_inv s live evs _ (connect_inv live s)) as [_ (O & _)].
  set (st := run live (connect live s) evs) in *.
  cbn [step]. rewrite Cr.
  destruct (Nat.ltb_spec c (S c)) as [_|]; [|lia].
  unfold handlers, listeners, on_Error. rewrite O, Hcb.
  unfold awaiting. rewrite P, Nat.eqb_refl.
  rewrite (catch_final _ _ R). simpl. rewrite O, Hcb.
  now rewrite <- app_assoc.
Qed.

Lemma connect_error_reported_twice_witness :
  effects (step live_returns
             (run live_returns (connect live_returns registered_service) [])
             (Endpoint 0 (Error (new_Error "Status: 401"))))
  = [ListenLive (Some 0); SetTimeout 10000;
     ConsoleError "Deepgram error:";
     ErrorCallback "Authentication failed — check your Deepgram API key";
     ErrorCallback "Status: 401"].
Proof.
  exact (connect_error_reported_twice live_returns registered_service [] 0
           (new_Error "Status: 401") eq_refl eq_refl eq_refl).
Defined.

(** *** What a call of [connect] emits *)

Lemma or_else_truthy (a : option string) (b : string) :
  truthy b = true -> truthy (or_else a b) = true.
Proof.
  intros H. unfold or_else. destruct a as [x|]; [|exact H].
  destruct (truthy x) eqn:T; [exact T|exact H].
Qed.

Lemma userMessage_truthy (err : js_error) : truthy (userMessage err) = true.
Proof.
  unfold userMessage.
  repeat match goal with
         | |- context [if ?c then _ else _] => destruct c
         end; try reflexivity.
  now apply or_else_truthy.
Qed.

Lemma close_message_truthy (code : Z) (reason : option string) :
  truthy (close_message code reason) = true.
Proof. unfold close_message. destruct (code =? 1006)%Z; reflexivity. Qed.

Lemma handlers_emit (s : TranscriptionService) (ev : LiveTranscriptionEvents) :
  Forall connect_emits (snd (handlers s ev)).
Proof.
  destruct ev as [|data| |err|code reason]; unfold handlers; simpl.
  - repeat constructor.
  - unfold on_Transcript. destruct (alt_transcript data) as [text|];
      [destruct (truthy text && onTranscriptCallback s)|]; repeat constructor.
  - repeat constructor.
  - unfold on_Error. destruct (onErrorCallback s); repeat constructor.
    apply userMessage_truthy.
  - destruct (truthy_code code) as [c|];
      [destruct (negb (c =? 1000)%Z); [destruct (onErrorCallback s)|]|];
      repeat constructor.
    apply close_message_truthy.
Qed.

Lemma surface_failure_emit (st : connecting) :
  Forall connect_emits (effects st) ->
  Forall connect_emits (effects (surface_failure st)).
Proof.
  intros H. rewrite surface_failure_eq. simpl. apply Forall_app. split; [exact H|].
  destruct (onErrorCallback (service st)); repeat constructor.
  now apply or_else_truthy.
Qed.

Lemma catch_emit (err : js_error) (st : connecting) :
  Forall connect_emits (effects st) ->
  Forall connect_emits (effects (catch err st)).
Proof.
  intros H. unfold catch. destruct (retryable err).
  - simpl. apply Forall_app. split; [exact H|]. repeat constructor.
  - apply surface_failure_emit. exact H.
Qed.

Lemma loop_emit (live : live_oracle) (st : connecting) :
  Forall connect_emits (effects st) ->
  Forall connect_emits (effects (loop live st)).
Proof.
  intros H. unfold loop. destruct (attempts st <? maxAttempts).
  - destruct (live (attempts st)).
    + apply catch_emit. simpl. apply Forall_app. split; [exact H|].
      repeat constructor.
    + simpl. apply Forall_app. split; [exact H|]. repeat constructor.
  - apply surface_failure_emit, H.
Qed.

Lemma step_emit (live : live_oracle) (st : connecting) (ev : event) :
  Forall connect_emits (effects st) ->
  Forall connect_emits (effects (step live st ev)).
Proof.
  intros H. destruct ev as [c ev|c|]; cbn [step].
  - destruct (c <? created (service st)); [|exact H].
    pose proof (handlers_emit (service st) ev) as K.
    destruct (handlers (service st) ev) as [s1 es]. simpl in K.
    assert (H1 : Forall connect_emits (effects (emit es (set_service s1 st))))
      by (simpl; apply Forall_app; auto).
    destruct (awaiting c st); [|exact H1].
    destruct ev as [|data| |err|code reason]; try exact H1.
    apply catch_emit, H1.
  - destruct (awaiting c st); [apply catch_emit, H|exact H].
  - destruct (at_phase st); try exact H. apply loop_emit, H.
Qed.

Lemma run_emit (live : live_oracle) (evs : list event) (st : connecting) :
  Forall connect_emits (effects st) ->
  Forall connect_emits (effects (run live st evs)).
Proof.
  revert st. induction evs as [|ev evs IH]; intros st H; simpl; [exact H|].
  apply IH, step_emit, H.
Qed.

Lemma connect_emit (live : live_oracle) (s : TranscriptionService) :
  Forall connect_emits (effects (connect live s)).
Proof.
  unfold connect. destruct (isConnected s).
  - repeat constructor.
  - apply loop_emit. constructor.
Qed.

(** X9.  [connect()] never sends audio and never finishes a connection:
    whatever is delivered during the call, its effects contain no
    [send] and no [finish]; a connection that failed or timed out is
    left as it is when the next one is made. *)
Theorem connect_never_sends_or_finishes (live : live_oracle)
  (s : TranscriptionService) (evs : list event) :
  (forall c audioBuffer,
      ~ In (Send c audioBuffer) (effects (run live (connect live s) evs)))
  /\ (forall c, ~ In (Finish c) (effects (run live (connect live s) evs))).
Proof.
  pose proof (run_emit live evs _ (connect_emit live s)) as F.
  rewrite Forall_forall in F.
  split; intros; intros K; exact (F _ K).
Qed.

(** X10.  No message handed to the error callback is empty: during a
    call of [connect()], whatever is delivered, every message the
    service passes to the error callback (from the [Error] listener,
    from the [Close] listener, or when the call is abandoned) is a
    non-empty string. *)
Theorem error_messages_are_not_empty (live : live_oracle)
  (s : TranscriptionService) (evs : list event) (msg : string) :
  In (ErrorCallback msg) (effects (run live (connect live s) evs)) ->
  msg <> "".
Proof.
  intros K. pose proof (run_emit live evs _ (connect_emit live s)) as F.
  rewrite Forall_forall in F. specialize (F _ K). simpl in F.
  intros ->. discriminate.
Qed.

Lemma error_messages_are_not_empty_witness :
  "socket closed (1006)" <> "".
Proof.
  apply (error_messages_are_not_empty live_returns registered_service
           retried_call).
  vm_compute. tauto.
Defined.

(** *** The probe *)

Lemma probe_fold_some (r : ProbeResult) (evs : list probe_event) :
  fold_left (fun fin ev => probe_finish fin (probe_result ev)) evs (Some r)
  = Some r.
Proof. induction evs as [|ev evs IH]; simpl; auto. Qed.

(** X11.  The first event decides a probe.  [probeConnection] reports
    success exactly when [listen.live] returned and the first thing
    that happened to the probe connection is an [Open] event; whatever
    comes after the first event changes nothing (an [Open] after a
    close or after the timer does not turn the failure into a
    success). *)
Theorem probe_first_event_decides :
  (forall live_throws evs,
      success (probeConnection live_throws evs) = true
      <-> live_throws = None /\ exists rest, evs = ProbeOpen :: rest)
  /\ (forall ev rest,
        probeConnection None (ev :: rest) = probeConnection None [ev]).
Proof.
  split.
  - intros l evs. split.
    + destruct l as [err|]; [discriminate|].
      destruct evs as [|ev rest]; [discriminate|].
      unfold probeConnection. simpl. rewrite probe_fold_some.
      destruct ev; try discriminate. eauto.
    + intros [-> [rest ->]]. unfold probeConnection. simpl.
      now rewrite probe_fold_some.
  - intros ev rest. unfold probeConnection. simpl.
    now rewrite probe_fold_some.
Qed.

Lemma probe_counting_some (r : ProbeResult) (n : nat) (evs : list probe_event) :
  fold_left (fun st ev => probe_finish_counting st (probe_result ev)) evs
    (Some r, n)
  = (Some r, n).
Proof. induction evs as [|ev evs IH]; simpl; auto. Qed.

(** X12.  A probe tears its connection down exactly once.  With the
    calls of [probeConn.finish()] counted, [probeConnection] gives the
    same result, and the count is 1 on every path on which
    [listen.live] returned (success, error, close, timer, any number of
    events) and 0 when [listen.live] threw. *)
Theorem probe_tears_down_once (live_throws : option js_error)
  (evs : list probe_event) :
  fst (probeConnection_counting live_throws evs)
  = probeConnection live_throws evs
  /\ snd (probeConnection_counting live_throws evs)
     = match live_throws with
       | Some _ => 0
       | None => 1
       end.
Proof.
  unfold probeConnection_counting, probeConnection.
  destruct live_throws as [err|]; [auto|].
  destruct evs as [|ev rest]; [auto|].
  cbn [fold_left].
  change (probe_finish None (probe_result ev)) with (Some (probe_result ev)).
  rewrite probe_fold_some.
  change (probe_finish_counting (None, 0) (probe_result ev))
    with (Some (probe_result ev), 1).
  rewrite probe_counting_some. auto.
Qed.

End SessionMore.

(** ** The capture source *)

Module CaptureFacts.
Import Transcription Invariants.
Import AudioCapture.

Local Open Scope list_scope.

Lemma cleanup_new (a : AudioCaptureService) : cleanup a = new_AudioCaptureService.
Proof. destruct a as [[] [] [] [] []]; reflexivity. Qed.

(** X13.  [cleanup] releases everything, whatever the state: after it
    the service is as newly constructed, a second [cleanup] changes
    nothing, and [startRecording] throws until the microphone has been
    requested again. *)
Theorem cleanup_releases_everything (a : AudioCaptureService) :
  cleanup a = new_AudioCaptureService
  /\ cleanup (cleanup a) = cleanup a
  /\ startRecording (cleanup a)
     = Throws "Media stream not initialized. Call requestMicrophoneAccess() first."
  /\ getRecordingState (cleanup a) = false.
Proof. rewrite !cleanup_new. repeat split. Qed.

Lemma capture_act_inv (a : AudioCaptureService) (call : capture_call) :
  capture_inv a -> capture_inv (capture_act a call).
Proof.
  intros I. destruct call as [granted| | |]; cbn [capture_act].
  - unfold requestMicrophoneAccess. destruct granted; [|exact I].
    intros R. simpl in *. destruct (I R) as (_ & B & C & D). auto.
  - unfold startRecording. destruct (mediaStream a) eqn:M; simpl; [|exact I].
    destruct (isRecording a) eqn:R; [exact I|].
    intros _. simpl. auto.
  - unfold stopRecording. destruct (isRecording a) eqn:R; simpl.
    + intros K. discriminate.
    + exact I.
  - rewrite cleanup_new. intros K. discriminate.
Qed.

Lemma capture_after_inv (calls : list capture_call) :
  capture_inv (capture_after calls).
Proof.
  unfold capture_after.
  assert (I0 : capture_inv new_AudioCaptureService) by (intros K; discriminate).
  revert I0. generalize new_AudioCaptureService.
  induction calls as [|call calls IH]; intros a I; simpl; [exact I|].
  apply IH, capture_act_inv, I.
Qed.

(** X14.  After any sequence of calls on a capture service, if it is
    recording then it holds the media stream, the audio context, the
    script processor and the frame callback. *)
Theorem recording_holds_resources (calls : list capture_call) :
  getRecordingState (capture_after calls) = true ->
  mediaStream (capture_after calls) = true
  /\ audioContext (capture_after calls) = true
  /\ scriptProcessor (capture_after calls) = true
  /\ onDataAvailableCallback (capture_after calls) = true.
Proof. apply capture_after_inv. Qed.

Lemma recording_holds_resources_witness :
  mediaStream (capture_after [CallRequestAccess true; CallStart; CallStop; CallStart])
  = true
  /\ audioContext
       (capture_after [CallRequestAccess true; CallStart; CallStop; CallStart])
     = true
  /\ scriptProcessor
       (capture_after [CallRequestAccess true; CallStart; CallStop; CallStart])
     = true
  /\ onDataAvailableCallback
       (capture_after [CallRequestAccess true; CallStart; CallStop; CallStart])
     = true.
Proof.
  exact (recording_holds_resources
           [CallRequestAccess true; CallStart; CallStop; CallStart] eq_refl).
Defined.

(** X15.  No recording without a granted microphone: after any
    sequence of calls none of which is a granted request, the service
    holds no media stream, is not recording, and [startRecording]
    throws. *)
Theorem no_recording_without_access (calls : list capture_call) :
  (forall call, In call calls -> ~ grants call) ->
  mediaStream (capture_after calls) = false
  /\ getRecordingState (capture_after calls) = false
  /\ startRecording (capture_after calls)
     = Throws "Media stream not initialized. Call requestMicrophoneAccess() first.".
Proof.
  intros H.
  assert (K : mediaStream (capture_after calls) = false
              /\ isRecording (capture_after calls) = false).
  { unfold capture_after.
    assert (I0 : mediaStream new_AudioCaptureService = false
                 /\ isRecording new_AudioCaptureService = false) by auto.
    revert I0 H. generalize new_AudioCaptureService.
    induction calls as [|call calls IH]; intros a I H; simpl; [exact I|].
    apply IH; [|intros c Hc; apply H; now right].
    destruct I as [M R].
    destruct call as [[|]| | |]; cbn [capture_act].
    - elim (H (CallRequestAccess true)); [now left|exact I].
    - simpl. auto.
    - unfold startRecording. rewrite M. simpl. auto.
    - unfold stopRecording. rewrite R. simpl. auto.
    - rewrite cleanup_new. auto. }
  destruct K as [M R]. repeat split; auto.
  unfold startRecording. now rewrite M.
Qed.

Lemma no_recording_without_access_witness :
  mediaStream (capture_after [CallRequestAccess false; CallStart]) = false
  /\ getRecordingState (capture_after [CallRequestAccess false; CallStart]) = false
  /\ startRecording (capture_after [CallRequestAccess false; CallStart])
     = Throws "Media stream not initialized. Call requestMicrophoneAccess() first.".
Proof.
  apply (no_recording_without_access [CallRequestAccess false; CallStart]).
  intros call [<-|[<-|[]]]; exact (fun K => K).
Defined.

End CaptureFacts.

(** ** The orchestrator: initialisation, idle states, stopping, the
       transcript of a session *)

Module HookMore.
Import JSString Transcription UseVoiceToText Scenarios Invariants.
Import ConnectFacts RetryFacts HookFacts SessionMore.

Local Open Scope nat_scope.
Local Open Scope list_scope.

(** *** [initialize] *)

Lemma validateApiKey_cases (probe nativeProbe : ProbeResult) :
  (success probe = true \/ success nativeProbe = true ->
   validateApiKey probe nativeProbe = Returns tt)
  /\ (success probe = false -> success nativeProbe = false ->
      exists msg, validateApiKey probe nativeProbe = Throws msg).
Proof.
  unfold validateApiKey. split.
  - intros [H|H]; rewrite H; [reflexivity|].
    destruct (success probe); reflexivity.
  - intros -> ->. destruct (is_auth_msg _); [eauto|].
    destruct (is_timeout_msg _ || _); eauto.
Qed.

(** X16.  The first [initialize()] of a hook ends ready exactly when
    the microphone was granted, the key is not empty and one of the two
    probes succeeded.  Otherwise [isReady] is false and [error] holds a
    message.  In both cases [isProcessing] is false at the end. *)
Theorem first_initialize_ready_iff (deepgramApiKey : string) (granted : bool)
  (probe nativeProbe : ProbeResult) :
  let h := initialize initial deepgramApiKey granted probe nativeProbe in
  (isReady (state h) = true
   <-> granted = true /\ truthy deepgramApiKey = true
       /\ (success probe = true \/ success nativeProbe = true))
  /\ (isReady (state h) = false -> exists msg, error (state h) = Some msg)
  /\ isProcessing (state h) = false.
Proof.
  unfold initialize, constructor. simpl.
  destruct (validateApiKey_cases probe nativeProbe) as [V1 V2].
  destruct granted; simpl;
    [|repeat split; try discriminate; eauto; intros (K & _); discriminate].
  destruct (truthy deepgramApiKey) eqn:T; simpl;
    [|repeat split; try discriminate; eauto; intros (_ & K & _); discriminate].
  destruct (success probe) eqn:Sp.
  - rewrite V1 by auto. simpl. repeat split; auto; discriminate.
  - destruct (success nativeProbe) eqn:Sn.
    + rewrite V1 by auto. simpl. repeat split; auto; discriminate.
    + destruct (V2 eq_refl eq_refl) as [msg ->]. simpl.
      repeat split; try discriminate; eauto.
      intros (_ & _ & [K|K]); discriminate.
Qed.

(** X17.  Once both services exist, [initialize()] neither replaces nor
    validates them: whatever key it is given, whatever the microphone
    and the probes answer, it keeps the two services as they are,
    clears [error] and sets [isReady]. *)
Theorem initialize_keeps_services (h : Hook)
  (a : AudioCapture.AudioCaptureService) (s : TranscriptionService)
  (deepgramApiKey : string) (granted : bool) (probe nativeProbe : ProbeResult) :
  audioServiceRef h = Some a -> transcriptionServiceRef h = Some s ->
  let h' := initialize h deepgramApiKey granted probe nativeProbe in
  audioServiceRef h' = Some a
  /\ transcriptionServiceRef h' = Some s
  /\ isReady (state h') = true
  /\ error (state h') = None
  /\ transcript (state h') = transcript (state h).
Proof.
  intros Ha Hs. unfold initialize.
  cbn [setState audioServiceRef transcriptionServiceRef state].
  rewrite Ha, Hs. simpl. auto.
Qed.

(** The theorem after a first [initialize()] whose two probes failed:
    a second one, with an empty key and two failed probes again, ends
    ready with the service made for the first key. *)
Lemma initialize_keeps_services_witness :
  let h' := initialize not_ready "" false probe_closed probe_closed in
  audioServiceRef h' = audioServiceRef not_ready
  /\ transcriptionServiceRef h' = Some registered_service
  /\ isReady (state h') = true
  /\ error (state h') = None
  /\ transcript (state h') = transcript (state not_ready).
Proof.
  exact (initialize_keeps_services not_ready _ registered_service
           "" false probe_closed probe_closed eq_refl eq_refl).
Defined.

(** *** Between two calls *)

Lemma reduce_all_idle (es : list effect) (st : VoiceToTextState) :
  (isProcessing st = false -> isProcessing (reduce_all es st) = false)
  /\ (isRecording (reduce_all es st) = true -> isRecording st = true).
Proof.
  revert st. induction es as [|e es IH]; intros st; simpl; [auto|].
  destruct (IH (reduce st e)) as [A B]. split.
  - intros H. apply A. destruct e; simpl; auto.
    unfold transcript_updater. destruct (isFinal result); exact H.
  - intros H. apply B in H. destruct e; simpl in H; auto.
    + unfold transcript_updater in H. destruct (isFinal result); exact H.
    + discriminate.
Qed.

Lemma endpoint_event_idle (h : Hook) (c : nat) (ev : LiveTranscriptionEvents) :
  idle_inv h -> idle_inv (endpoint_event h c ev).
Proof.
  intros [P R]. unfold endpoint_event.
  destruct (transcriptionServiceRef h) as [s|]; [|split; assumption].
  destruct (c <? created s); [|split; assumption].
  destruct (handlers s ev) as [s' es].
  destruct (reduce_all_idle es (state h)) as [A B].
  split; simpl; auto.
Qed.

Lemma endpoint_events_idle (evs : list (nat * LiveTranscriptionEvents)) (h : Hook) :
  idle_inv h -> idle_inv (endpoint_events h evs).
Proof.
  revert h. induction evs as [|[c ev] evs IH]; intros h I; simpl; [exact I|].
  apply IH, endpoint_event_idle, I.
Qed.

Lemma capture_started (a a' : AudioCapture.AudioCaptureService) :
  AudioCapture.startRecording a = Returns a' -> AudioCapture.isRecording a' = true.
Proof.
  unfold AudioCapture.startRecording.
  destruct (negb (AudioCapture.mediaStream a)); [discriminate|].
  destruct (AudioCapture.isRecording a) eqn:R; intros E; injection E as <-; auto.
Qed.

Lemma act_idle (h : Hook) (a : action) : idle_inv h -> idle_inv (act h a).
Proof.
  intros [P R]. destruct a; cbn [act].
  - (* initialize *)
    unfold initialize.
    cbn [setState audioServiceRef transcriptionServiceRef state].
    destruct (audioServiceRef h) as [a|] eqn:A.
    + destruct (transcriptionServiceRef h) as [s|];
        [|destruct (constructor deepgramApiKey);
          [destruct (validateApiKey probe nativeProbe)|]];
        (split; [reflexivity|exact R]).
    + assert (N : isRecording (state h) = false).
      { destruct (isRecording (state h)); [|reflexivity].
        destruct (R eq_refl) as (a & K & _). discriminate. }
      destruct granted; simpl;
        [destruct (transcriptionServiceRef h) as [s|];
         [|destruct (constructor deepgramApiKey);
           [destruct (validateApiKey probe nativeProbe)|]]|];
        (split; [reflexivity|simpl; rewrite N; discriminate]).
  - (* validateApiKey *)
    unfold validateApiKey_hook.
    destruct (transcriptionServiceRef h); [|split; assumption].
    destruct (validateApiKey probe nativeProbe); (split; [reflexivity|exact R]).
  - (* runDiagnostics *)
    unfold runDiagnostics.
    destruct (transcriptionServiceRef h); split; auto.
  - (* startRecording *)
    unfold startRecording.
    destruct (audioServiceRef h) as [a|] eqn:A; [|split; simpl; [assumption|rewrite A; assumption]].
    destruct (transcriptionServiceRef h) as [s|] eqn:T;
      [|split; simpl; [assumption|rewrite A; assumption]].
    destruct (connect_settles live s evs) as [S|[msg S]]; rewrite S.
    + destruct (AudioCapture.startRecording a) as [a'|msg] eqn:E; simpl.
      * split; [reflexivity|]. intros _. exists a'. split; [reflexivity|].
        exact (capture_started a a' E).
      * split; [reflexivity|discriminate].
    + simpl. split; [reflexivity|discriminate].
  - (* stopRecording *)
    unfold stopRecording.
    destruct (audioServiceRef h) as [a|] eqn:A;
      [|split; [assumption|rewrite A; assumption]].
    destruct (transcriptionServiceRef h) as [s|] eqn:T;
      [|split; [assumption|rewrite A; assumption]].
    cbn [setState audioServiceRef transcriptionServiceRef state]. rewrite T.
    set (h1 := {| state := set_processing true (state h);
                  audioServiceRef := Some (AudioCapture.stopRecording a);
                  transcriptionServiceRef := Some s |}).
    destruct (endpoint_events_refs trailing h1) as [_ R2].
    destruct (transcriptionServiceRef (endpoint_events h1 trailing)) as [s2|];
      [|elim R2; [discriminate|reflexivity]].
    destruct disconnect_throws as [msg|];
      [destruct (connection s2)|]; (split; [reflexivity|discriminate]).
  - (* clearTranscript *)
    split; assumption.
  - (* copyToClipboard *)
    unfold copyToClipboard.
    destruct (negb (truthy (transcript (state h)))); [split; assumption|].
    destruct write_fails; split; assumption.
  - apply endpoint_event_idle. split; assumption.
Qed.

Lemma after_idle (history : list action) : idle_inv (after history).
Proof.
  unfold after.
  assert (I0 : idle_inv initial) by (split; [reflexivity|discriminate]).
  revert I0. generalize initial.
  induction history as [|a history IH]; intros h I; simpl; [exact I|].
  apply IH, act_idle, I.
Qed.

(** X18.  No call leaves the hook processing: after any history of
    completed calls and endpoint events, [isProcessing] is false. *)
Theorem never_left_processing (history : list action) :
  isProcessing (state (after history)) = false.
Proof. apply after_idle. Qed.

(** X19.  The hook reports a recording only while the capture service
    records: after any history, if [isRecording] is true then the
    capture service exists and is recording. *)
Theorem recording_implies_capture (history : list action) :
  isRecording (state (after history)) = true ->
  exists a, audioServiceRef (after history) = Some a
            /\ AudioCapture.isRecording a = true.
Proof. apply after_idle. Qed.

Lemma recording_implies_capture_witness :
  exists a, audioServiceRef (after hearing) = Some a
            /\ AudioCapture.isRecording a = true.
Proof. exact (recording_implies_capture hearing eq_refl). Defined.

(** *** [stopRecording] *)

Lemma capture_stopped (a : AudioCapture.AudioCaptureService) :
  AudioCapture.isRecording (AudioCapture.stopRecording a) = false.
Proof.
  unfold AudioCapture.stopRecording.
  destruct (AudioCapture.isRecording a) eqn:R; simpl; auto.
Qed.

(** X20.  [stopRecording()] closes the session for good.  When both
    services exist and [disconnect] does not throw, then whatever
    arrives during the wait of [finish]: the hook is neither recording
    nor processing, [interimTranscript] is empty, the capture service is
    not recording, the session has no connection, is not connected and
    has no callbacks; a frame the capture source would still deliver is
    not sent. *)
Theorem stopRecording_closes (h : Hook)
  (a : AudioCapture.AudioCaptureService) (s : TranscriptionService)
  (trailing : list (nat * LiveTranscriptionEvents))
  (audioChunk : list JSNumber.number) (send_throws : bool) :
  audioServiceRef h = Some a -> transcriptionServiceRef h = Some s ->
  let h' := stopRecording h trailing None in
  isRecording (state h') = false
  /\ isProcessing (state h') = false
  /\ interimTranscript (state h') = ""
  /\ option_map AudioCapture.isRecording (audioServiceRef h') = Some false
  /\ (exists s', transcriptionServiceRef h' = Some s'
                 /\ connection s' = None /\ isConnected s' = false
                 /\ onTranscriptCallback s' = false
                 /\ onErrorCallback s' = false)
  /\ audio_chunk h' audioChunk send_throws = [ConsoleError "Failed to send audio:"].
Proof.
  intros Ha Hs. unfold stopRecording. rewrite Ha, Hs.
  cbn [setState audioServiceRef transcriptionServiceRef state]. rewrite Hs.
  set (h1 := {| state := set_processing true (state h);
                audioServiceRef := Some (AudioCapture.stopRecording a);
                transcriptionServiceRef := Some s |}).
  destruct (endpoint_events_refs trailing h1) as [R1 R2].
  destruct (transcriptionServiceRef (endpoint_events h1 trailing)) as [s2|];
    [|elim R2; [discriminate|reflexivity]].
  cbv zeta. cbn [state audioServiceRef transcriptionServiceRef].
  rewrite R1.
  unfold h1. cbn [audioServiceRef option_map]. rewrite capture_stopped.
  repeat split. eexists. repeat split.
Qed.

Lemma stopRecording_closes_witness :
  let h' := stopRecording (after hearing) [] None in
  isRecording (state h') = false
  /\ isProcessing (state h') = false
  /\ interimTranscript (state h') = ""
  /\ option_map AudioCapture.isRecording (audioServiceRef h') = Some false
  /\ (exists s', transcriptionServiceRef h' = Some s'
                 /\ connection s' = None /\ isConnected s' = false
                 /\ onTranscriptCallback s' = false
                 /\ onErrorCallback s' = false)
  /\ audio_chunk h' [JSNumber.of_Z 1] false = [ConsoleError "Failed to send audio:"].
Proof.
  exact (stopRecording_closes (after hearing) _ _ [] [JSNumber.of_Z 1] false
           eq_refl eq_refl).
Defined.

(** *** [startRecording] without a microphone *)

(** X21.  When the capture cannot start, the session that was just
    opened stays open.  If both services exist, the microphone was
    never granted, the session was not connected and [connect()]
    returns, then [startRecording()] ends with the error "Media stream
    not initialized. Call requestMicrophoneAccess() first.", the hook
    is neither recording nor processing, and the service is left
    connected: [disconnect] is not called. *)
Theorem startRecording_without_microphone (h : Hook)
  (a : AudioCapture.AudioCaptureService) (s : TranscriptionService)
  (live : live_oracle) (evs : list event) :
  audioServiceRef h = Some a -> transcriptionServiceRef h = Some s ->
  AudioCapture.mediaStream a = false ->
  isConnected s = false ->
  at_phase (connect_call live s evs) = Resolved ->
  let h' := fst (startRecording h live evs) in
  error (state h')
  = Some "Media stream not initialized. Call requestMicrophoneAccess() first."
  /\ isRecording (state h') = false
  /\ isProcessing (state h') = false
  /\ audioServiceRef h' = Some a
  /\ (exists s' c, transcriptionServiceRef h' = Some s'
                   /\ isConnected s' = true /\ connection s' = Some c)
  /\ forall c, ~ In (Finish c) (snd (startRecording h live evs)).
Proof.
  intros Ha Hs Hm Hc R. unfold startRecording. rewrite Ha, Hs, R.
  unfold AudioCapture.startRecording. rewrite Hm. simpl.
  repeat split.
  - pose proof (connect_call_resolved live s evs R) as E.
    destruct (connect_not_connected live s Hc) as [_ N].
    rewrite E in R.
    destruct (run_suspended_resolved live evs _ (connect_held_inv live s) N R)
      as (A & c & B & _).
    exists (service (connect_call live s evs)), c. rewrite E. auto.
  - intros c K. unfold connect_call in K.
    destruct (settle_run live 5 (run_suspended live (connect live s) evs))
      as (timers & Et & _).
    destruct (run_suspended_run live evs (connect live s))
      as (delivered & rest & _ & Ed).
    rewrite Et, Ed, <- run_app in K.
    pose proof (run_emit live (delivered ++ timers) _ (connect_emit live s)) as F.
    rewrite Forall_forall in F. exact (F _ K).
Qed.

Lemma startRecording_without_microphone_witness :
  let h := initialize (initialize initial "key" false probe_ok probe_ok)
             "key" false probe_ok probe_ok in
  let h' := fst (startRecording h live_returns [Endpoint 0 Open]) in
  error (state h')
  = Some "Media stream not initialized. Call requestMicrophoneAccess() first."
  /\ isRecording (state h') = false
  /\ isProcessing (state h') = false
  /\ audioServiceRef h' = Some AudioCapture.new_AudioCaptureService
  /\ (exists s' c, transcriptionServiceRef h' = Some s'
                   /\ isConnected s' = true /\ connection s' = Some c)
  /\ forall c, ~ In (Finish c)
                  (snd (startRecording h live_returns [Endpoint 0 Open])).
Proof.
  exact (startRecording_without_microphone
           (initialize (initialize initial "key" false probe_ok probe_ok)
              "key" false probe_ok probe_ok)
           AudioCapture.new_AudioCaptureService registered_service
           live_returns [Endpoint 0 Open]
           eq_refl eq_refl eq_refl eq_refl eq_refl).
Defined.

(** *** The transcript of a session *)

Lemma string_app_assoc (a b c : string) :
  ((a ++ b) ++ c)%string = (a ++ b ++ c)%string.
Proof. induction a as [|x a IH]; simpl; [reflexivity|now rewrite IH]. Qed.

Lemma string_app_nil_r (a : string) : (a ++ "")%string = a.
Proof. induction a as [|x a IH]; simpl; [reflexivity|now rewrite IH]. Qed.

(** What one endpoint event adds to [transcript], on a service that has
    its transcript callback. *)
Lemma endpoint_event_transcript (h : Hook) (s : TranscriptionService)
  (c : nat) (ev : LiveTranscriptionEvents) :
  transcriptionServiceRef h = Some s -> onTranscriptCallback s = true ->
  c < created s ->
  transcript (state (endpoint_event h c ev))
  = (transcript (state h) ++ appended (final_texts [(c, ev)]))%string
  /\ exists s', transcriptionServiceRef (endpoint_event h c ev) = Some s'
                /\ onTranscriptCallback s' = true /\ created s' = created s.
Proof.
  intros Hs Hcb Hc. unfold endpoint_event. rewrite Hs.
  destruct (Nat.ltb_spec c (created s)) as [_|]; [|lia].
  pose proof (handlers_keep s ev) as (_ & K2 & _).
  pose proof (handlers_facts s ev) as (_ & _ & K3).
  split.
  - destruct ev as [|data| |err|code reason]; unfold handlers; simpl;
      try (now rewrite string_app_nil_r).
    + unfold on_Transcript. rewrite Hcb.
      destruct (alt_transcript data) as [text|];
        [|simpl; now rewrite string_app_nil_r].
      destruct (truthy text); simpl; [|now rewrite string_app_nil_r].
      unfold transcript_updater. simpl.
      destruct (is_final data); simpl; now rewrite string_app_nil_r.
    + unfold on_Error. destruct (onErrorCallback s); simpl;
        now rewrite string_app_nil_r.
    + destruct (truthy_code code) as [z|]; simpl;
        [destruct (negb (z =? 1000)%Z); [destruct (onErrorCallback s)|]|];
        simpl; now rewrite string_app_nil_r.
  - destruct (handlers s ev) as [s' es]. simpl in *.
    exists s'. repeat split; congruence.
Qed.

Lemma final_texts_cons (c : nat) (ev : LiveTranscriptionEvents)
  (evs : list (nat * LiveTranscriptionEvents)) :
  appended (final_texts ((c, ev) :: evs))
  = (appended (final_texts [(c, ev)]) ++ appended (final_texts evs))%string.
Proof.
  destruct ev as [|data| |err|code reason]; simpl; try reflexivity.
  destruct (alt_transcript data) as [text|]; [|reflexivity].
  destruct (truthy text && is_final data); [|reflexivity].
  simpl. now rewrite string_app_nil_r.
Qed.

(** X22.  The transcript of a session is the final results in order.
    On a hook whose service has its transcript callback, after any
    sequence of endpoint events on connections of the service,
    [transcript] is what it was before, followed, for each [Transcript]
    event that is final and has a text that is not empty, in order of
    arrival, by a space and that text.  Interim results, metadata,
    errors and closes add nothing and remove nothing. *)
Theorem transcript_is_the_finals (evs : list (nat * LiveTranscriptionEvents))
  (h : Hook) (s : TranscriptionService) :
  transcriptionServiceRef h = Some s -> onTranscriptCallback s = true ->
  Forall (fun cev => fst cev < created s) evs ->
  transcript (state (endpoint_events h evs))
  = (transcript (state h) ++ appended (final_texts evs))%string.
Proof.
  revert h s. induction evs as [|[c ev] evs IH]; intros h s Hs Hcb F.
  - simpl. now rewrite string_app_nil_r.
  - inversion F as [|? ? Hc F']; subst. simpl in Hc.
    destruct (endpoint_event_transcript h s c ev Hs Hcb Hc)
      as (E & s' & Hs' & Hcb' & Hcr).
    cbn [endpoint_events].
    rewrite (IH _ s' Hs' Hcb'); [|rewrite Hcr; exact F'].
    rewrite E, (final_texts_cons c ev evs), string_app_assoc. reflexivity.
Qed.

Lemma transcript_is_the_finals_witness :
  transcript
    (state (endpoint_events (after hearing)
              [(0, Transcript {| alt_transcript := Some "hello"; is_final := true;
                                 alt_confidence := None |});
               (0, empty_final);
               (0, Error (new_Error "Status: 401"));
               (0, Transcript {| alt_transcript := Some "world"; is_final := true;
                                 alt_confidence := None |})]))
  = " hello world".
Proof.
  refine (transcript_is_the_finals
            [(0, Transcript {| alt_transcript := Some "hello"; is_final := true;
                               alt_confidence := None |});
             (0, empty_final);
             (0, Error (new_Error "Status: 401"));
             (0, Transcript {| alt_transcript := Some "world"; is_final := true;
                               alt_confidence := None |})]
            (after hearing)
            {| connection := Some 0; isConnected := true;
               onTranscriptCallback := true; onErrorCallback := true;
               created := 1 |}
            eq_refl eq_refl _).
  repeat constructor.
Defined.

(** *** An error during a recording *)

(** X23.  An [Error] event during a recording stops only what the hook
    reports.  On a hook whose service has its error callback, an
    [Error] event on a connection of the service sets [error] to the
    reworded message and clears [isRecording] and [isProcessing]; the
    capture service, the connection and [isConnected] are as before, so
    a frame that was being forwarded is still forwarded. *)
Theorem error_event_stops_only_the_report (h : Hook)
  (s : TranscriptionService) (c : nat) (err : js_error)
  (audioChunk : list JSNumber.number) (send_throws : bool) :
  transcriptionServiceRef h = Some s -> onErrorCallback s = true ->
  c < created s ->
  let h' := endpoint_event h c (Error err) in
  error (state h') = Some (userMessage err)
  /\ isRecording (state h') = false
  /\ isProcessing (state h') = false
  /\ transcript (state h') = transcript (state h)
  /\ audioServiceRef h' = audioServiceRef h
  /\ transcriptionServiceRef h' = Some s
  /\ audio_chunk h' audioChunk send_throws = audio_chunk h audioChunk send_throws.
Proof.
  intros Hs Hcb Hc. unfold endpoint_event. rewrite Hs.
  destruct (Nat.ltb_spec c (created s)) as [_|]; [|lia].
  unfold handlers, listeners, on_Error. rewrite Hcb. simpl.
  repeat split. unfold audio_chunk. simpl. now rewrite Hs.
Qed.

Lemma error_event_stops_only_the_report_witness :
  let h' := endpoint_event (after hearing) 0 (Error (new_Error "Status: 401")) in
  error (state h') = Some "Authentication failed — check your Deepgram API key"
  /\ isRecording (state h') = false
  /\ isProcessing (state h') = false
  /\ transcript (state h') = transcript (state (after hearing))
  /\ audioServiceRef h' = audioServiceRef (after hearing)
  /\ transcriptionServiceRef h'
     = Some {| connection := Some 0; isConnected := true;
               onTranscriptCallback := true; onErrorCallback := true;
               created := 1 |}
  /\ audio_chunk h' [JSNumber.of_Z 1] false
     = audio_chunk (after hearing) [JSNumber.of_Z 1] false.
Proof.
  exact (error_event_stops_only_the_report (after hearing) _ 0
           (new_Error "Status: 401") [JSNumber.of_Z 1] false
           eq_refl eq_refl (le_n 1)).
Defined.

(** *** Once ready *)

Lemma reduce_all_isReady (es : list effect) (st : VoiceToTextState) :
  isReady (reduce_all es st) = isReady st.
Proof.
  revert st. induction es as [|e es IH]; intros st; simpl; [reflexivity|].
  rewrite IH. destruct e; simpl; auto.
  unfold transcript_updater. destruct (isFinal result); reflexivity.
Qed.

Lemma endpoint_events_isReady (evs : list (nat * LiveTranscriptionEvents)) (h : Hook) :
  isReady (state (endpoint_events h evs)) = isReady (state h).
Proof.
  revert h. induction evs as [|[c ev] evs IH]; intros h; simpl; [reflexivity|].
  rewrite IH. unfold endpoint_event.
  destruct (transcriptionServiceRef h) as [s|]; [|reflexivity].
  destruct (c <? created s); [|reflexivity].
  destruct (handlers s ev) as [s' es]. simpl. apply reduce_all_isReady.
Qed.

Lemma act_keeps_ready (h : Hook) (a : action) :
  hook_inv h -> isReady (state h) = true -> isReady (state (act h a)) = true.
Proof.
  intros (_ & _ & I) R. destruct (I R) as [Ha Hs].
  destruct (audioServiceRef h) as [au|] eqn:A; [|contradiction].
  destruct (transcriptionServiceRef h) as [s|] eqn:T; [|contradiction].
  destruct a; cbn [act].
  - unfold initialize.
    cbn [setState audioServiceRef transcriptionServiceRef state].
    rewrite A, T. reflexivity.
  - unfold validateApiKey_hook. rewrite T.
    destruct (validateApiKey probe nativeProbe); exact R.
  - unfold runDiagnostics. rewrite T. exact R.
  - unfold startRecording. rewrite A, T.
    cbn [setState state].
    destruct (at_phase (connect_call live s evs));
      try destruct (AudioCapture.startRecording au); simpl;
      rewrite reduce_all_isReady; exact R.
  - unfold stopRecording. rewrite A, T.
    cbn [setState audioServiceRef transcriptionServiceRef state]. rewrite T.
    match goal with
    | |- context [endpoint_events ?h1 trailing] =>
        pose proof (endpoint_events_isReady trailing h1) as E;
        destruct (transcriptionServiceRef (endpoint_events h1 trailing)) as [s2|]
    end; simpl in E.
    + destruct disconnect_throws as [msg|];
        [destruct (connection s2)|]; simpl; rewrite E; exact R.
    + rewrite E. exact R.
  - exact R.
  - unfold copyToClipboard.
    destruct (negb (truthy (transcript (state h)))); [exact R|].
    destruct write_fails; exact R.
  - pose proof (endpoint_events_isReady [(c, ev)] h) as E. simpl in E.
    rewrite E. exact R.
Qed.

(** X24.  Once ready, always ready: if [isReady] is true after some
    history of the hook, it is true after every continuation of that
    history, whatever fails later. *)
Theorem ready_forever (history more : list action) :
  isReady (state (after history)) = true ->
  isReady (state (after (history ++ more))) = true.
Proof.
  intros R. unfold after. rewrite fold_left_app. fold (after history).
  pose proof (after_inv history) as I.
  revert I R. generalize (after history).
  induction more as [|a more IH]; intros h I R; simpl; [exact R|].
  apply IH; [apply act_inv, I | apply act_keeps_ready; assumption].
Qed.

Lemma ready_forever_witness :
  isReady
    (state (after (hearing
                   ++ [EndpointEvent 0 (Error (new_Error "Status: 401"));
                       Initialize "" false probe_closed probe_closed;
                       ValidateApiKey probe_closed probe_closed])))
  = true.
Proof.
  exact (ready_forever hearing
           [EndpointEvent 0 (Error (new_Error "Status: 401"));
            Initialize "" false probe_closed probe_closed;
            ValidateApiKey probe_closed probe_closed]
           eq_refl).
Defined.

(** *** Connected only after an [Open] event *)

Lemma endpoint_event_isConnected (h : Hook) (c : nat)
  (ev : LiveTranscriptionEvents) (s' : TranscriptionService) :
  transcriptionServiceRef (endpoint_event h c ev) = Some s' ->
  isConnected s' = true ->
  (exists s, transcriptionServiceRef h = Some s /\ isConnected s = true)
  \/ ev = Open.
Proof.
  unfold endpoint_event.
  destruct (transcriptionServiceRef h) as [s|] eqn:T; [|rewrite T; discriminate].
  destruct (c <? created s); [|intros E K; left; exists s'; split; congruence].
  pose proof (handlers_isConnected s ev) as H.
  destruct (handlers s ev) as [s1 es]. simpl in *.
  intros E K. injection E as <-. destruct (H K) as [H1|H1]; eauto.
Qed.

Lemma endpoint_events_isConnected (evs : list (nat * LiveTranscriptionEvents))
  (h : Hook) (s' : TranscriptionService) :
  transcriptionServiceRef (endpoint_events h evs) = Some s' ->
  isConnected s' = true ->
  (exists s, transcriptionServiceRef h = Some s /\ isConnected s = true)
  \/ exists c, In (c, Open) evs.
Proof.
  revert h. induction evs as [|[c ev] evs IH]; intros h E K; simpl in *.
  - left. eauto.
  - destruct (IH _ E K) as [(s1 & E1 & K1)|[c' H]].
    + destruct (endpoint_event_isConnected h c ev s1 E1 K1) as [H|H]; [auto|].
      subst ev. right. exists c. now left.
    + right. exists c'. now right.
Qed.

Lemma connect_call_isConnected (live : live_oracle) (s : TranscriptionService)
  (evs : list event) :
  isConnected (service (connect_call live s evs)) = true ->
  isConnected s = true \/ exists c, In (Endpoint c Open) evs.
Proof.
  unfold connect_call. intros K.
  destruct (settle_run live 5 (run_suspended live (connect live s) evs))
    as (timers & Et & F).
  destruct (run_suspended_run live evs (connect live s))
    as (delivered & rest & Ee & Ed).
  rewrite Et, Ed, <- run_app in K.
  destruct (run_isConnected _ _ _ K) as [H|[c H]].
  - left. destruct (isConnected s) eqn:C; [reflexivity|].
    destruct (connect_not_connected live s C) as [H0 _]. congruence.
  - right. exists c. apply in_app_or in H. destruct H as [H|H].
    + rewrite Ee. apply in_or_app. now left.
    + rewrite Forall_forall in F. elim (F _ H).
Qed.

Lemma act_isConnected (h : Hook) (a : action) (s' : TranscriptionService) :
  transcriptionServiceRef (act h a) = Some s' -> isConnected s' = true ->
  (exists s, transcriptionServiceRef h = Some s /\ isConnected s = true)
  \/ delivers_open a.
Proof.
  destruct a; cbn [act].
  - (* initialize *)
    unfold initialize.
    cbn [setState audioServiceRef transcriptionServiceRef state].
    destruct (audioServiceRef h) as [au|];
      [|destruct granted; simpl];
      try (destruct (transcriptionServiceRef h) as [s|] eqn:T;
           [intros E K; left; exists s'; simpl in E; split; congruence|];
           unfold constructor;
           destruct (negb (truthy deepgramApiKey)); simpl; [discriminate|];
           destruct (validateApiKey probe nativeProbe); simpl;
           intros E K; injection E as <-; discriminate).
    simpl. intros E K. left. eauto.
  - unfold validateApiKey_hook.
    destruct (transcriptionServiceRef h) as [s|] eqn:T;
      [destruct (validateApiKey probe nativeProbe)|]; simpl;
      rewrite ?T; intros E K; left; eauto.
  - unfold runDiagnostics.
    destruct (transcriptionServiceRef h) as [s|] eqn:T; simpl;
      rewrite ?T; intros E K; left; eauto.
  - (* startRecording *)
    unfold startRecording.
    destruct (audioServiceRef h) as [au|];
      [destruct (transcriptionServiceRef h) as [s|] eqn:T|].
    + assert (G : forall x, Some (service (connect_call live s evs)) = Some x ->
                            isConnected x = true ->
                            (exists s0, Some s = Some s0 /\ isConnected s0 = true)
                            \/ (exists c, In (Endpoint c Open) evs)).
      { intros x E K. injection E as <-.
        destruct (connect_call_isConnected live s evs K) as [H|H]; eauto. }
      destruct (at_phase (connect_call live s evs));
        try destruct (AudioCapture.startRecording au); simpl; apply G.
    + simpl. rewrite T. intros E K. discriminate.
    + simpl. intros E K. left. eauto.
  - (* stopRecording *)
    unfold stopRecording.
    destruct (audioServiceRef h) as [au|]; [|intros E K; left; eauto].
    destruct (transcriptionServiceRef h) as [s|] eqn:T;
      [|rewrite T; intros E K; discriminate].
    cbn [setState audioServiceRef transcriptionServiceRef state]. rewrite T.
    match goal with
    | |- context [endpoint_events ?h1 trailing] =>
        pose proof (endpoint_events_isConnected trailing h1) as G;
        destruct (transcriptionServiceRef (endpoint_events h1 trailing))
          as [s2|] eqn:T2
    end.
    + assert (G' : isConnected s2 = true ->
                   (exists s0, Some s = Some s0 /\ isConnected s0 = true)
                   \/ (exists c, In (c, Open) trailing)).
      { intros K. exact (G s2 eq_refl K). }
      destruct disconnect_throws as [msg|]; [destruct (connection s2)|]; simpl.
      * rewrite T2. intros E K. injection E as <-. auto.
      * intros E K. injection E as <-. discriminate.
      * intros E K. injection E as <-. discriminate.
    + rewrite T2. discriminate.
  - simpl. intros E K. left. eauto.
  - unfold copyToClipboard.
    destruct (negb (truthy (transcript (state h))));
      [|destruct write_fails]; simpl; intros E K; left; eauto.
  - intros E K.
    destruct (endpoint_event_isConnected h c ev s' E K) as [H|H]; [auto|].
    subst ev. right. exact I.
Qed.

(** X25.  Over the whole life of the hook the session is connected only
    after an acknowledgment: if, after some history, the service of the
    hook has [isConnected] true, then an [Open] event was delivered in
    that history, during a [startRecording()], during a
    [stopRecording()] or between calls. *)
Theorem connected_only_after_open (history : list action)
  (s : TranscriptionService) :
  transcriptionServiceRef (after history) = Some s ->
  isConnected s = true ->
  Exists delivers_open history.
Proof.
  revert s. induction history as [|a history IH] using rev_ind; intros s E K.
  - discriminate.
  - unfold after in E. rewrite fold_left_app in E. simpl in E.
    fold (after history) in E.
    apply Exists_app.
    destruct (act_isConnected _ _ _ E K) as [(s0 & E0 & K0)|H].
    + left. exact (IH s0 E0 K0).
    + right. now constructor.
Qed.

Lemma connected_only_after_open_witness : Exists delivers_open hearing.
Proof.
  exact (connected_only_after_open hearing
           {| connection := Some 0; isConnected := true;
              onTranscriptCallback := true; onErrorCallback := true;
              created := 1 |}
           eq_refl eq_refl).
Defined.

End HookMore.
